(** * exelixi: worker shards, the barrier task queue and the coordinator

    A shallow embedding of [src/service.py] (classes [Worker], [Framework])
    and of [src/executor.py] (class [Executor]), followed by the properties
    of the worker lifecycle, of the credential check, of the two-phase
    barrier and of the shard registry.

    Conventions of the embedding.
    - Python objects that are shared and mutated (the [JoinableQueue] behind
      [Worker._task_queue], the gevent [Event] behind [Worker._task_event])
      live in a store and are named by their index; a field holds a
      reference, so replacing the field does not touch the old object.
    - gevent is cooperative: a greenlet runs until it reaches a blocking
      call.  A greenlet is therefore either not yet started, parked at one
      of the blocking calls of the source, or finished.
    - A greenlet parked in [JoinableQueue.join] waits on the queue's Event,
      which [task_done] sets when the count reaches zero and [put] clears:
      the [set()] schedules a switch to the waiters, and a waiter so
      notified returns from [join()] also when the Event has been cleared
      again.  The world keeps the set of the greenlets notified.
    - An exception is a result, and the state changes made before it was
      raised persist, as in Python. *)

From Stdlib Require Import Ascii.
From stdpp Require Import gmap strings list fin_maps pretty.

Set Default Proof Using "Type".
Open Scope string_scope.
Open Scope list_scope.
Open Scope nat_scope.

(** ** Python values and exceptions *)

(** What [json.loads] produces (numbers restricted to integers). *)
#[warnings="-register-all"]
Inductive value :=
| VNone
| VBool (b : bool)
| VInt (n : Z)
| VStr (s : string)
| VList (l : list value)
| VDict (d : gmap string value).

(** Python's [==] on these values: [True == 1], lists compare element by
    element, dicts compare as mappings. *)
Fixpoint py_eq (a b : value) {struct a} : bool :=
  match a, b with
  | VNone, VNone => true
  | VBool x, VBool y => bool_decide (x = y)
  | VBool x, VInt y | VInt y, VBool x => bool_decide ((if x then 1 else 0)%Z = y)
  | VInt x, VInt y => bool_decide (x = y)
  | VStr x, VStr y => bool_decide (x = y)
  | VList x, VList y =>
      (fix go (x y : list value) : bool :=
         match x, y with
         | [], [] => true
         | a :: x', b :: y' => py_eq a b && go x' y'
         | _, _ => false
         end) x y
  | VDict x, VDict y =>
      bool_decide (size x = size y) &&
      map_fold (λ k v acc,
                acc && match y !! k with Some v' => py_eq v v' | None => false end)
               true x
  | _, _ => false
  end.

Inductive exn :=
| KeyError (k : string)
| TypeError
| AttributeError
| ValueError
| IndexError
| UnknownStrategy            (* instantiate_class could not resolve the name *)
| TaskError (what : string). (* raised by a strategy's perform_task *)

Inductive result (A : Type) :=
| Returned (a : A)
| Raised (e : exn).
Arguments Returned {A} a.
Arguments Raised {A} e.

(** ** State and exceptions *)

Definition M (S A : Type) : Type := S → result A * S.

Definition ret {S A} (a : A) : M S A := λ s, (Returned a, s).
Definition raise {S A} (e : exn) : M S A := λ s, (Raised e, s).
Definition bind {S A B} (c : M S A) (k : A → M S B) : M S B :=
  λ s, match c s with
       | (Returned a, s') => k a s'
       | (Raised e, s') => (Raised e, s')
       end.
Definition gets {S A} (f : S → A) : M S A := λ s, (Returned (f s), s).
Definition modify {S} (f : S → S) : M S unit := λ s, (Returned tt, f s).

(** [try: c finally: h]: [h] always runs; an exception of [h] replaces the
    pending one. *)
Definition try_finally {S A} (c : M S A) (h : M S unit) : M S A :=
  λ s, match c s with
       | (r, s') =>
           match h s' with
           | (Returned _, s'') => (r, s'')
           | (Raised e, s'') => (Raised e, s'')
           end
       end.

Notation "'let*' x ':=' c 'in' k" := (bind c (λ x, k))
  (at level 10, x name, c at level 100, k at level 200).
Notation "c1 ;; c2" := (bind c1 (λ _, c2))
  (at level 100, c2 at level 200, right associativity).

(** [payload[k]] *)
Definition getitem {S} (payload : value) (k : string) : M S value :=
  match payload with
  | VDict d => match d !! k with
               | Some v => ret v
               | None => raise (KeyError k)
               end
  | _ => raise TypeError
  end.

(** ** gevent objects *)

(** [gevent.queue.JoinableQueue]: the items not yet taken by [get], and the
    count of items put and not yet marked by [task_done]. *)
Record JoinableQueue := mkQueue {
  items : list value;
  unfinished_tasks : nat
}.

Definition JoinableQueue_new : JoinableQueue := mkQueue [] 0.

Definition JoinableQueue_put (x : value) (q : JoinableQueue) : JoinableQueue :=
  mkQueue (items q ++ [x]) (S (unfinished_tasks q)).

(** [task_done] raises [ValueError] when called more often than [put]. *)
Definition JoinableQueue_task_done (q : JoinableQueue) : option JoinableQueue :=
  match unfinished_tasks q with
  | 0 => None
  | S n => Some (mkQueue (items q) n)
  end.

(** One chunk of a response body; the sentinel ends the body. *)
Inductive chunk :=
| Str (s : string)
| StopIteration.

(** What [start_response] and [body.put] have produced for one request. *)
Record Response := mkResponse {
  status : option string;
  body : list chunk
}.

(** The WSGI environment: the path and the request body as decoded by
    [json.loads] ([None] when it is not valid JSON). *)
Record Env := mkEnv {
  PATH_INFO : string;
  wsgi_input : option value
}.

Definition LogRecord : Type := string * string * list value.

(** ** The UnitOfWork contract

    [util.instantiate_class] and the concrete strategies are collaborators
    of the worker; the worker sees them through this interface.
    [instantiate_class] yields [None] when it cannot resolve the name (it
    raises); [perform_task] returns the strategy object's new state and the
    exception it raised, if any; [handle_endpoints] tells whether the
    strategy claims a path. *)
Class Strategy := {
  UnitOfWork : Type;
  Factory : Type;
  instantiate_class : value → option Factory;
  instantiate_uow : Factory → value → value → UnitOfWork;
  perform_task : UnitOfWork → value → UnitOfWork * option exn;
  handle_endpoints : UnitOfWork → string → bool
}.

(** ** service.py: class Worker *)

Module Worker.

(** The bound method a [Greenlet] was created with, and its arguments:
    [rq] names the request's [start_response] and [body]. *)
Inductive Target :=
| G_shard_config (rq : nat) (env : Env)
| G_shard_stop (payload : value)
| G_queue_wait (rq : nat) (env : Env)
| G_queue_join (rq : nat) (env : Env)
| G_ring_init (rq : nat) (env : Env)
| G_consume_task_queue.

(** The blocking calls at which a greenlet of the worker can be parked:
    [self._task_queue.get()] and [self._uow.perform_task(payload)] in
    [_consume_task_queue], [self._task_event.wait()] in [queue_wait],
    [self._task_queue.join()] in [queue_join].  The queue or event is the
    object the call was made on. *)
Inductive Suspension :=
| At_get (q : nat)
| At_perform_task (payload : value)
| At_wait (e : nat) (rq : nat)
| At_join (q : nat) (rq : nat).

Inductive Greenlet :=
| Ready (t : Target)
| Parked (s : Suspension)
| Dead (r : option exn).

(** What the consumer and the producers did, in order. *)
Inductive Observation :=
| E_put (q : nat) (payload : value)
| E_get (g : nat) (q : nat) (payload : value)  (* dequeued, perform_task called *)
| E_return (g : nat) (payload : value) (r : option exn) (* perform_task ended *)
| E_task_done (g : nat) (q : nat).

Section WithStrategy.
Context {strat : Strategy}.

(** The fields set by [Worker.__init__]. *)
Record Worker := mkWorker {
  is_config : bool;
  server_stopped : bool;          (* [self.server.stop()] has been called *)
  prefix : value;
  shard_id : value;
  ring : value;
  _task_event : option nat;       (* reference to an Event *)
  _task_queue : option nat;       (* reference to a JoinableQueue *)
  _uow : option UnitOfWork
}.

Definition __init__ : Worker :=
  mkWorker false false VNone VNone VNone None None None.

(** The worker process: the [Worker] object, the objects it refers to, its
    greenlets, the responses under construction and the log.  [notified]
    holds the greenlets parked in a [join()] that the [set()] of the queue's
    Event has scheduled a switch to: gevent wakes such a waiter from the
    hub, and the waiter then returns from [join()] without looking at the
    Event again. *)
Record World := mkWorld {
  self : Worker;
  queues : list JoinableQueue;
  events : list bool;             (* an Event is its flag *)
  greenlets : list Greenlet;
  responses : list Response;
  logging : list LogRecord;
  trace : list Observation;
  notified : gset nat
}.

Definition World_init : World := mkWorld __init__ [] [] [] [] [] [] ∅.

Definition upd_self (f : Worker → Worker) (w : World) : World :=
  mkWorld (f (self w)) (queues w) (events w) (greenlets w) (responses w)
          (logging w) (trace w) (notified w).
Definition upd_queues (f : list JoinableQueue → list JoinableQueue) (w : World) :=
  mkWorld (self w) (f (queues w)) (events w) (greenlets w) (responses w)
          (logging w) (trace w) (notified w).
Definition upd_events (f : list bool → list bool) (w : World) :=
  mkWorld (self w) (queues w) (f (events w)) (greenlets w) (responses w)
          (logging w) (trace w) (notified w).
Definition upd_greenlets (f : list Greenlet → list Greenlet) (w : World) :=
  mkWorld (self w) (queues w) (events w) (f (greenlets w)) (responses w)
          (logging w) (trace w) (notified w).
Definition upd_responses (f : list Response → list Response) (w : World) :=
  mkWorld (self w) (queues w) (events w) (greenlets w) (f (responses w))
          (logging w) (trace w) (notified w).
Definition upd_logging (f : list LogRecord → list LogRecord) (w : World) :=
  mkWorld (self w) (queues w) (events w) (greenlets w) (responses w)
          (f (logging w)) (trace w) (notified w).
Definition upd_trace (f : list Observation → list Observation) (w : World) :=
  mkWorld (self w) (queues w) (events w) (greenlets w) (responses w)
          (logging w) (f (trace w)) (notified w).
Definition upd_notified (f : gset nat → gset nat) (w : World) :=
  mkWorld (self w) (queues w) (events w) (greenlets w) (responses w)
          (logging w) (trace w) (f (notified w)).

Definition set_is_config (b : bool) (me : Worker) : Worker :=
  mkWorker b (server_stopped me) (prefix me) (shard_id me) (ring me)
           (_task_event me) (_task_queue me) (_uow me).
Definition set_server_stopped (b : bool) (me : Worker) : Worker :=
  mkWorker (is_config me) b (prefix me) (shard_id me) (ring me)
           (_task_event me) (_task_queue me) (_uow me).
Definition set_prefix (v : value) (me : Worker) : Worker :=
  mkWorker (is_config me) (server_stopped me) v (shard_id me) (ring me)
           (_task_event me) (_task_queue me) (_uow me).
Definition set_shard_id (v : value) (me : Worker) : Worker :=
  mkWorker (is_config me) (server_stopped me) (prefix me) v (ring me)
           (_task_event me) (_task_queue me) (_uow me).
Definition set_ring (v : value) (me : Worker) : Worker :=
  mkWorker (is_config me) (server_stopped me) (prefix me) (shard_id me) v
           (_task_event me) (_task_queue me) (_uow me).
Definition set_task_event (e : option nat) (me : Worker) : Worker :=
  mkWorker (is_config me) (server_stopped me) (prefix me) (shard_id me) (ring me)
           e (_task_queue me) (_uow me).
Definition set_task_queue (q : option nat) (me : Worker) : Worker :=
  mkWorker (is_config me) (server_stopped me) (prefix me) (shard_id me) (ring me)
           (_task_event me) q (_uow me).
Definition set_uow (u : option UnitOfWork) (me : Worker) : Worker :=
  mkWorker (is_config me) (server_stopped me) (prefix me) (shard_id me) (ring me)
           (_task_event me) (_task_queue me) u.

Definition W (A : Type) : Type := M World A.

(** *** The request's response context and the log *)

Definition start_response (rq : nat) (st : string) : W unit :=
  modify (upd_responses (alter (λ r, mkResponse (Some st) (body r)) rq)).

Definition body_put (rq : nat) (c : chunk) : W unit :=
  modify (upd_responses (alter (λ r, mkResponse (status r) (body r ++ [c])) rq)).

Definition log (level fmt : string) (args : list value) : W unit :=
  modify (upd_logging (λ l, l ++ [(level, fmt, args)])).

Definition observe (o : Observation) : W unit :=
  modify (upd_trace (λ t, t ++ [o])).

(** [Greenlet(...).start()], [spawn(...)]: the greenlet runs when the hub
    switches to it. *)
Definition spawn (t : Target) : W unit :=
  modify (upd_greenlets (λ gs, gs ++ [Ready t])).

(** *** Lifecycle *)

(** [get_response_context]: the decoded request body. *)
Definition get_response_context (env : Env) : W value :=
  match wsgi_input env with
  | Some payload => ret payload
  | None => raise ValueError
  end.

Definition shard_stop (payload : value) : W unit :=
  let* me := gets self in
  let deny :=
    (let* b := getitem payload "shard_id" in
     let* a := getitem payload "prefix" in
     log "error" "incorrect shard %s prefix %s" [b; a]) in
  let* a := getitem payload "prefix" in
  if py_eq (prefix me) a then
    let* b := getitem payload "shard_id" in
    if py_eq (shard_id me) b then
      log "info" "worker service stopping... you can safely ignore any exceptions that follow" [];;
      modify (upd_self (set_server_stopped true))
    else deny
  else deny.

Definition auth_request (payload : value) (rq : nat) : W bool :=
  let* me := gets self in
  let deny :=
    (start_response rq "403 Forbidden";;
     body_put rq (Str "Forbidden, incorrect credentials for this shard\r\n");;
     body_put rq StopIteration;;
     let* b := getitem payload "shard_id" in
     let* a := getitem payload "prefix" in
     log "error" "incorrect credentials shard %s prefix %s" [b; a];;
     ret false) in
  let* a := getitem payload "prefix" in
  if py_eq (prefix me) a then
    let* b := getitem payload "shard_id" in
    if py_eq (shard_id me) b then ret true else deny
  else deny.

Definition shard_config (rq : nat) (env : Env) : W unit :=
  let* payload := get_response_context env in
  let* me := gets self in
  if is_config me then
    start_response rq "403 Forbidden";;
    body_put rq (Str "Forbidden, shard is already in a configured state\r\n");;
    body_put rq StopIteration;;
    log "warning" "denied configuring shard %s prefix %s" [shard_id me; prefix me]
  else
    modify (upd_self (set_is_config true));;
    let* a := getitem payload "prefix" in
    modify (upd_self (set_prefix a));;
    let* b := getitem payload "shard_id" in
    modify (upd_self (set_shard_id b));;
    let* uow_name := getitem payload "uow_name" in
    log "info" "initializing unit of work based on %s" [uow_name];;
    let* ff := match instantiate_class uow_name with
               | Some ff => ret ff
               | None => raise UnknownStrategy
               end in
    modify (upd_self (set_uow (Some (instantiate_uow ff uow_name a))));;
    start_response rq "200 OK";;
    body_put rq (Str "Bokay\r\n");;
    body_put rq StopIteration;;
    log "info" "configuring shard %s prefix %s" [b; a].

(** *** Barrier pattern *)

(** [wrap_task_event] is a context manager; this is its part before the
    [yield] ... *)
Definition wrap_task_event_enter : W unit :=
  let* evs := gets events in
  modify (upd_events (λ evs, evs ++ [false]));;
  modify (upd_self (set_task_event (Some (length evs)))).

(** ... and its part after the [yield]: [self._task_event.set()], then the
    field is cleared. *)
Definition wrap_task_event_exit : W unit :=
  let* me := gets self in
  match _task_event me with
  | None => raise AttributeError
  | Some e =>
      modify (upd_events <[e := true]>);;
      modify (upd_self (set_task_event None))
  end.

(** The greenlets parked in [join()] on the queue object [q]. *)
Definition joiners (q : nat) (gs : list Greenlet) : gset nat :=
  list_to_set
    (omap (λ p : nat * Greenlet,
             match p.2 with
             | Parked (At_join q' _) => if decide (q' = q) then Some p.1 else None
             | _ => None
             end)
          (imap pair gs)).

(** [self._cond.set()] inside [task_done], when the count has reached zero:
    every greenlet that is parked in [q.join()] at that moment will be
    switched to. *)
Definition JoinableQueue_notify (q : nat) : W unit :=
  let* gs := gets greenlets in
  modify (upd_notified (λ ns, ns ∪ joiners q gs)).

(** [self._task_queue.task_done()] *)
Definition task_done (g : nat) : W unit :=
  let* me := gets self in
  match _task_queue me with
  | None => raise AttributeError
  | Some q =>
      let* qs := gets queues in
      match qs !! q ≫= JoinableQueue_task_done with
      | Some Q =>
          modify (upd_queues <[q := Q]>);;
          (if decide (unfinished_tasks Q = 0) then JoinableQueue_notify q else ret tt);;
          observe (E_task_done g q)
      | None => raise ValueError
      end
  end.

(** The call [self._uow.perform_task(payload)] is where the consumer may
    yield to other greenlets; without a strategy object the call fails at
    once, and the [finally] clause runs. *)
Definition call_perform_task (g : nat) (payload : value) : W (option Suspension) :=
  let* me := gets self in
  match _uow me with
  | Some _ => ret (Some (At_perform_task payload))
  | None =>
      try_finally (observe (E_return g payload (Some AttributeError));;
                   raise AttributeError)
                  (task_done g)
  end.

(** [q.get()] of the consumer [g] on the queue object [q]: with an item
    available the oldest one is taken and handed to [perform_task];
    otherwise the consumer stays parked in [get]. *)
Definition JoinableQueue_get (g q : nat) : W (option Suspension) :=
  let* qs := gets queues in
  match qs !! q with
  | Some (mkQueue (payload :: rest) n) =>
      modify (upd_queues <[q := mkQueue rest n]>);;
      observe (E_get g q payload);;
      call_perform_task g payload
  | _ => ret (Some (At_get q))
  end.

(** Top of the [while True] loop: [payload = self._task_queue.get()]. *)
Definition _consume_task_queue (g : nat) : W (option Suspension) :=
  let* me := gets self in
  match _task_queue me with
  | None => raise AttributeError
  | Some q => JoinableQueue_get g q
  end.

(** [perform_task] comes back (returning or raising). *)
Definition perform_task_returns (g : nat) (payload : value) : W unit :=
  let* me := gets self in
  match _uow me with
  | None => observe (E_return g payload (Some AttributeError));; raise AttributeError
  | Some u =>
      let ur := perform_task u payload in
      modify (upd_self (set_uow (Some ur.1)));;
      observe (E_return g payload ur.2);;
      match ur.2 with
      | None => ret tt
      | Some e => raise e
      end
  end.

(** The rest of one iteration, [try: ... finally: task_done()], and the
    next iteration up to its blocking call. *)
Definition _consume_task_queue_resume (g : nat) (payload : value)
  : W (option Suspension) :=
  try_finally (perform_task_returns g payload) (task_done g);;
  _consume_task_queue g.

Definition prep_task_queue : W unit :=
  let* qs := gets queues in
  modify (upd_queues (λ qs, qs ++ [JoinableQueue_new]));;
  modify (upd_self (set_task_queue (Some (length qs))));;
  spawn G_consume_task_queue.

Definition put_task_queue (payload : value) : W unit :=
  let* me := gets self in
  match _task_queue me with
  | None => raise AttributeError
  | Some q =>
      modify (upd_queues (alter (JoinableQueue_put payload) q));;
      observe (E_put q payload)
  end.

(** The acknowledgement of [queue_wait], after the wait. *)
Definition queue_wait_ack (rq : nat) : W (option Suspension) :=
  start_response rq "200 OK";;
  body_put rq (Str "Bokay\r\n");;
  body_put rq StopIteration;;
  ret None.

(** [e.wait()]: returns once the flag of [e] is set. *)
Definition Event_wait (e rq : nat) : W (option Suspension) :=
  let* evs := gets events in
  match evs !! e with
  | Some true => queue_wait_ack rq
  | _ => ret (Some (At_wait e rq))
  end.

Definition queue_wait (rq : nat) (env : Env) : W (option Suspension) :=
  let* payload := get_response_context env in
  let* ok := auth_request payload rq in
  if ok then
    let* me := gets self in
    match _task_event me with
    | Some e => Event_wait e rq
    | None => queue_wait_ack rq
    end
  else ret None.

(** The end of [queue_join], after the join. *)
Definition queue_join_done (rq : nat) : W (option Suspension) :=
  body_put rq (Str "done\r\n");;
  body_put rq StopIteration;;
  ret None.

(** [q.join()] is [self._cond.wait()], and the Event [_cond] of a
    JoinableQueue is set exactly while the count is zero ([put] clears it,
    the [task_done] that reaches zero sets it): the call returns at once
    when nothing is unfinished, and parks the caller otherwise. *)
Definition JoinableQueue_join (q rq : nat) : W (option Suspension) :=
  let* qs := gets queues in
  match unfinished_tasks <$> qs !! q with
  | Some 0 => queue_join_done rq
  | _ => ret (Some (At_join q rq))
  end.

(** A greenlet parked in [q.join()] goes on when the [set()] of a
    [task_done] has scheduled it, and then whatever the count has become
    in the meantime; the hub does not switch to it before. *)
Definition JoinableQueue_join_resume (g q rq : nat) : W (option Suspension) :=
  let* ns := gets notified in
  if bool_decide (g ∈ ns) then
    modify (upd_notified (λ ns, ns ∖ {[g]}));;
    queue_join_done rq
  else ret (Some (At_join q rq)).

Definition queue_join (rq : nat) (env : Env) : W (option Suspension) :=
  let* payload := get_response_context env in
  let* ok := auth_request payload rq in
  if ok then
    start_response rq "200 OK";;
    body_put rq (Str "join queue...\r\n");;
    let* me := gets self in
    match _task_queue me with
    | None => raise AttributeError
    | Some q => JoinableQueue_join q rq
    end
  else ret None.

(** *** Hash ring *)

Definition ring_init (rq : nat) (env : Env) : W unit :=
  let* payload := get_response_context env in
  let* ok := auth_request payload rq in
  if ok then
    let* r := getitem payload "ring" in
    modify (upd_self (set_ring r));;
    start_response rq "200 OK";;
    body_put rq (Str "Bokay\r\n");;
    body_put rq StopIteration;;
    log "info" "setting hash ring %s" [r]
  else ret tt.

(** *** WSGI handler *)

Definition bokay (rq : nat) : W unit :=
  start_response rq "200 OK";;
  body_put rq (Str "Bokay\r\n");;
  body_put rq StopIteration.

(** [_response_handler]: a fresh body, the strategy's endpoints first, then
    the worker's.  Returns the body. *)
Definition _response_handler (env : Env) : W nat :=
  let uri_path := PATH_INFO env in
  let* rs := gets responses in
  let rq := length rs in
  modify (upd_responses (λ rs, rs ++ [mkResponse None []]));;
  let* me := gets self in
  (if match _uow me with
      | Some u => handle_endpoints u uri_path
      | None => false
      end
   then ret tt
   else if bool_decide (uri_path = "/shard/config") then
     spawn (G_shard_config rq env)
   else if bool_decide (uri_path = "/shard/stop") then
     let* payload := get_response_context env in
     spawn (G_shard_stop payload);;
     start_response rq "200 OK";;
     body_put rq (Str "Goodbye\r\n");;
     body_put rq StopIteration
   else if bool_decide (uri_path = "/queue/wait") then
     spawn (G_queue_wait rq env)
   else if bool_decide (uri_path = "/queue/join") then
     spawn (G_queue_join rq env)
   else if bool_decide (uri_path = "/check/persist") then bokay rq
   else if bool_decide (uri_path = "/check/recover") then bokay rq
   else if bool_decide (uri_path = "/ring/init") then
     spawn (G_ring_init rq env)
   else if bool_decide (uri_path = "/ring/add") then bokay rq
   else if bool_decide (uri_path = "/ring/del") then bokay rq
   else if bool_decide (uri_path = "/") then
     start_response rq "200 OK";;
     body_put rq (Str "<env>\r\n");;     (* str(env) + "\r\n" *)
     body_put rq StopIteration
   else
     start_response rq "404 Not Found";;
     body_put rq (Str "Not Found\r\n");;
     body_put rq StopIteration);;
  ret rq.

(** *** Scheduling *)

(** A greenlet started for the first time runs its target. *)
Definition start (g : nat) (t : Target) : W (option Suspension) :=
  match t with
  | G_shard_config rq env => shard_config rq env;; ret None
  | G_shard_stop payload => shard_stop payload;; ret None
  | G_queue_wait rq env => queue_wait rq env
  | G_queue_join rq env => queue_join rq env
  | G_ring_init rq env => ring_init rq env;; ret None
  | G_consume_task_queue => _consume_task_queue g
  end.

(** A parked greenlet goes on from its blocking call, when the call can
    return; otherwise it stays parked and nothing changes. *)
Definition resume (g : nat) (s : Suspension) : W (option Suspension) :=
  match s with
  | At_get q => JoinableQueue_get g q
  | At_perform_task payload => _consume_task_queue_resume g payload
  | At_wait e rq => Event_wait e rq
  | At_join q rq => JoinableQueue_join_resume g q rq
  end.

Definition landed (r : result (option Suspension)) : Greenlet :=
  match r with
  | Returned None => Dead None
  | Returned (Some s) => Parked s
  | Raised e => Dead (Some e)
  end.

(** The hub switches to greenlet [g], which runs up to its next blocking
    call, its return or its exception. *)
Definition switch (g : nat) (w : World) : World :=
  match greenlets w !! g with
  | Some (Ready t) =>
      let rw := start g t w in upd_greenlets <[g := landed rw.1]> rw.2
  | Some (Parked s) =>
      let rw := resume g s w in upd_greenlets <[g := landed rw.1]> rw.2
  | _ => w
  end.

(** What can happen in the worker process, one step at a time: the server
    hands a request to [_response_handler]; the hub switches to a greenlet;
    strategy code (an endpoint of the UnitOfWork) calls one of the worker's
    barrier methods. *)
Inductive Action :=
| Serve (env : Env)
| Switch (g : nat)
| Call_prep_task_queue
| Call_put_task_queue (payload : value)
| Enter_wrap_task_event
| Exit_wrap_task_event.

Definition exec (a : Action) (w : World) : World :=
  match a with
  | Serve env => if server_stopped (self w) then w else (_response_handler env w).2
  | Switch g => switch g w
  | Call_prep_task_queue => (prep_task_queue w).2
  | Call_put_task_queue payload => (put_task_queue payload w).2
  | Enter_wrap_task_event => (wrap_task_event_enter w).2
  | Exit_wrap_task_event => (wrap_task_event_exit w).2
  end.

Definition run (l : list Action) (w : World) : World :=
  foldl (λ w a, exec a w) w l.

End WithStrategy.
End Worker.

(** ** executor.py: class Executor *)

Module Executor.

Record Executor := mkExecutor {
  is_config : bool;
  server_stopped : bool;
  prefix : value;
  shard_id : value;
  hash_ring : value;
  ff_name : value;
  pop : value
}.

Definition __init__ : Executor :=
  mkExecutor false false VNone VNone VNone VNone VNone.

(** The executor while it serves one request: the object, the response
    under construction, and what has been printed. *)
Record Proc := mkProc {
  self : Executor;
  response : Response;
  stdout : list (string * list value)
}.

Definition upd_self (f : Executor → Executor) (p : Proc) : Proc :=
  mkProc (f (self p)) (response p) (stdout p).

Definition start_response (st : string) : M Proc unit :=
  modify (λ p, mkProc (self p) (mkResponse (Some st) (body (response p))) (stdout p)).

Definition body_put (c : chunk) : M Proc unit :=
  modify (λ p, mkProc (self p)
                      (mkResponse (status (response p)) (body (response p) ++ [c]))
                      (stdout p)).

Definition print (fmt : string) (args : list value) : M Proc unit :=
  modify (λ p, mkProc (self p) (response p) (stdout p ++ [(fmt, args)])).

Definition shard_config (payload : value) : M Proc unit :=
  let* me := gets self in
  if is_config me then
    start_response "404 Not Found";;
    body_put (Str "Denied, executor already in a configured state\r\n");;
    body_put StopIteration;;
    print "%s: denied configuring shard %s prefix %s"
          [VStr "APP_NAME"; shard_id me; prefix me]
  else
    modify (upd_self (λ me, mkExecutor true (server_stopped me) (prefix me)
                              (shard_id me) (hash_ring me) (ff_name me) (pop me)));;
    let* a := getitem payload "prefix" in
    modify (upd_self (λ me, mkExecutor (is_config me) (server_stopped me) a
                              (shard_id me) (hash_ring me) (ff_name me) (pop me)));;
    let* b := getitem payload "shard_id" in
    modify (upd_self (λ me, mkExecutor (is_config me) (server_stopped me) (prefix me)
                              b (hash_ring me) (ff_name me) (pop me)));;
    start_response "200 OK";;
    body_put (Str "Bokay\r\n");;
    body_put StopIteration;;
    print "%s: configuring shard %s prefix %s" [VStr "APP_NAME"; b; a].

Definition stop (payload : value) : M Proc unit :=
  let* me := gets self in
  let wrong :=
    (let* b := getitem payload "shard_id" in
     let* a := getitem payload "prefix" in
     print "%s: incorrect shard %s prefix %s" [VStr "APP_NAME"; b; a]) in
  let* a := getitem payload "prefix" in
  if py_eq (prefix me) a then
    let* b := getitem payload "shard_id" in
    if py_eq (shard_id me) b then
      print "%s: executor service stopping... you can safely ignore any exceptions that follow."
            [VStr "APP_NAME"];;
      modify (upd_self (λ me, mkExecutor (is_config me) true (prefix me) (shard_id me)
                                (hash_ring me) (ff_name me) (pop me)))
    else wrong
  else wrong.

(** The module [ga] and [json.dumps], as the executor uses them.  A
    Population object is an opaque value; each operation returns the
    object's new state, or raises. *)
Class GA := {
  Population : value → value → value → result value;
  populate : value → Z → result value;
  get_part_hist : value → result value;
  next_generation : value → value → value → result value;
  dumps : value → string
}.

Section WithGA.
Context {ga : GA}.

Definition call {A} (r : result A) : M Proc A :=
  match r with
  | Returned a => ret a
  | Raised e => raise e
  end.

(** A method call on [self.pop]; [None] has no methods. *)
Definition on_pop {A} (f : value → result A) : M Proc A :=
  let* me := gets self in
  match pop me with
  | VNone => raise AttributeError
  | p => call (f p)
  end.

Definition set_pop (p : value) : M Proc unit :=
  modify (upd_self (λ me, mkExecutor (is_config me) (server_stopped me) (prefix me)
                            (shard_id me) (hash_ring me) (ff_name me) p)).

(** [self.bad_auth(...)]: the class defines no such method. *)
Definition bad_auth : M Proc unit := raise AttributeError.

(** The test every [pop_*] handler starts with. *)
Definition if_credential (payload : value) (yes no : M Proc unit) : M Proc unit :=
  let* me := gets self in
  let* a := getitem payload "prefix" in
  if py_eq (prefix me) a then
    let* b := getitem payload "shard_id" in
    if py_eq (shard_id me) b then yes else no
  else no.

Definition pop_init (payload : value) : M Proc unit :=
  if_credential payload
    (start_response "200 OK";;
     body_put (Str "Bokay\r\n");;
     body_put StopIteration;;
     let* f := getitem payload "ff_name" in
     modify (upd_self (λ me, mkExecutor (is_config me) (server_stopped me) (prefix me)
                               (shard_id me) (hash_ring me) f (pop me)));;
     print "%s: initializing population based on %s" [VStr "APP_NAME"; f];;
     let* me := gets self in
     let* p := call (Population (ff_name me) (prefix me) (hash_ring me)) in
     set_pop p;;
     let* p' := call (populate p 0) in
     set_pop p')
    bad_auth.

Definition pop_hist (payload : value) : M Proc unit :=
  if_credential payload
    (start_response "200 OK";;
     let* h := on_pop get_part_hist in
     body_put (Str (dumps h));;
     body_put (Str "\r\n");;
     body_put StopIteration)
    bad_auth.

Definition pop_next (payload : value) : M Proc unit :=
  if_credential payload
    (start_response "200 OK";;
     body_put (Str "Bokay\r\n");;
     body_put StopIteration;;
     let* current_gen := getitem payload "current_gen" in
     let* fitness_cutoff := getitem payload "fitness_cutoff" in
     let* p' := on_pop (λ p, next_generation p current_gen fitness_cutoff) in
     set_pop p')
    bad_auth.

End WithGA.

End Executor.

(** ** service.py: class Framework *)

Module Framework.

Record WorkerInfo := mkWorkerInfo {
  host : string;
  slave_id : string;
  task_id : string;
  executor_id : string;
  ip_addr : option string;
  port : option string
}.

(** The fields of the coordinator that the registry and the barrier use. *)
Record Framework := mkFramework {
  uuid : string;
  prefix : string;
  uow_name : string;
  _shard_assoc : option (gmap string (string * option WorkerInfo));
  _ring : option (gmap string string)
}.

Definition __init__ (uuid1_hex uow_name prefix : string) : Framework :=
  mkFramework uuid1_hex (prefix +:+ "/" +:+ uuid1_hex) uow_name None None.

(** [str(n)] of a non-negative integer. *)
Definition str (n : nat) : string := pretty n.

(** [''.join([ '0' for _ in xrange(k) ])] *)
Definition zeros (k : nat) : string := String.concat "" (replicate k "0").

(** [xrange] of a negative number is empty: the subtraction is truncated. *)
Definition _gen_shard_id (i n : nat) : string :=
  let s := str i in
  let z := zeros (String.length (str n) - String.length s) in
  "shard/" +:+ z +:+ s.

(** [for x in l: body], the accumulator standing for the loop's locals. *)
Fixpoint for_each {S A B} (l : list A) (acc : B) (body : B → A → M S B) : M S B :=
  match l with
  | [] => ret acc
  | x :: l' => let* acc' := body acc x in for_each l' acc' body
  end.

(** [l[i]] *)
Definition index {S A} (l : list A) (i : nat) : M S A :=
  match l !! i with
  | Some x => ret x
  | None => raise IndexError
  end.

Definition set_shard_assoc (d : option (gmap string (string * option WorkerInfo)))
  (me : Framework) : Framework :=
  mkFramework (uuid me) (prefix me) (uow_name me) d (_ring me).

(** [self._shard_assoc[shard_id] = entry] *)
Definition shard_assoc_setitem (shard_id : string) (entry : string * option WorkerInfo)
  : M Framework unit :=
  let* me := gets id in
  match _shard_assoc me with
  | Some d => modify (set_shard_assoc (Some (<[shard_id := entry]> d)))
  | None => raise TypeError
  end.

(** [not exe_info]: [None] and the empty list are false. *)
Definition not_ (exe_info : option (list WorkerInfo)) : bool :=
  match exe_info with
  | None | Some [] => true
  | Some (_ :: _) => false
  end.

Definition set_worker_list (worker_list : list string)
  (exe_info : option (list WorkerInfo)) : M Framework unit :=
  modify (set_shard_assoc (Some ∅));;
  for_each (seq 0 (length worker_list)) tt (λ _ i,
    let shard_id := _gen_shard_id i (length worker_list) in
    if not_ exe_info then
      let* uri := index worker_list i in
      shard_assoc_setitem shard_id (uri, None)
    else
      let* uri := index worker_list i in
      let* info := index (default [] exe_info) i in
      shard_assoc_setitem shard_id (uri, Some info)).

Definition get_worker_count : M Framework nat :=
  let* me := gets id in
  match _shard_assoc me with
  | Some d => ret (size d)
  | None => raise TypeError
  end.

(** What the coordinator puts on the wire and gets back. *)
Inductive Message :=
| Sent (shard_id path : string)
| Acked (shard_id path : string) (lines : list string).

Section WithTransport.

(** [util.post_distrib_rest] posts to one shard and returns the lines of its
    response, or raises; it acts on the rest of the cluster, [Net]. *)
Context {Net : Type}.
Context (post_distrib_rest :
           string → string → string → string → value → Net → result (list string) * Net).

(** The coordinator during a run. *)
Record Run := mkRun {
  fw : Framework;
  net : Net;
  wire : list Message
}.

Definition on_wire (m : Message) : M Run unit :=
  modify (λ r, mkRun (fw r) (net r) (wire r ++ [m])).

(** The call of [post_distrib_rest]: it returns when the shard has
    answered. *)
Definition call_post_distrib_rest (prefix shard_id shard_uri path : string)
  (base_msg : value) : M Run (list string) :=
  on_wire (Sent shard_id path);;
  let* lines := (λ r, let ln := post_distrib_rest prefix shard_id shard_uri path
                                                  base_msg (net r) in
                      (ln.1, mkRun (fw r) ln.2 (wire r))) in
  on_wire (Acked shard_id path lines);;
  ret lines.

Definition send_ring_rest (path : string) (base_msg : value) : M Run (list string) :=
  let* me := gets fw in
  match _shard_assoc me with
  | None => raise AttributeError
  | Some d =>
      for_each (map_to_list d) [] (λ json_str item,
        let '(shard_id, (shard_uri, exe_info)) := item in
        let* lines := call_post_distrib_rest (prefix me) shard_id shard_uri path
                                             base_msg in
        let* line0 := index lines 0 in
        ret (json_str ++ [line0]))
  end.

Definition phase_barrier : M Run unit :=
  send_ring_rest "queue/wait" (VDict ∅);;
  send_ring_rest "queue/join" (VDict ∅);;
  ret tt.

Definition send_worker_rest (shard_id shard_uri path : string) (base_msg : value)
  : M Run (list string) :=
  let* me := gets fw in
  call_post_distrib_rest (prefix me) shard_id shard_uri path base_msg.

Definition set_ring (r : option (gmap string string)) (me : Framework) : Framework :=
  mkFramework (uuid me) (prefix me) (uow_name me) (_shard_assoc me) r.

(** [orchestrate_uow]; [orchestrate] is [self._uow.orchestrate(self)], the
    strategy's side of the run. *)
Definition orchestrate_uow (orchestrate : M Run unit) : M Run unit :=
  let* me := gets fw in
  send_ring_rest "shard/config" (VDict {["uow_name" := VStr (uow_name me)]});;
  let* me := gets fw in
  match _shard_assoc me with
  | None => raise AttributeError
  | Some d =>
      let ring := fst <$> d in
      modify (λ r, mkRun (set_ring (Some ring) (fw r)) (net r) (wire r));;
      send_ring_rest "ring/init" (VDict {["ring" := VDict (VStr <$> ring)]});;
      orchestrate;;
      send_ring_rest "shard/stop" (VDict ∅);;
      ret tt
  end.

End WithTransport.

(** [get_worker_list]: what the generator yields when it is iterated, in
    order; [items()] of [None] raises at the first step. *)
Definition get_worker_list : M Framework (list (string * string)) :=
  let* me := gets id in
  match _shard_assoc me with
  | Some d => ret ((λ item, (item.1, item.2.1)) <$> map_to_list d)
  | None => raise AttributeError
  end.

End Framework.

(** * Properties *)

(** A strategy to run the worker on: it resolves the name ["echo"] only,
    records the payloads it performed, and fails on the payload ["bad"]. *)
Definition echo : Strategy := {|
  UnitOfWork := list value;
  Factory := unit;
  instantiate_class := λ name, if py_eq name (VStr "echo") then Some tt else None;
  instantiate_uow := λ _ _ _, [];
  perform_task := λ u payload,
    if py_eq payload (VStr "bad") then (u, Some (TaskError "bad"))
    else (u ++ [payload], None);
  handle_endpoints := λ _ _, false
|}.

(** [{"prefix": a, "shard_id": b, "uow_name": n}] *)
Definition config_payload (a b n : value) : value :=
  VDict (<["prefix" := a]> (<["shard_id" := b]> (<["uow_name" := n]> ∅))).

(** [{"prefix": a, "shard_id": b}] *)
Definition credential (a b : value) : value :=
  VDict (<["prefix" := a]> (<["shard_id" := b]> ∅)).

Definition post (path : string) (payload : value) : Env := mkEnv path (Some payload).

(** ** Worker lifecycle and the credential check *)

Module WorkerLifecycle.
Import Worker.

Section Lifecycle.
Context {strat : Strategy}.

(** The request [rq] was answered with status [st] and the chunks [cs]
    appended to its body. *)
Definition answered (rq : nat) (st : string) (cs : list chunk) (w w' : World) : Prop :=
  responses w' =
    alter (λ r, mkResponse (Some st) (body r ++ cs)) rq (responses w).

(** Nothing of the worker's own state differs: its fields, the queue and
    event objects, the greenlets and what they did. *)
Definition same_state (w w' : World) : Prop :=
  self w' = self w ∧ queues w' = queues w ∧ events w' = events w ∧
  greenlets w' = greenlets w ∧ trace w' = trace w.

Ltac answered_tac :=
  unfold answered; simpl; rewrite ?list_alter_alter_eq;
  apply list_alter_ext; [intros; simpl; by rewrite <- ?app_assoc | done].


Lemma auth_request_match (w : World) (d : gmap string value) (a b : value) rq :
  d !! "prefix" = Some a →
  d !! "shard_id" = Some b →
  py_eq (prefix (self w)) a = true →
  py_eq (shard_id (self w)) b = true →
  auth_request (VDict d) rq w = (Returned true, w).
Proof.
  intros Ha Hb Ea Eb.
  unfold auth_request, bind, gets, getitem, ret; simpl.
  by rewrite Ha, Hb, Ea, Eb.
Qed.

(** A configured worker turns a configuration request down. *)
Lemma shard_config_configured (w : World) rq env :
  is_config (self w) = true →
  same_state w (shard_config rq env w).2 ∧
  ∀ payload, wsgi_input env = Some payload →
    (shard_config rq env w).1 = Returned tt ∧
    answered rq "403 Forbidden"
      [Str "Forbidden, shard is already in a configured state\r\n"; StopIteration]
      w (shard_config rq env w).2.
Proof.
  intros Hc.
  unfold shard_config, get_response_context, bind, gets; simpl.
  destruct (wsgi_input env) as [payload|]; simpl.
  - rewrite Hc; simpl. split; [done|].
    intros ? _. split; [done|]. answered_tac.
  - split; [done|]. by intros.
Qed.

Lemma Executor_shard_config_configured (p : Executor.Proc) payload :
  Executor.is_config (Executor.self p) = true →
  Executor.shard_config payload p =
    (Returned tt,
     Executor.mkProc (Executor.self p)
       (mkResponse (Some "404 Not Found")
          (body (Executor.response p) ++
           [Str "Denied, executor already in a configured state\r\n"; StopIteration]))
       (Executor.stdout p ++
        [("%s: denied configuring shard %s prefix %s",
          [VStr "APP_NAME"; Executor.shard_id (Executor.self p);
           Executor.prefix (Executor.self p)])])).
Proof.
  intros Hc. unfold Executor.shard_config, bind, gets; simpl.
  rewrite Hc; simpl. by rewrite <- app_assoc.
Qed.

(** A successful configuration stores the payload's credential and the
    strategy object, and marks the worker configured. *)
Lemma shard_config_success (w : World) rq (d : gmap string value) a b n ff path :
  is_config (self w) = false →
  d !! "prefix" = Some a →
  d !! "shard_id" = Some b →
  d !! "uow_name" = Some n →
  instantiate_class n = Some ff →
  (shard_config rq (mkEnv path (Some (VDict d))) w).1 = Returned tt ∧
  self (shard_config rq (mkEnv path (Some (VDict d))) w).2 =
    set_uow (Some (instantiate_uow ff n a))
      (set_shard_id b (set_prefix a (set_is_config true (self w)))).
Proof.
  intros Hc Ha Hb Hn Hff.
  unfold shard_config, get_response_context, bind, gets, getitem, ret; simpl.
  by rewrite Hc, Ha, Hb, Hn, Hff.
Qed.

(** ** C10 *)

(** C10. On a worker that was never configured (stored prefix and shard_id
    both [None]), [auth_request] returns [True] for a payload whose
    ["prefix"] and ["shard_id"] are both null, writing nothing; so each
    operation behind the check goes on past it: [shard_stop] stops the server,
    [ring_init] stores the ring and acknowledges, [queue_wait] goes to its
    wait and [queue_join] to its join. *)
Theorem auth_request_null_credentials_on_unconfigured
  (w : World) (d : gmap string value) (rq : nat) (path : string) :
  prefix (self w) = VNone →
  shard_id (self w) = VNone →
  d !! "prefix" = Some VNone →
  d !! "shard_id" = Some VNone →
  let env := mkEnv path (Some (VDict d)) in
  auth_request (VDict d) rq w = (Returned true, w) ∧
  server_stopped (self (shard_stop (VDict d) w).2) = true ∧
  ring_init rq env w =
    (let* r := getitem (VDict d) "ring" in
     modify (upd_self (set_ring r));;
     start_response rq "200 OK";;
     body_put rq (Str "Bokay\r\n");;
     body_put rq StopIteration;;
     log "info" "setting hash ring %s" [r]) w ∧
  queue_wait rq env w =
    match _task_event (self w) with
    | Some e => Event_wait e rq w
    | None => queue_wait_ack rq w
    end ∧
  queue_join rq env w =
    (start_response rq "200 OK";;
     body_put rq (Str "join queue...\r\n");;
     let* me := gets self in
     match _task_queue me with
     | None => raise AttributeError
     | Some q => JoinableQueue_join q rq
     end) w.
Proof.
  intros Hp Hs Ha Hb env.
  assert (Hauth : auth_request (VDict d) rq w = (Returned true, w)).
  { apply (auth_request_match w d VNone VNone); try done.
    - by rewrite Hp.
    - by rewrite Hs. }
  split; [done|]. split.
  { unfold shard_stop, bind, gets, getitem; simpl.
    by rewrite Ha, Hb, Hp, Hs. }
  split; [|split].
  - unfold ring_init, env, get_response_context; simpl.
    unfold bind at 1; simpl. unfold bind at 1. by rewrite Hauth.
  - unfold queue_wait, env, get_response_context; simpl.
    unfold bind at 1; simpl. unfold bind at 1. rewrite Hauth.
    unfold bind, gets; simpl. by destruct (_task_event (self w)).
  - unfold queue_join, env, get_response_context; simpl.
    unfold bind at 1; simpl. unfold bind at 1. by rewrite Hauth.
Qed.

(** ** C4 *)


(** ** C3 *)

(** C3. A worker (service.py) or executor (executor.py) that is already
    configured rejects a further [shard_config], whatever its payload: the
    worker answers 403 and the executor 404, and the stored prefix, shard_id
    and strategy object, like the rest of the state, stay as they were. *)
Theorem shard_config_of_configured_is_rejected
  (w : World) (p : Executor.Proc) (rq : nat) (env : Env) (payload : value) :
  is_config (self w) = true →
  Executor.is_config (Executor.self p) = true →
  (same_state w (shard_config rq env w).2 ∧
   (wsgi_input env = Some payload →
    (shard_config rq env w).1 = Returned tt ∧
    answered rq "403 Forbidden"
      [Str "Forbidden, shard is already in a configured state\r\n"; StopIteration]
      w (shard_config rq env w).2)) ∧
  ((Executor.shard_config payload p).1 = Returned tt ∧
   Executor.self (Executor.shard_config payload p).2 = Executor.self p ∧
   status (Executor.response (Executor.shard_config payload p).2)
     = Some "404 Not Found").
Proof.
  intros Hw Hp.
  destruct (shard_config_configured w rq env Hw) as [Hsame Hrej].
  split; [split; [done | by apply Hrej] |].
  by rewrite (Executor_shard_config_configured p payload Hp).
Qed.

(** Two configurations in a row, A then B, starting from an unconfigured
    worker: after B the worker holds what A stored. *)
Lemma shard_config_A_then_B
  (w : World) (rqA rqB : nat) (pathA : string) (dA : gmap string value)
  (a b n : value) (ff : Factory) (envB : Env) :
  is_config (self w) = false →
  dA !! "prefix" = Some a →
  dA !! "shard_id" = Some b →
  dA !! "uow_name" = Some n →
  instantiate_class n = Some ff →
  let w1 := (shard_config rqA (mkEnv pathA (Some (VDict dA))) w).2 in
  let w2 := (shard_config rqB envB w1).2 in
  self w2 = self w1 ∧
  prefix (self w2) = a ∧ shard_id (self w2) = b ∧
  _uow (self w2) = Some (instantiate_uow ff n a).
Proof.
  intros Hc Ha Hb Hn Hff w1 w2.
  destruct (shard_config_success w rqA dA a b n ff pathA Hc Ha Hb Hn Hff) as [_ Hself].
  fold w1 in Hself.
  assert (Hc1 : is_config (self w1) = true) by by rewrite Hself.
  destruct (shard_config_configured w1 rqB envB Hc1) as [(Hs & _) _].
  fold w2 in Hs. rewrite Hs, Hself. done.
Qed.

(** ** C1 *)

(** C1 as it is stated: a configuration attempt with a strategy name that
    cannot be resolved fails and leaves [is_config], the stored credential
    and the strategy object as they were. *)
Definition unknown_strategy_leaves_worker_untouched : Prop :=
  ∀ (w : World) (rq : nat) (path : string) (d : gmap string value) (a b n : value),
    is_config (self w) = false →
    d !! "prefix" = Some a →
    d !! "shard_id" = Some b →
    d !! "uow_name" = Some n →
    instantiate_class n = None →
    let r := shard_config rq (mkEnv path (Some (VDict d))) w in
    r.1 = Raised UnknownStrategy ∧
    is_config (self r.2) = is_config (self w) ∧
    prefix (self r.2) = prefix (self w) ∧
    shard_id (self r.2) = shard_id (self w) ∧
    _uow (self r.2) = _uow (self w).

(** C1, amended. A configuration attempt of an unconfigured worker with a
    strategy name that cannot be resolved fails with [UnknownStrategy]
    without an answer; the strategy object, the ring, the queue and the event
    are as before, but the worker is marked configured and holds the
    payload's prefix and shard_id. *)
Theorem shard_config_unknown_strategy
  (w : World) (rq : nat) (path : string) (d : gmap string value) (a b n : value) :
  is_config (self w) = false →
  d !! "prefix" = Some a →
  d !! "shard_id" = Some b →
  d !! "uow_name" = Some n →
  instantiate_class n = None →
  let r := shard_config rq (mkEnv path (Some (VDict d))) w in
  r.1 = Raised UnknownStrategy ∧
  self r.2 = set_shard_id b (set_prefix a (set_is_config true (self w))) ∧
  _uow (self r.2) = _uow (self w) ∧
  is_config (self r.2) = true ∧
  responses r.2 = responses w ∧
  queues r.2 = queues w ∧ events r.2 = events w ∧ greenlets r.2 = greenlets w.
Proof.
  intros Hc Ha Hb Hn Hff.
  unfold shard_config, get_response_context, bind, gets, getitem, ret; simpl.
  by rewrite Hc, Ha, Hb, Hn, Hff.
Qed.

End Lifecycle.

Lemma auth_request_null_credentials_on_unconfigured_witness :
  auth_request (strat := echo) (credential VNone VNone) 0 World_init
    = (Returned true, World_init) ∧
  server_stopped (self (shard_stop (strat := echo) (credential VNone VNone) World_init).2)
    = true.
Proof.
  pose proof (auth_request_null_credentials_on_unconfigured (strat := echo)
                World_init
                (<["prefix" := VNone]> (<["shard_id" := VNone]> ∅)) 0 "/queue/wait"
                eq_refl eq_refl eq_refl eq_refl) as (H1 & H2 & _).
  exact (conj H1 H2).
Defined.



(** A worker and an executor configured as ["shard/0"] of run ["p"]. *)
Definition configured_worker : Worker.World (strat := echo) :=
  (shard_config (strat := echo) 0
     (post "/shard/config" (config_payload (VStr "p") (VStr "shard/0") (VStr "echo")))
     (upd_responses (λ _, [mkResponse None []]) World_init)).2.

Definition configured_executor : Executor.Proc :=
  (Executor.shard_config (config_payload (VStr "p") (VStr "shard/0") (VStr "echo"))
     (Executor.mkProc Executor.__init__ (mkResponse None []) [])).2.

Lemma shard_config_of_configured_is_rejected_witness :
  prefix (self (shard_config (strat := echo) 1
                  (post "/shard/config"
                     (config_payload (VStr "q") (VStr "shard/9") (VStr "echo")))
                  configured_worker).2) = VStr "p" ∧
  Executor.prefix (Executor.self
     (Executor.shard_config
        (config_payload (VStr "q") (VStr "shard/9") (VStr "echo"))
        configured_executor).2) = VStr "p".
Proof.
  destruct (shard_config_of_configured_is_rejected (strat := echo)
              configured_worker configured_executor 1
              (post "/shard/config"
                 (config_payload (VStr "q") (VStr "shard/9") (VStr "echo")))
              (config_payload (VStr "q") (VStr "shard/9") (VStr "echo"))
              eq_refl eq_refl) as [[(Hs & _) _] (_ & He & _)].
  rewrite Hs, He. split; reflexivity.
Defined.

(** C1 does not hold as stated: on a fresh worker asked for the strategy
    ["nope"] the attempt raises, and the worker is left marked configured. *)
Lemma shard_config_unknown_strategy_half_configures :
  ¬ unknown_strategy_leaves_worker_untouched (strat := echo).
Proof.
  intros Hclaim.
  edestruct (Hclaim World_init 0 "/shard/config"
               (<["prefix" := VStr "p"]> (<["shard_id" := VStr "shard/0"]>
                  (<["uow_name" := VStr "nope"]> ∅)))
               (VStr "p") (VStr "shard/0") (VStr "nope")) as (_ & Hflag & _);
    [reflexivity..|].
  vm_compute in Hflag. discriminate Hflag.
Qed.

Lemma shard_config_unknown_strategy_witness :
  is_config (self (shard_config (strat := echo) 0
                     (post "/shard/config"
                        (config_payload (VStr "p") (VStr "shard/0") (VStr "nope")))
                     World_init).2) = true.
Proof.
  refine (proj1 (proj2 (proj2 (proj2
    (shard_config_unknown_strategy (strat := echo) World_init 0 "/shard/config"
       (<["prefix" := VStr "p"]> (<["shard_id" := VStr "shard/0"]>
          (<["uow_name" := VStr "nope"]> ∅)))
       (VStr "p") (VStr "shard/0") (VStr "nope") _ _ _ _ _))))); reflexivity.
Defined.

End WorkerLifecycle.

(** ** The barrier task queue of the worker *)

Module WorkerBarrier.
Import Worker.

(** The consumer greenlets, by where they are. *)
Definition consumer (gl : Greenlet) : nat :=
  match gl with
  | Ready G_consume_task_queue | Parked (At_get _) | Parked (At_perform_task _) => 1
  | _ => 0
  end.

(** Not yet at its first [get]. *)
Definition unstarted (gl : Greenlet) : nat :=
  match gl with
  | Ready G_consume_task_queue => 1
  | _ => 0
  end.

(** Between the [get] of a payload and the [task_done] for it. *)
Definition inflight (gl : Greenlet) : nat :=
  match gl with
  | Parked (At_perform_task _) => 1
  | _ => 0
  end.

(** Parked in [get] on the queue object [q]. *)
Definition getting (q : nat) (gl : Greenlet) : nat :=
  match gl with
  | Parked (At_get q') => if decide (q' = q) then 1 else 0
  | _ => 0
  end.

(** Draining the queue object [q], given that [q] is the current queue: a
    consumer that is not parked in [get] takes its next payload from
    [self._task_queue]. *)
Definition attached (q : nat) (gl : Greenlet) : nat :=
  unstarted gl + inflight gl + getting q gl.

Definition total (f : Greenlet → nat) (gs : list Greenlet) : nat :=
  sum_list_with f gs.

(** The payloads put into, and taken from, the queue object [q]. *)
Definition puts (q : nat) (tr : list Observation) : list value :=
  omap (λ o, match o with
             | E_put q' payload => if decide (q' = q) then Some payload else None
             | _ => None
             end) tr.

Definition taken (q : nat) (tr : list Observation) : list value :=
  omap (λ o, match o with
             | E_get _ q' payload => if decide (q' = q) then Some payload else None
             | _ => None
             end) tr.

(** The calls of [perform_task] that ended with an exception. *)
Definition failures (tr : list Observation) : nat :=
  sum_list_with (λ o, match o with E_return _ _ (Some _) => 1 | _ => 0 end) tr.

Lemma total_app f gs1 gs2 : total f (gs1 ++ gs2) = total f gs1 + total f gs2.
Proof. apply sum_list_with_app. Qed.

Lemma total_insert f gs g gl gl' :
  gs !! g = Some gl →
  total f (<[g := gl']> gs) + f gl = total f gs + f gl'.
Proof.
  revert g. induction gs as [|x gs IH]; intros [|g] Hg; simplify_eq/=.
  - unfold total; simpl. lia.
  - specialize (IH g Hg). unfold total in *; simpl. lia.
Qed.

Lemma total_zero f gs : (∀ gl, gl ∈ gs → f gl = 0) → total f gs = 0.
Proof.
  induction gs as [|x gs IH]; intros Hf; [done|].
  unfold total in *; simpl. rewrite Hf by by left. rewrite IH; [done|].
  intros gl Hin. apply Hf. by right.
Qed.

Lemma total_lookup_le f gs g gl : gs !! g = Some gl → f gl ≤ total f gs.
Proof.
  revert g. induction gs as [|x gs IH]; intros [|g] Hg; simplify_eq/=.
  - unfold total; simpl. lia.
  - specialize (IH g Hg). unfold total in *; simpl. lia.
Qed.

Lemma total_le f h gs : (∀ gl, f gl ≤ h gl) → total f gs ≤ total h gs.
Proof.
  intros Hfh. induction gs as [|x gs IH]; [done|].
  unfold total in *; simpl. specialize (Hfh x). lia.
Qed.

Lemma total_attached q gs :
  total (attached q) gs = total unstarted gs + total inflight gs + total (getting q) gs.
Proof.
  induction gs as [|x gs IH]; [done|].
  unfold total in *; simpl. unfold attached at 1. lia.
Qed.

Lemma puts_app q tr1 tr2 : puts q (tr1 ++ tr2) = puts q tr1 ++ puts q tr2.
Proof. apply omap_app. Qed.
Lemma taken_app q tr1 tr2 : taken q (tr1 ++ tr2) = taken q tr1 ++ taken q tr2.
Proof. apply omap_app. Qed.
Lemma failures_app tr1 tr2 : failures (tr1 ++ tr2) = failures tr1 + failures tr2.
Proof. apply sum_list_with_app. Qed.

(** How one step of a consumer that drains the queue object [q] changes
    that queue ([Q] to [Q']), the consumer ([gl] to [gl']) and the history
    (by [evs]). *)
Record effect (q : nat) (Q Q' : JoinableQueue) (gl gl' : Greenlet)
  (evs : list Observation) : Prop := {
  eff_account :
    unfinished_tasks Q' + length (items Q) + inflight gl
    = unfinished_tasks Q + length (items Q') + inflight gl';
  eff_attached : attached q gl' ≤ attached q gl;
  eff_alive : failures evs = 0 → attached q gl' = attached q gl;
  eff_unstarted : unstarted gl' = 0;
  eff_puts : ∀ q', puts q' evs = [];
  eff_taken : taken q evs ++ items Q' = items Q;
  eff_taken_ne : ∀ q', q' ≠ q → taken q' evs = [];
  eff_getting : ∀ q', q' ≠ q → getting q' gl' = 0
}.

(** The invariant of the barrier, on what it depends on: the current queue
    [c], the queue objects [qs], the greenlets [gs] and the history [tr]. *)
Record Inv_core (c : option nat) (qs : list JoinableQueue) (gs : list Greenlet)
  (tr : list Observation) : Prop := {
  cur_valid : ∀ q, c = Some q → q < length qs;
  get_valid : ∀ g q, gs !! g = Some (Parked (At_get q)) → q < length qs;
  account : ∀ q Q, c = Some q → qs !! q = Some Q →
    unfinished_tasks Q = length (items Q) + total inflight gs;
  single : ∀ q, c = Some q → total (attached q) gs ≤ 1;
  exactly : ∀ q, c = Some q → failures tr = 0 → total (attached q) gs = 1;
  old_drained : ∀ q Q, qs !! q = Some Q → c ≠ Some q →
    items Q = [] ∧ unfinished_tasks Q = 0;
  no_queue : c = None → total consumer gs = 0;
  fifo : ∀ q Q, qs !! q = Some Q → puts q tr = taken q tr ++ items Q;
  fresh : ∀ q, length qs ≤ q → puts q tr = [] ∧ taken q tr = []
}.

Lemma consumer_zero gl :
  consumer gl = 0 →
  unstarted gl = 0 ∧ inflight gl = 0 ∧ ∀ q, getting q gl = 0 ∧ attached q gl = 0.
Proof. unfold attached. destruct gl as [[]|[]|]; simpl; try done. Qed.

Lemma total_getting_fresh (qs : list JoinableQueue) gs q :
  (∀ g q', gs !! g = Some (Parked (At_get q')) → q' < length qs) →
  length qs ≤ q → total (getting q) gs = 0.
Proof.
  intros Hv Hq. apply total_zero. intros gl Hin.
  apply list_elem_of_lookup in Hin as [g Hg].
  destruct gl as [|[q'| | |]|]; simpl; try done.
  case_decide; [|done]. subst. apply Hv in Hg. lia.
Qed.

(** Greenlets that are not consumers come and go. *)
Lemma Inv_core_spawn c qs gs tr l :
  Inv_core c qs gs tr → (∀ gl, gl ∈ l → consumer gl = 0) → Inv_core c qs (gs ++ l) tr.
Proof.
  intros [cur_valid0 get_valid0 account0 single0 exactly0 old_drained0 no_queue0 fifo0 fresh0] Hl.
  assert (Hz : ∀ f, (∀ gl, consumer gl = 0 → f gl = 0) → total f (gs ++ l) = total f gs).
  { intros f Hf. rewrite total_app, (total_zero f l); [lia|]. intros; apply Hf; auto. }
  constructor; try done.
  - intros g q Hg. apply lookup_app_Some in Hg as [Hg|[_ Hg]]; [eauto|].
    apply list_elem_of_lookup_2, Hl in Hg. done.
  - intros q Q Hc HQ. rewrite Hz; [eauto|]. intros gl Hgl. by apply consumer_zero.
  - intros q Hc. rewrite Hz; [eauto|]. intros gl Hgl. by apply consumer_zero.
  - intros q Hc Hf. rewrite Hz; [eauto|]. intros gl Hgl. by apply consumer_zero.
  - intros Hc. rewrite Hz; [eauto|]. done.
Qed.

Lemma total_insert_same f gs g gl gl' :
  gs !! g = Some gl → f gl' = f gl → total f (<[g := gl']> gs) = total f gs.
Proof. intros Hg Hf. pose proof (total_insert f gs g gl gl' Hg). lia. Qed.

Lemma Inv_core_handler c qs gs tr g gl gl' :
  Inv_core c qs gs tr → gs !! g = Some gl → consumer gl = 0 → consumer gl' = 0 →
  Inv_core c qs (<[g := gl']> gs) tr.
Proof.
  intros [cur_valid0 get_valid0 account0 single0 exactly0 old_drained0 no_queue0 fifo0 fresh0] Hg Hgl Hgl'.
  assert (Hz : ∀ f, (∀ gl, consumer gl = 0 → f gl = 0) →
                    total f (<[g := gl']> gs) = total f gs).
  { intros f Hf. apply (total_insert_same f gs g gl gl' Hg). by rewrite !Hf. }
  constructor; try done.
  - intros g' q Hg'. destruct (decide (g = g')) as [->|Hne].
    + rewrite list_lookup_insert_eq in Hg' by by eapply lookup_lt_Some.
      by simplify_eq.
    + rewrite list_lookup_insert_ne in Hg' by done. eauto.
  - intros q Q Hc HQ. rewrite Hz; [eauto|]. intros ? ?. by apply consumer_zero.
  - intros q Hc. rewrite Hz; [eauto|]. intros ? ?. by apply consumer_zero.
  - intros q Hc Hf. rewrite Hz; [eauto|]. intros ? ?. by apply consumer_zero.
  - intros Hc. rewrite Hz; [eauto|]. done.
Qed.

(** [put_task_queue] on the current queue. *)
Lemma Inv_core_put q qs gs tr payload :
  Inv_core (Some q) qs gs tr →
  Inv_core (Some q) (alter (JoinableQueue_put payload) q qs) gs
           (tr ++ [E_put q payload]).
Proof.
  intros [cur_valid0 get_valid0 account0 single0 exactly0 old_drained0 no_queue0 fifo0 fresh0].
  constructor; try done.
  - intros ? ?. rewrite length_alter. eauto.
  - intros ? ? ?. rewrite length_alter. eauto.
  - intros q' Q' [= <-] HQ. rewrite list_lookup_alter_eq in HQ.
    destruct (qs !! q) as [Q|] eqn:E; simplify_eq/=.
    rewrite length_app; simpl. rewrite (account0 q Q); [lia|done|done].
  - intros q' Hc Hf. rewrite failures_app in Hf. apply exactly0; [done|lia].
  - intros q' Q' HQ Hne. rewrite list_lookup_alter_ne in HQ by congruence. eauto.
  - intros q' Q' HQ. rewrite puts_app, taken_app. simpl.
    destruct (decide (q = q')) as [->|Hne].
    + rewrite list_lookup_alter_eq in HQ.
      destruct (qs !! q') as [Q|] eqn:E; simplify_eq/=.
      rewrite (fifo0 q' Q E). by rewrite !app_nil_r, app_assoc.
    + rewrite list_lookup_alter_ne in HQ by done.
      rewrite !app_nil_r. eauto.
  - intros q' Hq'. rewrite length_alter in Hq'. rewrite puts_app, taken_app. simpl.
    assert (q < length qs) by eauto.
    rewrite decide_False by lia. destruct (fresh0 q' Hq') as [-> ->]. done.
Qed.

(** [prep_task_queue] when the previous queue is idle. *)
Lemma Inv_core_prep c qs gs tr :
  Inv_core c qs gs tr →
  (∀ q, c = Some q → total unstarted gs = 0 ∧ unfinished_tasks <$> qs !! q = Some 0) →
  Inv_core (Some (length qs)) (qs ++ [JoinableQueue_new])
           (gs ++ [Ready G_consume_task_queue]) tr.
Proof.
  intros [cur_valid0 get_valid0 account0 single0 exactly0 old_drained0 no_queue0 fifo0 fresh0] Hidle.
  assert (Hinfl : total inflight gs = 0).
  { destruct c as [q|].
    - destruct (Hidle q eq_refl) as [_ Hq].
      destruct (qs !! q) as [Q|] eqn:E; simplify_eq/=.
      pose proof (account0 q Q eq_refl E). lia.
    - pose proof (no_queue0 eq_refl).
      assert (total inflight gs ≤ total consumer gs).
      { apply total_le. by intros [[]|[]|]; simpl; lia. }
      lia. }
  assert (Huns : total unstarted gs = 0).
  { destruct c as [q|].
    - by destruct (Hidle q eq_refl).
    - pose proof (no_queue0 eq_refl).
      assert (total unstarted gs ≤ total consumer gs).
      { apply total_le. by intros [[]|[]|]; simpl; lia. }
      lia. }
  assert (Hget : total (getting (length qs)) gs = 0).
  { by apply (total_getting_fresh qs). }
  constructor.
  - intros q [= <-]. rewrite length_app; simpl. lia.
  - intros g q Hg. rewrite length_app; simpl.
    apply lookup_app_Some in Hg as [Hg|[_ Hg]].
    + apply get_valid0 in Hg. lia.
    + by destruct (g - length gs) as [|[|]].
  - intros q Q [= <-] HQ. rewrite lookup_app_r, Nat.sub_diag in HQ by done.
    simplify_eq/=. rewrite total_app, Hinfl. done.
  - intros q [= <-]. rewrite total_app, total_attached, Huns, Hinfl, Hget.
    unfold total; simpl. unfold attached; simpl. lia.
  - intros q [= <-] _. rewrite total_app, total_attached, Huns, Hinfl, Hget.
    unfold total; simpl. unfold attached; simpl. lia.
  - intros q Q HQ Hne.
    apply lookup_app_Some in HQ as [HQ|[Hge HQ]].
    + destruct (decide (c = Some q)) as [->|Hc]; [|eauto].
      destruct (Hidle q eq_refl) as [_ Hq]. rewrite HQ in Hq. simplify_eq/=.
      pose proof (account0 q Q eq_refl HQ) as Ha.
      split; [|lia]. apply length_zero_iff_nil. lia.
    + destruct (q - length qs) as [|[|]] eqn:E; simplify_eq/=.
      exfalso. apply Hne. f_equal. lia.
  - done.
  - intros q Q HQ. apply lookup_app_Some in HQ as [HQ|[Hge HQ]]; [eauto|].
    destruct (q - length qs) as [|[|]] eqn:E; simplify_eq/=.
    destruct (fresh0 q Hge) as [-> ->]. done.
  - intros q Hq. rewrite length_app in Hq; simpl in Hq. apply fresh0. lia.
Qed.

(** A step of a consumer that drains the current queue. *)
Lemma Inv_core_consumer q qs gs tr g gl gl' Q Q' evs :
  Inv_core (Some q) qs gs tr →
  qs !! q = Some Q → gs !! g = Some gl →
  effect q Q Q' gl gl' evs →
  Inv_core (Some q) (<[q := Q']> qs) (<[g := gl']> gs) (tr ++ evs).
Proof.
  intros [cur_valid0 get_valid0 account0 single0 exactly0 old_drained0 no_queue0 fifo0 fresh0] HQ Hg
    [eff_account0 eff_attached0 eff_alive0 eff_unstarted0 eff_puts0 eff_taken0
     eff_taken_ne0 eff_getting0].
  assert (Hlen : q < length qs) by by eapply lookup_lt_Some.
  pose proof (total_insert inflight gs g gl gl' Hg) as Hinfl.
  pose proof (total_insert (attached q) gs g gl gl' Hg) as Hatt.
  constructor.
  - intros ? [= <-]. by rewrite length_insert.
  - intros g' q' Hg'. rewrite length_insert.
    destruct (decide (g = g')) as [->|Hne].
    + rewrite list_lookup_insert_eq in Hg' by by eapply lookup_lt_Some.
      simplify_eq. destruct (decide (q' = q)) as [->|Hq']; [done|].
      specialize (eff_getting0 q' Hq'). simpl in eff_getting0.
      by rewrite decide_True in eff_getting0.
    + rewrite list_lookup_insert_ne in Hg' by done. eauto.
  - intros ? ? [= <-]. rewrite list_lookup_insert_eq by done. intros [= <-].
    pose proof (account0 q Q eq_refl HQ). lia.
  - intros ? [= <-]. pose proof (single0 q eq_refl). lia.
  - intros ? [= <-] Hf. rewrite failures_app in Hf.
    pose proof (exactly0 q eq_refl). pose proof (eff_alive0). lia.
  - intros q' Q'' HQ' Hne. rewrite list_lookup_insert_ne in HQ' by congruence. eauto.
  - done.
  - intros q' Q'' HQ'. rewrite puts_app, taken_app, eff_puts0, app_nil_r.
    destruct (decide (q = q')) as [<-|Hne].
    + rewrite list_lookup_insert_eq in HQ' by done. simplify_eq.
      rewrite (fifo0 q Q HQ), <- eff_taken0. by rewrite app_assoc.
    + rewrite list_lookup_insert_ne in HQ' by done.
      rewrite eff_taken_ne0, app_nil_r by done. eauto.
  - intros q' Hq'. rewrite length_insert in Hq'.
    rewrite puts_app, taken_app, eff_puts0, eff_taken_ne0 by lia.
    destruct (fresh0 q' Hq') as [-> ->]. done.
Qed.

Section Barrier.
Context {strat : Strategy}.

Ltac unfold_consumer :=
  unfold _consume_task_queue_resume, _consume_task_queue, JoinableQueue_get,
    call_perform_task, perform_task_returns, task_done, JoinableQueue_notify,
    try_finally, observe, bind, gets, modify, ret, raise, landed,
    upd_greenlets, upd_trace, upd_queues, upd_self, upd_notified, set_uow; simpl.

Ltac effect_tac q :=
  constructor; simpl; unfold attached; simpl;
  rewrite ?decide_True by done;
  try done; try lia;
  try (intros; repeat case_decide; simplify_eq; done).

(** A step of a consumer that drains the current queue. *)
Lemma switch_attached_consumer (w : World) (g q : nat) (gl : Greenlet) (Q : JoinableQueue) :
  _task_queue (self w) = Some q →
  queues w !! q = Some Q →
  greenlets w !! g = Some gl →
  attached q gl = 1 →
  length (items Q) + inflight gl ≤ unfinished_tasks Q →
  ∃ Q' gl' evs u ns',
    switch g w = mkWorld (set_uow u (self w)) (<[q := Q']> (queues w)) (events w)
                         (<[g := gl']> (greenlets w)) (responses w) (logging w)
                         (trace w ++ evs) ns' ∧
    effect q Q Q' gl gl' evs.
Proof.
  destruct w as [me qs evts gs rs lg tr ns]; destruct me as [c st pf sid rg te tq uow].
  destruct Q as [its n].
  simpl. intros -> Hq Hgl Hatt Hacc.
  assert (Hlen : q < length qs) by by eapply lookup_lt_Some.
  unfold switch; simpl; rewrite Hgl.
  destruct gl as [[]|[q'|payload| |]|]; try done; simpl in *.
  - (* not yet started: the first get *)
    unfold start. unfold_consumer. rewrite Hq.
    destruct its as [|payload rest]; simpl.
    + exists (mkQueue [] n), (Parked (At_get q)), [], uow, ns.
      unfold upd_greenlets; simpl. rewrite app_nil_r, (list_insert_id qs q) by done.
      split; [done|]. effect_tac q.
    + destruct uow as [u|]; simpl.
      * exists (mkQueue rest n), (Parked (At_perform_task payload)),
          [E_get g q payload], (Some u), ns.
        split; [done|]. effect_tac q.
      * rewrite list_lookup_insert_eq by done. simpl.
        destruct n as [|n]; [simpl in Hacc; lia|]. simpl.
        exists (mkQueue rest n), (Dead (Some AttributeError)),
          [E_get g q payload; E_return g payload (Some AttributeError); E_task_done g q],
          None.
        destruct (decide (n = 0)); simpl; eexists;
          rewrite ?list_insert_insert_eq, <- ?app_assoc;
          (split; [done|]); effect_tac q.
  - (* parked in get *)
    unfold attached in Hatt; simpl in Hatt. case_decide; [subst q'|done].
    unfold resume. unfold_consumer. rewrite Hq.
    destruct its as [|payload rest]; simpl.
    + exists (mkQueue [] n), (Parked (At_get q)), [], uow, ns.
      unfold upd_greenlets; simpl. rewrite app_nil_r, (list_insert_id qs q) by done.
      split; [done|]. effect_tac q.
    + destruct uow as [u|]; simpl.
      * exists (mkQueue rest n), (Parked (At_perform_task payload)),
          [E_get g q payload], (Some u), ns.
        split; [done|]. effect_tac q.
      * rewrite list_lookup_insert_eq by done. simpl.
        destruct n as [|n]; [simpl in Hacc; lia|]. simpl.
        exists (mkQueue rest n), (Dead (Some AttributeError)),
          [E_get g q payload; E_return g payload (Some AttributeError); E_task_done g q],
          None.
        destruct (decide (n = 0)); simpl; eexists;
          rewrite ?list_insert_insert_eq, <- ?app_assoc;
          (split; [done|]); effect_tac q.
  - (* inside perform_task *)
    destruct n as [|n]; [lia|].
    unfold resume. unfold_consumer.
    destruct uow as [u|]; simpl.
    + destruct (perform_task u payload) as [u' [e|]] eqn:Hperf; simpl.
      * rewrite Hq; simpl.
        exists (mkQueue its n), (Dead (Some e)),
          [E_return g payload (Some e); E_task_done g q], (Some u').
        destruct (decide (n = 0)); simpl; eexists;
          rewrite ?list_insert_insert_eq, <- ?app_assoc;
          (split; [done|]); effect_tac q.
      * rewrite Hq; simpl.
        destruct its as [|payload' rest]; simpl.
        -- exists (mkQueue [] n), (Parked (At_get q)),
             [E_return g payload None; E_task_done g q], (Some u').
           destruct (decide (n = 0)); simpl; rewrite list_lookup_insert_eq by done;
             simpl; eexists;
             rewrite ?list_insert_insert_eq, <- ?app_assoc;
             (split; [done|]); effect_tac q.
        -- exists (mkQueue rest n), (Parked (At_perform_task payload')),
             [E_return g payload None; E_task_done g q; E_get g q payload'], (Some u').
           destruct (decide (n = 0)); simpl; rewrite list_lookup_insert_eq by done;
             simpl; eexists;
             rewrite ?list_insert_insert_eq, <- ?app_assoc;
             (split; [done|]); effect_tac q.
    + rewrite Hq; simpl.
      exists (mkQueue its n), (Dead (Some AttributeError)),
        [E_return g payload (Some AttributeError); E_task_done g q], None.
      destruct (decide (n = 0)); simpl; eexists;
        rewrite ?list_insert_insert_eq, <- ?app_assoc;
        (split; [done|]); effect_tac q.
Qed.

Definition Inv (w : World) : Prop :=
  Inv_core (_task_queue (self w)) (queues w) (greenlets w) (trace w).

(** The previous queue is idle: nothing of it is unfinished, and its
    consumer has reached its [get]. *)
Definition quiescent (w : World) : bool :=
  match _task_queue (self w) with
  | None => true
  | Some q =>
      bool_decide (total unstarted (greenlets w) = 0) &&
      bool_decide (unfinished_tasks <$> queues w !! q = Some 0)
  end.

(** The discipline of the callers of [prep_task_queue]: it is called again
    only when the previous queue is idle. *)
Definition allowed (a : Action) (w : World) : bool :=
  match a with
  | Call_prep_task_queue => quiescent w
  | _ => true
  end.

Fixpoint disciplined (l : list Action) (w : World) : bool :=
  match l with
  | [] => true
  | a :: l' => allowed a w && disciplined l' (exec a w)
  end.

Ltac crunch :=
  unfold start, resume, shard_config, shard_stop, ring_init, queue_wait, queue_join,
    auth_request, get_response_context, queue_wait_ack, queue_join_done,
    Event_wait, JoinableQueue_join, JoinableQueue_join_resume, bokay, _response_handler,
    wrap_task_event_enter, wrap_task_event_exit, put_task_queue, prep_task_queue,
    start_response, body_put, log, observe, spawn, getitem,
    bind, gets, modify, ret, raise;
  simpl;
  repeat (case_match; simpl; simplify_eq; try done).

(** What the steps that are not a consumer's leave alone. *)
Definition frame (w w' : World) : Prop :=
  _task_queue (self w') = _task_queue (self w) ∧
  _task_event (self w') = _task_event (self w) ∧
  queues w' = queues w ∧ events w' = events w ∧ trace w' = trace w.

Lemma start_handler (g : nat) (t : Target) (w : World) :
  t ≠ G_consume_task_queue →
  frame w (start g t w).2 ∧
  greenlets (start g t w).2 = greenlets w ∧
  consumer (landed (start g t w).1) = 0.
Proof.
  intros Ht. unfold frame. destruct t; try done; clear Ht; crunch.
Qed.

Lemma resume_handler (g : nat) (s : Suspension) (w : World) :
  consumer (Parked s) = 0 →
  frame w (resume g s w).2 ∧
  greenlets (resume g s w).2 = greenlets w ∧
  consumer (landed (resume g s w).1) = 0.
Proof.
  intros Hs. unfold frame. destruct s; try done; clear Hs; crunch.
Qed.

(** A step of a greenlet that is not a consumer. *)
Lemma switch_handler (w : World) (g : nat) (gl : Greenlet) :
  greenlets w !! g = Some gl → consumer gl = 0 →
  ∃ gl', consumer gl' = 0 ∧ frame w (switch g w) ∧
         greenlets (switch g w) = <[g := gl']> (greenlets w).
Proof.
  intros Hg Hgl. unfold switch. rewrite Hg.
  destruct gl as [t|s|r].
  - destruct (start_handler g t w) as ((?&?&?&?&?) & Hgs & Hc).
    { by intros ->. }
    eexists; split; [exact Hc|]. split; [done|]. simpl. by rewrite Hgs.
  - destruct (resume_handler g s w Hgl) as ((?&?&?&?&?) & Hgs & Hc).
    eexists; split; [exact Hc|]. split; [done|]. simpl. by rewrite Hgs.
  - exists (Dead r). split; [done|]. split; [done|]. by rewrite list_insert_id.
Qed.

(** A request is served. *)
Lemma serve_frame (env : Env) (w : World) :
  frame w (exec (Serve env) w) ∧
  ∃ l, greenlets (exec (Serve env) w) = greenlets w ++ l ∧
       ∀ gl, gl ∈ l → consumer gl = 0.
Proof.
  unfold frame; simpl. destruct (server_stopped (self w)).
  - repeat split; try done. exists []. split; [by rewrite app_nil_r|].
    intros ? Hin. by apply elem_of_nil in Hin.
  - unfold _response_handler.
    destruct (match _uow (self w) with
              | Some u => handle_endpoints u (PATH_INFO env)
              | None => false
              end) eqn:Hh;
      unfold bind, gets, modify; simpl; rewrite Hh; simpl;
      repeat match goal with
             | |- context [bool_decide ?P] => destruct (bool_decide P)
             end;
      crunch; repeat split; try done;
      first [ exists []; split; [by rewrite app_nil_r|];
              intros ? Hin; by apply elem_of_nil in Hin
            | eexists [_]; split; [done|];
              intros ? Hin; apply list_elem_of_singleton in Hin; by subst ].
Qed.

(** A consumer parked on a queue that has been replaced stays there. *)
Lemma switch_stale_consumer (w : World) (g q : nat) :
  greenlets w !! g = Some (Parked (At_get q)) →
  items <$> queues w !! q = Some [] →
  switch g w = w.
Proof.
  intros Hg Hq. unfold switch. rewrite Hg. unfold resume, JoinableQueue_get, bind, gets, ret.
  simpl. destruct (queues w !! q) as [[its n]|]; simplify_eq/=.
  unfold upd_greenlets. rewrite list_insert_id by done. by destruct w.
Qed.

Lemma Inv_init : Inv World_init.
Proof.
  constructor; simpl; done.
Qed.

(** Every allowed step keeps the invariant. *)
Lemma Inv_exec (a : Action) (w : World) :
  Inv w → allowed a w = true → Inv (exec a w).
Proof.
  unfold Inv. intros HI Ha.
  destruct a as [env|g| |payload| |].
  - destruct (serve_frame env w) as ((-> & _ & -> & _ & ->) & l & -> & Hl).
    by apply Inv_core_spawn.
  - change (exec (Switch g) w) with (switch g w).
    destruct (greenlets w !! g) as [gl|] eqn:Hg;
      [|by unfold switch; rewrite Hg].
    destruct (decide (consumer gl = 0)) as [Hc|Hc].
    { destruct (switch_handler w g gl Hg Hc) as (gl' & Hc' & (-> & _ & -> & _ & ->) & ->).
      by eapply Inv_core_handler. }
    assert (Hc1 : consumer gl = 1) by (destruct gl as [[]|[]|]; simpl in *; done).
    destruct (_task_queue (self w)) as [q|] eqn:Hcur.
    + pose proof (cur_valid _ _ _ _ HI q eq_refl) as Hlen.
      destruct (lookup_lt_is_Some_2 _ _ Hlen) as [Q HQ].
      destruct (decide (attached q gl = 1)) as [Hatt|Hatt].
      * destruct (switch_attached_consumer w g q gl Q Hcur HQ Hg Hatt)
          as (Q' & gl' & evs & u & ns' & Hsw & Heff).
        { rewrite (account _ _ _ _ HI q Q eq_refl HQ).
          pose proof (total_lookup_le inflight _ _ _ Hg). lia. }
        rewrite Hsw; simpl. rewrite Hcur.
        by eapply Inv_core_consumer.
      * assert (∃ q', gl = Parked (At_get q') ∧ q' ≠ q) as (q' & -> & Hne).
        { destruct gl as [[]|[q'| | |]|]; unfold attached in Hatt; simpl in *; try done.
          exists q'. split; [done|]. intros ->. by rewrite decide_True in Hatt. }
        pose proof (get_valid _ _ _ _ HI g q' Hg) as Hlen'.
        destruct (lookup_lt_is_Some_2 _ _ Hlen') as [Q' HQ'].
        destruct (old_drained _ _ _ _ HI q' Q' HQ') as [Hits _]; [congruence|].
        rewrite (switch_stale_consumer w g q'), Hcur; [done|done|].
        by rewrite HQ'; simpl; rewrite Hits.
    + pose proof (no_queue _ _ _ _ HI eq_refl).
      pose proof (total_lookup_le consumer _ _ _ Hg). lia.
  - simpl in Ha. unfold quiescent in Ha.
    assert (Hidle : ∀ q, _task_queue (self w) = Some q →
              total unstarted (greenlets w) = 0 ∧
              unfinished_tasks <$> queues w !! q = Some 0).
    { intros q Hq. rewrite Hq in Ha. apply andb_true_iff in Ha as [H1 H2].
      by apply bool_decide_eq_true in H1, H2. }
    simpl. unfold prep_task_queue, spawn, bind, gets, modify; simpl.
    by apply (Inv_core_prep (_task_queue (self w))).
  - simpl. unfold put_task_queue, observe, bind, gets, modify, raise; simpl.
    destruct (_task_queue (self w)) as [q|] eqn:Hcur; simpl; rewrite Hcur; [|done].
    by apply Inv_core_put.
  - simpl. unfold wrap_task_event_enter, bind, gets, modify; simpl. done.
  - simpl. unfold wrap_task_event_exit, bind, gets, modify, raise; simpl.
    destruct (_task_event (self w)); simpl; done.
Qed.

Lemma run_cons (a : Action) (l : list Action) (w : World) :
  run (a :: l) w = run l (exec a w).
Proof. done. Qed.

Lemma run_app (l1 l2 : list Action) (w : World) :
  run (l1 ++ l2) w = run l2 (run l1 w).
Proof. apply foldl_app. Qed.

Lemma Inv_run (l : list Action) (w : World) :
  Inv w → disciplined l w = true → Inv (run l w).
Proof.
  revert w. induction l as [|a l IH]; intros w HI Hd; [done|].
  simpl in Hd. apply andb_true_iff in Hd as [Ha Hd].
  rewrite run_cons. apply IH; [by apply Inv_exec|done].
Qed.

(** *** What no step does: events are never cleared, greenlets never
    removed *)

Ltac crunch_all :=
  cbv beta iota zeta delta
    [start resume shard_config shard_stop ring_init queue_wait queue_join
     auth_request get_response_context queue_wait_ack queue_join_done
     Event_wait JoinableQueue_join JoinableQueue_join_resume
     _consume_task_queue_resume _consume_task_queue JoinableQueue_get
     call_perform_task perform_task_returns task_done JoinableQueue_notify try_finally
     start_response body_put log observe spawn getitem
     bind gets modify ret raise];
  simpl;
  repeat (case_match; simpl; simplify_eq; try done).

Lemma start_any (g : nat) (t : Target) (w : World) :
  events (start g t w).2 = events w ∧ greenlets (start g t w).2 = greenlets w.
Proof. destruct t; crunch_all. Qed.

Lemma resume_any (g : nat) (s : Suspension) (w : World) :
  events (resume g s w).2 = events w ∧ greenlets (resume g s w).2 = greenlets w.
Proof. destruct s; crunch_all. Qed.

Lemma switch_events (g : nat) (w : World) : events (switch g w) = events w.
Proof.
  unfold switch. destruct (greenlets w !! g) as [[t|s|r]|]; simpl; try done.
  - apply start_any.
  - apply resume_any.
Qed.

Lemma switch_other (g g' : nat) (w : World) :
  g ≠ g' → greenlets (switch g' w) !! g = greenlets w !! g.
Proof.
  intros Hne. unfold switch. destruct (greenlets w !! g') as [[t|s|r]|]; simpl; try done.
  - rewrite list_lookup_insert_ne by done. by rewrite (proj2 (start_any g' t w)).
  - rewrite list_lookup_insert_ne by done. by rewrite (proj2 (resume_any g' s w)).
Qed.

Lemma exec_events_mono (a : Action) (w : World) (e : nat) :
  events w !! e = Some true → events (exec a w) !! e = Some true.
Proof.
  intros He. destruct a as [env|g| |payload| |].
  - by destruct (serve_frame env w) as ((_ & _ & _ & -> & _) & _).
  - simpl. by rewrite switch_events.
  - done.
  - simpl. unfold put_task_queue, observe, bind, gets, modify, raise; simpl.
    by destruct (_task_queue (self w)).
  - simpl. apply lookup_app_l_Some. done.
  - simpl. unfold wrap_task_event_exit, bind, gets, modify, raise; simpl.
    destruct (_task_event (self w)) as [e'|]; simpl; [|done].
    destruct (decide (e' = e)) as [->|Hne].
    + rewrite list_lookup_insert_eq; [done|]. by eapply lookup_lt_Some.
    + by rewrite list_lookup_insert_ne.
Qed.

Lemma exec_greenlet_stays (a : Action) (w : World) (g : nat) (gl : Greenlet) :
  a ≠ Switch g → greenlets w !! g = Some gl → greenlets (exec a w) !! g = Some gl.
Proof.
  intros Ha Hg. destruct a as [env|g'| |payload| |].
  - destruct (serve_frame env w) as (_ & l & -> & _). by apply lookup_app_l_Some.
  - simpl. rewrite switch_other; [done|]. by intros ->.
  - simpl. by apply lookup_app_l_Some.
  - simpl. unfold put_task_queue, observe, bind, gets, modify, raise; simpl.
    by destruct (_task_queue (self w)).
  - done.
  - simpl. unfold wrap_task_event_exit, bind, gets, modify, raise; simpl.
    by destruct (_task_event (self w)).
Qed.

(** *** Whose response it is *)

(** The greenlet was created for the request [rq]: it holds that request's
    [start_response] and [body]. *)
Definition serves (rq : nat) (gl : Greenlet) : bool :=
  match gl with
  | Ready (G_shard_config rq' _) | Ready (G_queue_wait rq' _)
  | Ready (G_queue_join rq' _) | Ready (G_ring_init rq' _)
  | Parked (At_wait _ rq') | Parked (At_join _ rq') => bool_decide (rq' = rq)
  | _ => false
  end.

(** The request [rq] has been received, and no greenlet but [g] serves
    it. *)
Definition private (g rq : nat) (w : World) : Prop :=
  rq < length (responses w) ∧
  ∀ g' gl, g' ≠ g → greenlets w !! g' = Some gl → serves rq gl = false.

Lemma start_other (g' rq : nat) (t : Target) (w : World) :
  serves rq (Ready t) = false →
  responses (start g' t w).2 !! rq = responses w !! rq ∧
  serves rq (landed (start g' t w).1) = false.
Proof.
  destruct t; simpl; try (intros Hne%bool_decide_eq_false); try intros _.
  all: crunch_all.
  all: simpl; rewrite ?list_lookup_alter_ne by done.
  all: try (split; [done|]); try done.
  all: by apply bool_decide_eq_false.
Qed.

Lemma resume_other (g' rq : nat) (s : Suspension) (w : World) :
  serves rq (Parked s) = false →
  responses (resume g' s w).2 !! rq = responses w !! rq ∧
  serves rq (landed (resume g' s w).1) = false.
Proof.
  destruct s; simpl; try (intros Hne%bool_decide_eq_false); try intros _.
  all: crunch_all.
  all: simpl; rewrite ?list_lookup_alter_ne by done.
  all: try (split; [done|]); try done.
  all: by apply bool_decide_eq_false.
Qed.

(** What the steps of the others do to the response of a request that is
    [g]'s alone: nothing; and it stays [g]'s alone. *)
Lemma private_exec (a : Action) (w : World) (g rq : nat) :
  a ≠ Switch g → private g rq w →
  private g rq (exec a w) ∧ responses (exec a w) !! rq = responses w !! rq.
Proof.
  intros Ha [Hlen Hpriv]. destruct a as [env|g'| |payload| |].
  - simpl. destruct (server_stopped (self w)); [done|].
    assert (Hnew : ∀ t g' gl, g' ≠ g → serves rq (Ready t) = false →
              (greenlets w ++ [Ready t]) !! g' = Some gl → serves rq gl = false).
    { intros t g' gl Hne Ht Hg'. apply lookup_app_Some in Hg' as [Hg'|[_ Hg']]; [eauto|].
      destruct (g' - length (greenlets w)) as [|[|]]; by simplify_eq/=. }
    assert (Hrq : bool_decide (length (responses w) = rq) = false).
    { apply bool_decide_eq_false. lia. }
    unfold _response_handler, private.
    destruct (match _uow (self w) with
              | Some u => handle_endpoints u (PATH_INFO env)
              | None => false
              end) eqn:Hh;
      unfold bind, gets, modify; simpl; rewrite Hh; simpl;
      repeat match goal with
             | |- context [bool_decide ?P] => destruct (bool_decide P)
             end;
      crunch; simpl; rewrite ?list_lookup_alter_ne by lia;
      rewrite ?lookup_app_l by lia;
      (split; [|done]);
      (split; [rewrite ?length_alter, ?length_app; simpl; lia|]);
      first [ done | intros g' gl Hne; by apply Hnew ].
  - assert (Hne : g' ≠ g) by congruence.
    change (exec (Switch g') w) with (switch g' w). unfold switch, private.
    destruct (greenlets w !! g') as [[t|s|r]|] eqn:Hg'; try done; simpl.
    + destruct (start_other g' rq t w (Hpriv g' _ Hne Hg')) as [Hr Hs].
      rewrite (proj2 (start_any g' t w)).
      split; [|done]. split.
      * apply lookup_lt_is_Some. rewrite Hr. by apply lookup_lt_is_Some.
      * intros g'' gl Hne' Hg''. destruct (decide (g'' = g')) as [->|Hne''].
        -- rewrite list_lookup_insert_eq in Hg'' by by eapply lookup_lt_Some.
           by simplify_eq.
        -- rewrite list_lookup_insert_ne in Hg'' by done. eauto.
    + destruct (resume_other g' rq s w (Hpriv g' _ Hne Hg')) as [Hr Hs].
      rewrite (proj2 (resume_any g' s w)).
      split; [|done]. split.
      * apply lookup_lt_is_Some. rewrite Hr. by apply lookup_lt_is_Some.
      * intros g'' gl Hne' Hg''. destruct (decide (g'' = g')) as [->|Hne''].
        -- rewrite list_lookup_insert_eq in Hg'' by by eapply lookup_lt_Some.
           by simplify_eq.
        -- rewrite list_lookup_insert_ne in Hg'' by done. eauto.
  - simpl. unfold private, prep_task_queue, spawn, bind, gets, modify; simpl.
    split; [|done]. split; [done|].
    intros g' gl Hne Hg'. apply lookup_app_Some in Hg' as [Hg'|[_ Hg']]; [eauto|].
    destruct (g' - length (greenlets w)) as [|[|]]; by simplify_eq/=.
  - simpl. unfold put_task_queue, observe, bind, gets, modify, raise; simpl.
    by destruct (_task_queue (self w)).
  - done.
  - simpl. unfold wrap_task_event_exit, bind, gets, modify, raise; simpl.
    by destruct (_task_event (self w)).
Qed.


Lemma dead_stays (l : list Action) (w : World) (g : nat) (r : option exn) :
  greenlets w !! g = Some (Dead r) → greenlets (run l w) !! g = Some (Dead r).
Proof.
  revert w. induction l as [|a l IH]; intros w Hg; [done|].
  rewrite run_cons. apply IH.
  destruct a as [env|g'| |payload| |]; try (by apply exec_greenlet_stays).
  destruct (decide (g' = g)) as [->|Hne].
  - simpl. unfold switch. by rewrite Hg.
  - apply exec_greenlet_stays; [congruence|done].
Qed.

(** A turn of [g] that only touches the responses leaves the request its
    own. *)
Lemma private_turn (g rq : nat) (gl : Greenlet) (w w' : World) :
  private g rq w →
  greenlets w' = <[g := gl]> (greenlets w) →
  length (responses w') = length (responses w) →
  private g rq w'.
Proof.
  intros [Hlen Hpriv] Hgs Hrs. split; [by rewrite Hrs|].
  intros g' gl' Hne. rewrite Hgs, list_lookup_insert_ne by done. by apply Hpriv.
Qed.

(** As long as a greenlet is parked at a blocking call at which a switch
    either changes nothing or ends it, nothing is written to the response
    of a request that is its alone. *)
Lemma parked_response (g rq : nat) (s : Suspension) (l : list Action) :
  (∀ w, greenlets w !! g = Some (Parked s) →
        switch g w = w ∨ ∃ r, greenlets (switch g w) !! g = Some (Dead r)) →
  ∀ w, private g rq w →
       greenlets w !! g = Some (Parked s) →
       greenlets (run l w) !! g = Some (Parked s) →
       responses (run l w) !! rq = responses w !! rq.
Proof.
  intros Hsw. induction l as [|a l IH]; intros w Hp Hg Hend; [done|].
  rewrite run_cons in Hend |- *.
  assert (Hcase : a = Switch g ∨ a ≠ Switch g).
  { destruct a as [|g'| | | |]; try by right.
    destruct (decide (g' = g)) as [->|?]; [by left|right; congruence]. }
  destruct Hcase as [->|Ha].
  - change (exec (Switch g) w) with (switch g w) in *.
    destruct (Hsw w Hg) as [Heq|[r Hdead]].
    + rewrite Heq in *. by apply IH.
    + rewrite (dead_stays l _ g r Hdead) in Hend. done.
  - destruct (private_exec a w g rq Ha Hp) as [Hp' Hr].
    rewrite <- Hr. apply IH; [done| |done].
    by apply exec_greenlet_stays.
Qed.

(** *** queue_wait *)

(** The handler of a [queue_wait] request that found the event [e] in
    [self._task_event]: parked in [e.wait()], or finished with [e] set. *)
Definition waiting_or_set (g e rq : nat) (w : World) : Prop :=
  greenlets w !! g = Some (Parked (At_wait e rq)) ∨
  (greenlets w !! g = Some (Dead None) ∧ events w !! e = Some true).

(** What a switch to a handler parked in [e.wait()] does. *)
Lemma switch_waiter (w : World) (g e rq : nat) :
  greenlets w !! g = Some (Parked (At_wait e rq)) →
  (events w !! e = Some true →
   greenlets (switch g w) !! g = Some (Dead None) ∧
   events (switch g w) = events w ∧
   WorkerLifecycle.answered rq "200 OK" [Str "Bokay\r\n"; StopIteration] w (switch g w)) ∧
  (events w !! e ≠ Some true → switch g w = w).
Proof.
  intros Hg. assert (Hlen : g < length (greenlets w)) by by eapply lookup_lt_Some.
  unfold switch. rewrite Hg. unfold resume, Event_wait, bind, gets, ret; simpl. split.
  - intros ->. unfold queue_wait_ack, start_response, body_put, bind, modify, ret; simpl.
    rewrite list_lookup_insert_eq by done. split; [done|]. split; [done|].
    unfold WorkerLifecycle.answered; simpl. rewrite !list_alter_alter_eq.
    apply list_alter_ext; [|done]. intros; simpl. by rewrite <- app_assoc.
  - intros Hne. destruct (events w !! e) as [[|]|]; try done;
      unfold upd_greenlets; simpl; rewrite list_insert_id by done; by destruct w.
Qed.

Lemma waiting_or_set_exec (a : Action) (w : World) (g e rq : nat) :
  waiting_or_set g e rq w → waiting_or_set g e rq (exec a w).
Proof.
  intros Hw.
  assert (Hother : a ≠ Switch g → waiting_or_set g e rq (exec a w)).
  { intros Ha. destruct Hw as [Hg|[Hg He]]; [left|right; split];
      eauto using exec_greenlet_stays, exec_events_mono. }
  destruct a as [env|g'| |payload| |]; try (by apply Hother).
  destruct (decide (g' = g)) as [->|Hne]; [|apply Hother; congruence].
  change (exec (Switch g) w) with (switch g w).
  destruct Hw as [Hg|[Hg He]].
  - destruct (switch_waiter w g e rq Hg) as [Hset Hunset].
    destruct (decide (events w !! e = Some true)) as [He|He].
    + destruct (Hset He) as (Hd & Hev & _). right. by rewrite Hev.
    + rewrite (Hunset He). by left.
  - right. unfold switch. by rewrite Hg.
Qed.

Lemma waiting_or_set_run (l : list Action) (w : World) (g e rq : nat) :
  waiting_or_set g e rq w → waiting_or_set g e rq (run l w).
Proof.
  revert w. induction l as [|a l IH]; intros w Hw; [done|].
  rewrite run_cons. by apply IH, waiting_or_set_exec.
Qed.

(** The first run of a [queue_wait] handler with matching credentials. *)
Lemma switch_queue_wait (w : World) (g rq : nat) (path : string)
  (d : gmap string value) (a b : value) :
  greenlets w !! g = Some (Ready (G_queue_wait rq (mkEnv path (Some (VDict d))))) →
  d !! "prefix" = Some a →
  d !! "shard_id" = Some b →
  py_eq (prefix (self w)) a = true →
  py_eq (shard_id (self w)) b = true →
  switch g w =
    match _task_event (self w) with
    | Some e =>
        match events w !! e with
        | Some true => upd_greenlets <[g := Dead None]> (queue_wait_ack rq w).2
        | _ => upd_greenlets <[g := Parked (At_wait e rq)]> w
        end
    | None => upd_greenlets <[g := Dead None]> (queue_wait_ack rq w).2
    end.
Proof.
  intros Hg Ha Hb Ea Eb.
  assert (Hqw : queue_wait rq (mkEnv path (Some (VDict d))) w =
                match _task_event (self w) with
                | Some e => Event_wait e rq w
                | None => queue_wait_ack rq w
                end).
  { unfold queue_wait, get_response_context; simpl.
    unfold bind at 1; simpl. unfold bind at 1.
    rewrite (WorkerLifecycle.auth_request_match w d a b rq Ha Hb Ea Eb).
    unfold bind, gets; simpl. by destruct (_task_event (self w)). }
  unfold switch. rewrite Hg. cbn [start]. rewrite Hqw.
  destruct (_task_event (self w)) as [e|]; [|done].
  unfold Event_wait, bind, gets, ret; simpl.
  by destruct (events w !! e) as [[|]|].
Qed.

(** ** C5 *)

(** C5. A [queue_wait] handler with a matching credential that finds no
    event in [self._task_event] acknowledges in its first run.  When it
    finds an event that is not set, its first run parks it in that event's
    [wait()] and changes nothing else: nothing is written.  At every later
    point of the run it is either still parked there, or finished with the
    event set; while it is parked, a switch to it acknowledges when the
    event is set and changes nothing when it is not; and as long as it is
    parked, the response of its request, if no other greenlet serves that
    request, is what it was before the handler ran. *)
Theorem queue_wait_acknowledges_after_phase_end
  (w : World) (g rq : nat) (path : string) (d : gmap string value) (a b : value) :
  greenlets w !! g = Some (Ready (G_queue_wait rq (mkEnv path (Some (VDict d))))) →
  d !! "prefix" = Some a →
  d !! "shard_id" = Some b →
  py_eq (prefix (self w)) a = true →
  py_eq (shard_id (self w)) b = true →
  (_task_event (self w) = None →
   greenlets (switch g w) !! g = Some (Dead None) ∧
   WorkerLifecycle.answered rq "200 OK" [Str "Bokay\r\n"; StopIteration] w (switch g w)) ∧
  (∀ e, _task_event (self w) = Some e →
     (events w !! e ≠ Some true →
      switch g w = upd_greenlets <[g := Parked (At_wait e rq)]> w) ∧
     ∀ l, let w' := run l (switch g w) in
       waiting_or_set g e rq w' ∧
       (greenlets w' !! g = Some (Parked (At_wait e rq)) →
        (events w' !! e = Some true →
         greenlets (switch g w') !! g = Some (Dead None) ∧
         WorkerLifecycle.answered rq "200 OK" [Str "Bokay\r\n"; StopIteration]
           w' (switch g w')) ∧
        (events w' !! e ≠ Some true → switch g w' = w') ∧
        (private g rq w → responses w' !! rq = responses w !! rq))).
Proof.
  intros Hg Ha Hb Ea Eb.
  assert (Hlen : g < length (greenlets w)) by by eapply lookup_lt_Some.
  pose proof (switch_queue_wait w g rq path d a b Hg Ha Hb Ea Eb) as Hsw.
  split.
  - intros Hnone. rewrite Hnone in Hsw. rewrite Hsw.
    unfold queue_wait_ack, start_response, body_put, bind, modify, ret; simpl.
    rewrite list_lookup_insert_eq by done. split; [done|].
    unfold WorkerLifecycle.answered; simpl. rewrite !list_alter_alter_eq.
    apply list_alter_ext; [|done]. intros; simpl. by rewrite <- app_assoc.
  - intros e He. rewrite He in Hsw.
    assert (Hunset1 : events w !! e ≠ Some true →
              switch g w = upd_greenlets <[g := Parked (At_wait e rq)]> w).
    { intros Hev. rewrite Hsw. by destruct (events w !! e) as [[|]|]. }
    split; [done|]. intros l w'.
    assert (Hfirst : waiting_or_set g e rq (switch g w)).
    { rewrite Hsw. destruct (events w !! e) as [[|]|] eqn:Hev.
      - right. unfold queue_wait_ack, start_response, body_put, bind, modify, ret; simpl.
        by rewrite list_lookup_insert_eq.
      - left. simpl. by rewrite list_lookup_insert_eq.
      - left. simpl. by rewrite list_lookup_insert_eq. }
    split; [by apply waiting_or_set_run|].
    intros Hparked. destruct (switch_waiter w' g e rq Hparked) as [Hset Hunset].
    split; [intros Hev; by destruct (Hset Hev) as (? & _ & ?)|]. split; [done|].
    intros Hpriv.
    destruct (decide (events w !! e = Some true)) as [Hev|Hev].
    { exfalso. unfold w' in Hparked. rewrite Hsw, Hev in Hparked.
      rewrite (dead_stays l _ g None) in Hparked; [done|].
      unfold queue_wait_ack, start_response, body_put, bind, modify, ret; simpl.
      by rewrite list_lookup_insert_eq. }
    specialize (Hunset1 Hev).
    assert (Hresp : responses (switch g w) = responses w) by by rewrite Hunset1.
    rewrite <- Hresp.
    apply (parked_response g rq (At_wait e rq)); [| | |done].
    + intros w1 Hg1. destruct (switch_waiter w1 g e rq Hg1) as [Hs Hu].
      destruct (decide (events w1 !! e = Some true)) as [Hev1|Hev1].
      * right. exists None. by destruct (Hs Hev1).
      * left. by apply Hu.
    + apply (private_turn g rq (Parked (At_wait e rq)) w); [done| |by rewrite Hresp].
      by rewrite Hunset1.
    + rewrite Hunset1. simpl. by rewrite list_lookup_insert_eq.
Qed.

(** *** queue_join *)

Lemma elem_of_joiners (g q : nat) (gs : list Greenlet) :
  g ∈ joiners q gs ↔ ∃ rq, gs !! g = Some (Parked (At_join q rq)).
Proof.
  unfold joiners. rewrite elem_of_list_to_set, list_elem_of_omap. split.
  - intros ([g' gl] & Hin & Hf).
    apply elem_of_lookup_imap in Hin as (i & x & [= -> ->] & Hi). simpl in Hf.
    destruct x as [|[| | |q' rq]|]; try done. case_decide; simplify_eq. by exists rq.
  - intros [rq Hg]. exists (g, Parked (At_join q rq)). split.
    + apply elem_of_lookup_imap. by exists g, (Parked (At_join q rq)).
    + simpl. by rewrite decide_True.
Qed.

(** The count of unfinished payloads of the queue object [q]. *)
Definition count (q : nat) (w : World) : option nat :=
  unfinished_tasks <$> queues w !! q.

(** A step that leaves the greenlets, the current queue, the counts and the
    notifications alone ... *)
Definition quiet (w w' : World) : Prop :=
  greenlets w' = greenlets w ∧
  _task_queue (self w') = _task_queue (self w) ∧
  length (queues w') = length (queues w) ∧
  notified w' = notified w ∧
  ∀ q, count q w' = count q w.

(** ... and one in which [task_done] is called, once, on the current
    queue: its count goes down by one, and when it reaches zero the
    greenlets parked in its [join()] are notified. *)
Definition marked (w w' : World) : Prop :=
  greenlets w' = greenlets w ∧
  _task_queue (self w') = _task_queue (self w) ∧
  length (queues w') = length (queues w) ∧
  ∃ c n, _task_queue (self w) = Some c ∧
         count c w = Some (S n) ∧ count c w' = Some n ∧
         (∀ q, q ≠ c → count q w' = count q w) ∧
         notified w' = if decide (n = 0) then notified w ∪ joiners c (greenlets w)
                       else notified w.

Lemma quiet_refl (w : World) : quiet w w.
Proof. by repeat split. Qed.

Lemma quiet_trans (w w1 w2 : World) : quiet w w1 → quiet w1 w2 → quiet w w2.
Proof.
  intros (H1 & H2 & H3 & H4 & H5) (K1 & K2 & K3 & K4 & K5).
  repeat split; try congruence; intros q; by rewrite K5.
Qed.

Lemma quiet_marked (w w1 w2 : World) : quiet w w1 → marked w1 w2 → marked w w2.
Proof.
  intros (H1 & H2 & H3 & H4 & H5) (K1 & K2 & K3 & c & n & Kc & Kn & Kn' & Ko & Kns).
  split; [congruence|]. split; [congruence|]. split; [congruence|].
  exists c, n. split; [congruence|]. split; [by rewrite <- H5|]. split; [done|].
  split; [intros q Hq; rewrite <- H5; by apply Ko|].
  by rewrite Kns, H4, H1.
Qed.

Lemma marked_quiet (w w1 w2 : World) : marked w w1 → quiet w1 w2 → marked w w2.
Proof.
  intros (K1 & K2 & K3 & c & n & Kc & Kn & Kn' & Ko & Kns) (H1 & H2 & H3 & H4 & H5).
  split; [congruence|]. split; [congruence|]. split; [congruence|].
  exists c, n. split; [done|]. split; [done|]. split; [by rewrite H5|].
  split; [intros q Hq; rewrite H5; by apply Ko|].
  by rewrite H4, Kns.
Qed.

Lemma count_insert_items (w : World) (q q0 n : nat) (its its' : list value) :
  queues w !! q = Some (mkQueue its n) →
  unfinished_tasks <$> <[q := mkQueue its' n]> (queues w) !! q0 = count q0 w.
Proof.
  intros Hq. unfold count. destruct (decide (q0 = q)) as [->|Hne].
  - rewrite list_lookup_insert_eq by by eapply lookup_lt_Some. by rewrite Hq.
  - by rewrite list_lookup_insert_ne.
Qed.

Lemma task_done_step (g : nat) (w : World) :
  let r := task_done g w in
  self r.2 = self w ∧ (quiet w r.2 ∨ marked w r.2).
Proof.
  cbv zeta. unfold task_done, JoinableQueue_notify, observe, bind, gets, modify, ret, raise.
  simpl. destruct (_task_queue (self w)) as [c|] eqn:Hc; simpl;
    [|split; [done|left; apply quiet_refl]].
  destruct (queues w !! c) as [[its [|n]]|] eqn:HQ; simpl;
    try (split; [done|left; apply quiet_refl]).
  split; [by destruct (decide (n = 0))|]. right.
  assert (Hlen : c < length (queues w)) by by eapply lookup_lt_Some.
  assert (Hcount : ∀ w', queues w' = <[c := mkQueue its n]> (queues w) →
            count c w' = Some n ∧ ∀ q, q ≠ c → count q w' = count q w).
  { intros w' Hw'. unfold count. rewrite Hw'. split.
    - by rewrite list_lookup_insert_eq.
    - intros q Hq. by rewrite list_lookup_insert_ne. }
  destruct (decide (n = 0)) as [->|Hn]; simpl.
  - destruct (Hcount (upd_queues <[c := mkQueue its 0]> w) eq_refl) as [H1 H2].
    split; [done|]. split; [done|]. split; [simpl; by rewrite length_insert|].
    exists c, 0. unfold count at 1. rewrite HQ. by rewrite decide_True.
  - destruct (Hcount (upd_queues <[c := mkQueue its n]> w) eq_refl) as [H1 H2].
    split; [done|]. split; [done|]. split; [simpl; by rewrite length_insert|].
    exists c, n. unfold count at 1. rewrite HQ. by rewrite decide_False.
Qed.

Lemma call_perform_task_step (g : nat) (payload : value) (w : World) :
  let r := call_perform_task g payload w in
  (quiet w r.2 ∨ marked w r.2) ∧
  (is_Some (_uow (self w)) → quiet w r.2).
Proof.
  cbv zeta. unfold call_perform_task, bind, gets, ret. simpl.
  destruct (_uow (self w)) as [u|]; simpl.
  - split; [left|intros _]; apply quiet_refl.
  - split; [|by intros [? ?]].
    unfold try_finally, observe, bind, modify, raise. simpl.
    set (w1 := upd_trace _ w).
    assert (Hq : quiet w w1) by by repeat split.
    destruct (task_done_step g w1) as [_ Hstep].
    destruct (task_done g w1) as [[[]|e] w2]; simpl in *;
      (destruct Hstep as [H|H];
       [left; by eapply quiet_trans|right; by eapply quiet_marked]).
Qed.

Lemma JoinableQueue_get_step (g q : nat) (w : World) :
  let r := JoinableQueue_get g q w in
  (quiet w r.2 ∨ marked w r.2) ∧
  (is_Some (_uow (self w)) → quiet w r.2).
Proof.
  cbv zeta. unfold JoinableQueue_get, bind, gets, ret. simpl.
  destruct (queues w !! q) as [[[|payload rest] n]|] eqn:HQ; simpl;
    try (split; [left|intros _]; apply quiet_refl).
  unfold observe, modify. simpl.
  set (w1 := upd_trace _ (upd_queues _ w)).
  assert (Hq : quiet w w1).
  { repeat split; try done.
    - simpl. by rewrite length_insert.
    - intros q0. unfold count at 1. simpl. by eapply count_insert_items. }
  assert (Hu : _uow (self w1) = _uow (self w)) by done.
  destruct (call_perform_task_step g payload w1) as [Hstep Hsome].
  split.
  - destruct Hstep as [H|H];
      [left; by eapply quiet_trans|right; by eapply quiet_marked].
  - intros Hs. eapply quiet_trans; [done|]. apply Hsome. by rewrite Hu.
Qed.

Lemma _consume_task_queue_step (g : nat) (w : World) :
  let r := _consume_task_queue g w in
  (quiet w r.2 ∨ marked w r.2) ∧
  (is_Some (_uow (self w)) → quiet w r.2).
Proof.
  cbv zeta. unfold _consume_task_queue, bind, gets, raise. simpl.
  destruct (_task_queue (self w)) as [q|]; simpl.
  - apply JoinableQueue_get_step.
  - split; [left|intros _]; apply quiet_refl.
Qed.

Lemma perform_task_returns_quiet (g : nat) (payload : value) (w : World) :
  let r := perform_task_returns g payload w in
  quiet w r.2 ∧ (∀ x, r.1 = Returned x → is_Some (_uow (self r.2))).
Proof.
  cbv zeta. unfold perform_task_returns, observe, bind, gets, modify, ret, raise. simpl.
  destruct (_uow (self w)) as [u|]; simpl.
  - destruct (perform_task u payload) as [u' [e|]]; simpl;
      (split; [by repeat split|]); [done|by eexists].
  - split; [by repeat split|done].
Qed.

Lemma _consume_task_queue_resume_step (g : nat) (payload : value) (w : World) :
  let r := _consume_task_queue_resume g payload w in
  quiet w r.2 ∨ marked w r.2.
Proof.
  cbv zeta.
  assert (Heq : _consume_task_queue_resume g payload w =
    let (r1, w1) := perform_task_returns g payload w in
    match task_done g w1 with
    | (Returned _, w2) =>
        match r1 with
        | Returned _ => _consume_task_queue g w2
        | Raised e => (Raised e, w2)
        end
    | (Raised e, w2) => (Raised e, w2)
    end).
  { unfold _consume_task_queue_resume, try_finally, bind.
    destruct (perform_task_returns g payload w) as [r1 w1].
    by destruct (task_done g w1) as [[[]|e] w2], r1. }
  rewrite Heq. clear Heq.
  destruct (perform_task_returns_quiet g payload w) as [Hq Hsome].
  destruct (perform_task_returns g payload w) as [r1 w1]; simpl in *.
  destruct (task_done_step g w1) as [Hself Hstep].
  destruct (task_done g w1) as [[[]|e] w2]; simpl in *.
  - destruct r1 as [[]|e1]; simpl.
    + assert (Hu : is_Some (_uow (self w2))) by (rewrite Hself; by eapply Hsome).
      destruct (_consume_task_queue_step g w2) as [_ Hq2]. specialize (Hq2 Hu).
      destruct Hstep as [H|H].
      * left. exact (quiet_trans _ _ _ (quiet_trans _ _ _ Hq H) Hq2).
      * right. exact (marked_quiet _ _ _ (quiet_marked _ _ _ Hq H) Hq2).
    + destruct Hstep as [H|H];
        [left; by eapply quiet_trans|right; by eapply quiet_marked].
  - destruct Hstep as [H|H];
      [left; by eapply quiet_trans|right; by eapply quiet_marked].
Qed.

(** A step of a consumer. *)
Lemma switch_consumer_step (w : World) (g : nat) (gl : Greenlet) :
  greenlets w !! g = Some gl → consumer gl = 1 →
  ∃ w1 gl',
    switch g w = upd_greenlets <[g := gl']> w1 ∧
    (quiet w w1 ∨ marked w w1) ∧
    (∀ q rq, gl' ≠ Parked (At_join q rq)).
Proof.
  intros Hg Hc. unfold switch. rewrite Hg.
  destruct gl as [[]|[q|payload| |]|]; try done; simpl.
  - destruct (_consume_task_queue_step g w) as [Hstep _].
    exists (_consume_task_queue g w).2, (landed (_consume_task_queue g w).1).
    split; [done|]. split; [done|].
    intros q rq. unfold _consume_task_queue, JoinableQueue_get, call_perform_task,
      try_finally, bind, gets, ret, raise; simpl.
    repeat case_match; simpl; simplify_eq; done.
  - destruct (JoinableQueue_get_step g q w) as [Hstep _].
    exists (JoinableQueue_get g q w).2, (landed (JoinableQueue_get g q w).1).
    split; [done|]. split; [done|].
    intros q' rq. unfold JoinableQueue_get, call_perform_task,
      try_finally, bind, gets, ret, raise; simpl.
    repeat case_match; simpl; simplify_eq; done.
  - pose proof (_consume_task_queue_resume_step g payload w) as Hstep.
    exists (_consume_task_queue_resume g payload w).2,
      (landed (_consume_task_queue_resume g payload w).1).
    split; [done|]. split; [done|].
    intros q' rq. unfold _consume_task_queue_resume, _consume_task_queue,
      JoinableQueue_get, call_perform_task, try_finally, bind, gets, ret, raise; simpl.
    repeat case_match; simpl; simplify_eq; done.
Qed.


(** *** Who notifies *)

Lemma start_notified (g : nat) (t : Target) (w : World) :
  t ≠ G_consume_task_queue → notified (start g t w).2 = notified w.
Proof. intros Ht. destruct t; try done; clear Ht; crunch. Qed.

Lemma serve_spawns (env : Env) (w : World) :
  notified (exec (Serve env) w) = notified w ∧
  ∃ l, greenlets (exec (Serve env) w) = greenlets w ++ l ∧
       ∀ gl, gl ∈ l → ∃ t, gl = Ready t.
Proof.
  simpl. destruct (server_stopped (self w)).
  - split; [done|]. exists []. split; [by rewrite app_nil_r|].
    intros ? Hin. by apply elem_of_nil in Hin.
  - unfold _response_handler.
    destruct (match _uow (self w) with
              | Some u => handle_endpoints u (PATH_INFO env)
              | None => false
              end) eqn:Hh;
      unfold bind, gets, modify; simpl; rewrite Hh; simpl;
      repeat match goal with
             | |- context [bool_decide ?P] => destruct (bool_decide P)
             end;
      crunch; (split; [done|]);
      first [ exists []; split; [by rewrite app_nil_r|];
              intros ? Hin; by apply elem_of_nil in Hin
            | eexists [_]; split; [done|];
              intros ? Hin; apply list_elem_of_singleton in Hin; subst; by eexists ].
Qed.

(** A step of a greenlet that is not a consumer: it notifies nobody, and
    only a notified greenlet that leaves its [join()] is taken off. *)
Lemma switch_handler_notified (w : World) (g : nat) (gl : Greenlet) :
  greenlets w !! g = Some gl → consumer gl = 0 →
  notified (switch g w) = notified w ∨ notified (switch g w) = notified w ∖ {[g]}.
Proof.
  intros Hg Hc. unfold switch. rewrite Hg.
  destruct gl as [t|[q|payload|e rq|q rq]|r]; try done; simpl.
  - left. apply start_notified. by intros ->.
  - left. crunch.
  - unfold JoinableQueue_join_resume, queue_join_done, body_put, bind, gets, modify, ret.
    simpl. destruct (bool_decide (g ∈ notified w)); simpl; [by right|by left].
  - by left.
Qed.

(** How a greenlet comes to be parked in [join()]: it already was, and the
    switch changed nothing; or its [queue_join] has just called [join()] on
    the current queue, of which something is unfinished. *)
Lemma switch_parks_in_join (w : World) (g q rq : nat) (gl : Greenlet) :
  greenlets w !! g = Some gl →
  greenlets (switch g w) !! g = Some (Parked (At_join q rq)) →
  (gl = Parked (At_join q rq) ∧ (g ∉ notified w) ∧ switch g w = w) ∨
  (∃ env, gl = Ready (G_queue_join rq env) ∧
          _task_queue (self w) = Some q ∧ count q w ≠ Some 0 ∧
          notified (switch g w) = notified w ∧ queues (switch g w) = queues w ∧
          _task_queue (self (switch g w)) = _task_queue (self w)).
Proof.
  intros Hg. assert (Hlen : g < length (greenlets w)) by by eapply lookup_lt_Some.
  unfold switch. rewrite Hg.
  destruct gl as [t|s|r]; simpl.
  - rewrite list_lookup_insert_eq by by rewrite (proj2 (start_any g t w)).
    intros [= Hland]. right. revert Hland. unfold count.
    destruct t; crunch_all; intros; simplify_eq;
      exists env; (split; [done|]); (split; [done|]);
      (split; [match goal with H : _ <$> _ = _ |- _ => by rewrite H end|]); done.
  - rewrite list_lookup_insert_eq by by rewrite (proj2 (resume_any g s w)).
    intros [= Hland]. left. revert Hland.
    destruct s as [q0|payload|e rq0|q0 rq0].
    + crunch_all.
    + crunch_all.
    + crunch_all.
    + unfold resume, JoinableQueue_join_resume, queue_join_done, body_put,
        bind, gets, modify, ret. simpl.
      destruct (bool_decide (g ∈ notified w)) eqn:Hn; simpl; [done|].
      intros [= -> ->]. split; [done|]. split; [by apply bool_decide_eq_false in Hn|].
      unfold upd_greenlets. rewrite list_insert_id by done. by destruct w.
  - by rewrite Hg.
Qed.

(** *** Every parked [join()] is pending *)

(** The current queue exists; and a greenlet parked in [join()] on a queue
    object has been notified, or something of that queue is unfinished. *)
Definition pending (w : World) : Prop :=
  (∀ q, _task_queue (self w) = Some q → q < length (queues w)) ∧
  ∀ g q rq, greenlets w !! g = Some (Parked (At_join q rq)) →
    q < length (queues w) ∧ (g ∈ notified w ∨ count q w ≠ Some 0).

Lemma pending_init : pending World_init.
Proof. split; [done|]. intros g q rq Hg. done. Qed.

Lemma pending_exec (a : Action) (w : World) : pending w → pending (exec a w).
Proof.
  intros [Hcur Hpend].
  destruct a as [env|g'| |payload| |].
  - destruct (serve_frame env w) as ((Hq & _ & Hqs & _ & _) & _).
    destruct (serve_spawns env w) as (Hn & l & Hgs & Hl).
    split.
    + intros q. rewrite Hq, Hqs. apply Hcur.
    + intros g q rq. rewrite Hgs, Hn, Hqs. unfold count. rewrite Hqs.
      intros Hg. apply lookup_app_Some in Hg as [Hg|[_ Hg]]; [by apply (Hpend g q rq)|].
      apply list_elem_of_lookup_2, Hl in Hg as [t Ht]. done.
  - change (exec (Switch g') w) with (switch g' w).
    destruct (greenlets w !! g') as [gl|] eqn:Hg';
      [|by unfold switch; rewrite Hg'].
    destruct (decide (consumer gl = 0)) as [Hc|Hc].
    + destruct (switch_handler w g' gl Hg' Hc) as (gl' & _ & (Hq & _ & Hqs & _ & _) & Hgs).
      split; [intros q; rewrite Hq, Hqs; apply Hcur|].
      intros g q rq Hg. destruct (decide (g = g')) as [->|Hne].
      * destruct (switch_parks_in_join w g' q rq gl Hg' Hg)
          as [(-> & Hn & Hsw)|(env & -> & Hc' & Hcount & Hn & _ & _)].
        -- rewrite Hsw. by apply (Hpend g' q rq).
        -- rewrite Hqs. split; [by apply Hcur|]. right. unfold count. by rewrite Hqs.
      * rewrite Hgs, list_lookup_insert_ne in Hg by done.
        destruct (Hpend g q rq Hg) as [Hlen Hor].
        rewrite Hqs. split; [done|]. unfold count. rewrite Hqs.
        destruct Hor as [Hin|Hcount]; [left|by right].
        destruct (switch_handler_notified w g' gl Hg' Hc) as [->| ->]; [done|].
        apply elem_of_difference. split; [done|]. by apply not_elem_of_singleton.
    + assert (Hc1 : consumer gl = 1) by (destruct gl as [[]|[]|]; simpl in *; done).
      destruct (switch_consumer_step w g' gl Hg' Hc1) as (w1 & gl' & -> & Hstep & Hno).
      assert (Hframe : greenlets w1 = greenlets w ∧
                       _task_queue (self w1) = _task_queue (self w) ∧
                       length (queues w1) = length (queues w)).
      { destruct Hstep as [(?&?&?&_)|(?&?&?&_)]; done. }
      destruct Hframe as (Hgs & Hq & Hlen). unfold pending; simpl.
      split; [intros q; rewrite Hq, Hlen; apply Hcur|].
      intros g q rq Hg. rewrite Hgs in Hg.
      destruct (decide (g = g')) as [->|Hne].
      { rewrite list_lookup_insert_eq in Hg by by eapply lookup_lt_Some.
        simplify_eq. by destruct (Hno q rq). }
      rewrite list_lookup_insert_ne in Hg by done.
      destruct (Hpend g q rq Hg) as [Hlt Hor].
      rewrite Hlen. split; [done|].
      change (count q (upd_greenlets <[g' := gl']> w1)) with (count q w1).
      destruct Hstep as [(_ & _ & _ & Hn & Hcount)|(_ & _ & _ & c & n & Hc' & Hn0 & Hn1 & Ho & Hn)].
      * rewrite Hn, Hcount. done.
      * rewrite Hn. destruct Hor as [Hin|Hcount].
        { left. case_decide; [|done]. apply elem_of_union. by left. }
        destruct (decide (q = c)) as [->|Hqc].
        -- rewrite Hn1. destruct (decide (n = 0)) as [->|Hn'].
           ++ left. apply elem_of_union. right. apply elem_of_joiners. by exists rq.
           ++ right. congruence.
        -- right. by rewrite Ho.
  - simpl. unfold pending, prep_task_queue, spawn, bind, gets, modify; simpl. split.
    + intros q [= <-]. rewrite length_app; simpl. lia.
    + intros g q rq Hg. apply lookup_app_Some in Hg as [Hg|[_ Hg]].
      * destruct (Hpend g q rq Hg) as [Hlt Hor].
        split; [rewrite length_app; lia|].
        unfold count in *; simpl. by rewrite lookup_app_l.
      * by destruct (g - length (greenlets w)) as [|[|]].
  - simpl. unfold pending, put_task_queue, observe, bind, gets, modify, raise; simpl.
    destruct (_task_queue (self w)) as [c|] eqn:Hc; simpl;
      [|split; [by rewrite Hc|exact Hpend]].
    split; [intros q; rewrite length_alter, Hc; apply Hcur|].
    intros g q rq Hg. destruct (Hpend g q rq Hg) as [Hlt Hor].
    rewrite length_alter. split; [done|].
    destruct Hor as [Hin|Hcount]; [by left|right].
    unfold count in *; simpl.
    destruct (decide (q = c)) as [->|Hqc].
    + rewrite list_lookup_alter_eq. by destruct (queues w !! c).
    + by rewrite list_lookup_alter_ne.
  - simpl. unfold pending, wrap_task_event_enter, bind, gets, modify; simpl.
    split; [exact Hcur|exact Hpend].
  - simpl. unfold pending, wrap_task_event_exit, bind, gets, modify, raise; simpl.
    destruct (_task_event (self w)); simpl; (split; [exact Hcur|exact Hpend]).
Qed.

Lemma pending_run (l : list Action) (w : World) : pending w → pending (run l w).
Proof.
  revert w. induction l as [|a l IH]; intros w Hp; [done|].
  rewrite run_cons. by apply IH, pending_exec.
Qed.


(** *** The handler of [queue_join] *)

(** The step was a turn of the greenlet [g], which is now [gl]; the worker
    object, the queues, the events and the history are as before. *)
Definition turn (g : nat) (gl : Greenlet) (w w' : World) : Prop :=
  self w' = self w ∧ queues w' = queues w ∧ events w' = events w ∧
  trace w' = trace w ∧ greenlets w' = <[g := gl]> (greenlets w).

(** The worker with another phase event, or none. *)
Definition set_phase (te : option nat) (evs : list bool) (w : World) : World :=
  upd_events (λ _, evs) (upd_self (set_task_event te) w).

(** [queue_join] with a matching credential, up to its [join()]. *)
Lemma queue_join_call (w : World) (rq q : nat) (path : string)
  (d : gmap string value) (a b : value) :
  d !! "prefix" = Some a →
  d !! "shard_id" = Some b →
  py_eq (prefix (self w)) a = true →
  py_eq (shard_id (self w)) b = true →
  _task_queue (self w) = Some q →
  queue_join rq (mkEnv path (Some (VDict d))) w =
    (start_response rq "200 OK";;
     body_put rq (Str "join queue...\r\n");;
     JoinableQueue_join q rq) w.
Proof.
  intros Ha Hb Ea Eb Hcur.
  unfold queue_join, get_response_context; simpl.
  unfold bind at 1; simpl. unfold bind at 1.
  rewrite (WorkerLifecycle.auth_request_match w d a b rq Ha Hb Ea Eb).
  unfold bind, gets, start_response, body_put, modify; simpl. by rewrite Hcur.
Qed.

(** The call of [join()]: at once through when nothing is unfinished,
    parked otherwise. *)
Lemma switch_queue_join (w : World) (g q rq : nat) (path : string)
  (d : gmap string value) (a b : value) (Q : JoinableQueue) :
  greenlets w !! g = Some (Ready (G_queue_join rq (mkEnv path (Some (VDict d))))) →
  d !! "prefix" = Some a →
  d !! "shard_id" = Some b →
  py_eq (prefix (self w)) a = true →
  py_eq (shard_id (self w)) b = true →
  _task_queue (self w) = Some q →
  queues w !! q = Some Q →
  notified (switch g w) = notified w ∧
  (unfinished_tasks Q = 0 →
   turn g (Dead None) w (switch g w) ∧
   WorkerLifecycle.answered rq "200 OK"
     [Str "join queue...\r\n"; Str "done\r\n"; StopIteration] w (switch g w)) ∧
  (unfinished_tasks Q ≠ 0 →
   turn g (Parked (At_join q rq)) w (switch g w) ∧
   WorkerLifecycle.answered rq "200 OK" [Str "join queue...\r\n"] w (switch g w)).
Proof.
  intros Hg Ha Hb Ea Eb Hcur HQ.
  unfold switch. rewrite Hg. cbn [start].
  rewrite (queue_join_call w rq q path d a b Ha Hb Ea Eb Hcur).
  unfold JoinableQueue_join, queue_join_done, start_response, body_put,
    bind, gets, modify, ret; simpl.
  rewrite HQ; simpl. destruct Q as [its [|n]]; simpl.
  - split; [done|]. split; [|done]. intros _. split; [done|].
    unfold WorkerLifecycle.answered; simpl. rewrite !list_alter_alter_eq.
    apply list_alter_ext; [|done]. intros; simpl. by rewrite <- !app_assoc.
  - split; [done|]. split; [done|]. intros _. split; [done|].
    unfold WorkerLifecycle.answered; simpl. rewrite !list_alter_alter_eq.
    apply list_alter_ext; [|done]. intros; simpl. done.
Qed.

(** A switch to a greenlet parked in [join()]: nothing happens before it
    has been notified; once it has, it writes ["done"] and ends, whatever
    the queue holds by then. *)
Lemma switch_joiner (w : World) (g q rq : nat) :
  greenlets w !! g = Some (Parked (At_join q rq)) →
  ((g ∉ notified w) → switch g w = w) ∧
  (g ∈ notified w →
   turn g (Dead None) w (switch g w) ∧
   notified (switch g w) = notified w ∖ {[g]} ∧
   responses (switch g w) =
     alter (λ r, mkResponse (status r) (body r ++ [Str "done\r\n"; StopIteration]))
           rq (responses w)).
Proof.
  intros Hg. unfold switch. rewrite Hg.
  unfold resume, JoinableQueue_join_resume, queue_join_done, body_put,
    bind, gets, modify, ret; simpl.
  split; intros Hn.
  - rewrite bool_decide_eq_false_2 by done. simpl.
    unfold upd_greenlets. rewrite list_insert_id by done. by destruct w.
  - rewrite bool_decide_eq_true_2 by done. simpl. split; [done|]. split; [done|].
    rewrite list_alter_alter_eq. apply list_alter_ext; [|done].
    intros; simpl. by rewrite <- app_assoc.
Qed.

(** The handler once it has called [join()] on the queue object [q]:
    parked there, or finished. *)
Definition joined (g q rq : nat) (w : World) : Prop :=
  greenlets w !! g = Some (Parked (At_join q rq)) ∨
  greenlets w !! g = Some (Dead None).

Lemma joined_exec (a : Action) (w : World) (g q rq : nat) :
  joined g q rq w → joined g q rq (exec a w).
Proof.
  intros Hj.
  assert (Hother : a ≠ Switch g → joined g q rq (exec a w)).
  { intros Ha. destruct Hj as [Hg|Hg]; [left|right]; by apply exec_greenlet_stays. }
  destruct a as [env|g'| |payload| |]; try (by apply Hother).
  destruct (decide (g' = g)) as [->|Hne]; [|apply Hother; congruence].
  change (exec (Switch g) w) with (switch g w).
  destruct Hj as [Hg|Hg].
  - destruct (switch_joiner w g q rq Hg) as [Hno Hyes].
    destruct (decide (g ∈ notified w)) as [Hn|Hn].
    + destruct (Hyes Hn) as ((_ & _ & _ & _ & Hgs) & _). right. rewrite Hgs.
      apply list_lookup_insert_eq. by eapply lookup_lt_Some.
    + rewrite (Hno Hn). by left.
  - right. unfold switch. by rewrite Hg.
Qed.

Lemma joined_run (l : list Action) (w : World) (g q rq : nat) :
  joined g q rq w → joined g q rq (run l w).
Proof.
  revert w. induction l as [|a l IH]; intros w Hj; [done|].
  rewrite run_cons. by apply IH, joined_exec.
Qed.

(** The step that notifies a greenlet parked in [join()] on [q] is a
    consumer's [task_done] on [q], the current queue, that brings its count
    to zero. *)
Lemma exec_notifies (a : Action) (w : World) (g q rq : nat) :
  greenlets w !! g = Some (Parked (At_join q rq)) →
  (g ∉ notified w) →
  g ∈ notified (exec a w) →
  _task_queue (self (exec a w)) = Some q ∧ count q (exec a w) = Some 0.
Proof.
  intros Hg Hn Hn'. destruct a as [env|g'| |payload| |].
  - exfalso. by rewrite (proj1 (serve_spawns env w)) in Hn'.
  - change (exec (Switch g') w) with (switch g' w) in *.
    destruct (greenlets w !! g') as [gl|] eqn:Hg';
      [|exfalso; by unfold switch in Hn'; rewrite Hg' in Hn'].
    destruct (decide (consumer gl = 0)) as [Hc|Hc].
    + exfalso. destruct (switch_handler_notified w g' gl Hg' Hc) as [Heq|Heq];
        rewrite Heq in Hn'; [done|].
      apply elem_of_difference in Hn' as [? _]. done.
    + assert (Hc1 : consumer gl = 1) by (destruct gl as [[]|[]|]; simpl in *; done).
      destruct (switch_consumer_step w g' gl Hg' Hc1) as (w1 & gl' & Hsw & Hstep & _).
      rewrite Hsw in *. simpl in Hn'.
      change (count q (upd_greenlets <[g' := gl']> w1)) with (count q w1). simpl.
      destruct Hstep as [(_ & _ & _ & Heq & _)|(_ & Hq & _ & c & n & Hc' & _ & Hn1 & _ & Heq)].
      * exfalso. by rewrite Heq in Hn'.
      * rewrite Heq in Hn'. destruct (decide (n = 0)) as [->|Hn0]; [|done].
        apply elem_of_union in Hn' as [?|Hin]; [done|].
        apply elem_of_joiners in Hin as [rq' Hin]. rewrite Hg in Hin. simplify_eq.
        split; [congruence|done].
  - exfalso. done.
  - exfalso. simpl in Hn'. revert Hn'.
    unfold put_task_queue, observe, bind, gets, modify, raise; simpl.
    by destruct (_task_queue (self w)).
  - exfalso. done.
  - exfalso. simpl in Hn'. revert Hn'.
    unfold wrap_task_event_exit, bind, gets, modify, raise; simpl.
    by destruct (_task_event (self w)).
Qed.

(** The phase event plays no part in what the handler does. *)
Lemma switch_joiner_phase (w : World) (g q rq : nat) (te : option nat)
  (evs : list bool) :
  greenlets w !! g = Some (Parked (At_join q rq)) →
  switch g (set_phase te evs w) = set_phase te evs (switch g w).
Proof.
  intros Hg. unfold switch. simpl. rewrite Hg.
  unfold resume, JoinableQueue_join_resume, queue_join_done, body_put,
    bind, gets, modify, ret; simpl.
  by destruct (bool_decide (g ∈ notified w)).
Qed.

Lemma switch_queue_join_phase (w : World) (g q rq : nat) (path : string)
  (d : gmap string value) (a b : value) (te : option nat) (evs : list bool) :
  greenlets w !! g = Some (Ready (G_queue_join rq (mkEnv path (Some (VDict d))))) →
  d !! "prefix" = Some a →
  d !! "shard_id" = Some b →
  py_eq (prefix (self w)) a = true →
  py_eq (shard_id (self w)) b = true →
  _task_queue (self w) = Some q →
  switch g (set_phase te evs w) = set_phase te evs (switch g w).
Proof.
  intros Hg Ha Hb Ea Eb Hcur. unfold switch. simpl. rewrite Hg. cbn [start].
  rewrite (queue_join_call w rq q path d a b Ha Hb Ea Eb Hcur).
  rewrite (queue_join_call (set_phase te evs w) rq q path d a b Ha Hb Ea Eb Hcur).
  unfold JoinableQueue_join, queue_join_done, start_response, body_put,
    bind, gets, modify, ret; simpl.
  by destruct (unfinished_tasks <$> queues w !! q) as [[|n]|].
Qed.


(** ** C6 *)

(** C6 as it is stated, for the runs in which [prep_task_queue] is
    re-invoked only on an idle queue and no call of [perform_task] raised:
    when a switch makes a handler parked in [join()] write ["done"] and
    end, the current queue holds no payload and nothing of it is
    unfinished. *)
Definition done_only_when_drained : Prop :=
  ∀ (l : list Action) (g q0 rq : nat),
    disciplined l World_init = true →
    failures (trace (run l World_init)) = 0 →
    let w := run l World_init in
    greenlets w !! g = Some (Parked (At_join q0 rq)) →
    greenlets (switch g w) !! g = Some (Dead None) →
    ∀ q Q, _task_queue (self w) = Some q → queues w !! q = Some Q →
           items Q = [] ∧ unfinished_tasks Q = 0.

(** C6, amended. A [queue_join] handler with a matching credential, run at
    any point of any run, calls [join()] on the queue that is current then.
    If nothing of that queue is unfinished it writes ["done"] at once.
    Otherwise it parks, and in every continuation of the run (enqueues,
    requests, switches, calls of [prep_task_queue]) it is parked or
    finished; while it is parked and not notified, something of the queue
    it joined is unfinished and a switch to it changes nothing; as long as
    it is parked, nothing is added to the response of its request, if no
    other greenlet serves that request; the step
    that notifies it is a [task_done] that brings the count of that queue,
    still the current one, to zero, and when [prep_task_queue] has been
    re-invoked only on an idle queue the queue is then empty with no
    payload inside [perform_task]; once notified, its next switch writes
    ["done"] and ends it, whatever has been enqueued since.  None of its
    steps depends on the phase event. *)
Theorem queue_join_done_after_count_reached_zero
  (l : list Action) (g q rq : nat) (path : string) (d : gmap string value)
  (a b : value) :
  let w := run l World_init in
  greenlets w !! g = Some (Ready (G_queue_join rq (mkEnv path (Some (VDict d))))) →
  d !! "prefix" = Some a →
  d !! "shard_id" = Some b →
  py_eq (prefix (self w)) a = true →
  py_eq (shard_id (self w)) b = true →
  _task_queue (self w) = Some q →
  ∃ Q, queues w !! q = Some Q ∧
    (∀ te evs, switch g (set_phase te evs w) = set_phase te evs (switch g w)) ∧
    (unfinished_tasks Q = 0 →
     turn g (Dead None) w (switch g w) ∧
     WorkerLifecycle.answered rq "200 OK"
       [Str "join queue...\r\n"; Str "done\r\n"; StopIteration] w (switch g w)) ∧
    (unfinished_tasks Q ≠ 0 →
     turn g (Parked (At_join q rq)) w (switch g w) ∧
     WorkerLifecycle.answered rq "200 OK" [Str "join queue...\r\n"] w (switch g w) ∧
     ∀ l', let w' := run l' (switch g w) in
       joined g q rq w' ∧
       (greenlets w' !! g = Some (Parked (At_join q rq)) →
        (∀ te evs, switch g (set_phase te evs w') = set_phase te evs (switch g w')) ∧
        ((g ∉ notified w') → count q w' ≠ Some 0 ∧ switch g w' = w') ∧
        (g ∈ notified w' →
         turn g (Dead None) w' (switch g w') ∧
         responses (switch g w') =
           alter (λ r, mkResponse (status r)
                         (body r ++ [Str "done\r\n"; StopIteration]))
                 rq (responses w')) ∧
        (∀ a', (g ∉ notified w') → g ∈ notified (exec a' w') →
           _task_queue (self (exec a' w')) = Some q ∧
           count q (exec a' w') = Some 0 ∧
           (disciplined (l ++ Switch g :: l' ++ [a']) World_init = true →
            queues (exec a' w') !! q = Some (mkQueue [] 0) ∧
            total inflight (greenlets (exec a' w')) = 0)) ∧
        (private g rq w → responses w' !! rq = responses (switch g w) !! rq))).
Proof.
  intros w Hg Ha Hb Ea Eb Hcur.
  assert (Hp : pending w) by apply pending_run, pending_init.
  pose proof (proj1 Hp q Hcur) as Hlen.
  destruct (lookup_lt_is_Some_2 _ _ Hlen) as [Q HQ].
  destruct (switch_queue_join w g q rq path d a b Q Hg Ha Hb Ea Eb Hcur HQ)
    as (Hn & Hzero & Hbusy).
  exists Q. split; [done|]. split.
  { intros te evs. by eapply switch_queue_join_phase. }
  split; [done|]. intros Hne.
  destruct (Hbusy Hne) as [Hturn Hans]. split; [done|]. split; [done|].
  intros l' w'.
  assert (Hj : joined g q rq w').
  { apply joined_run. left. destruct Hturn as (_ & _ & _ & _ & ->).
    apply list_lookup_insert_eq. by eapply lookup_lt_Some. }
  split; [done|]. intros Hparked.
  assert (Hw' : w' = run (l ++ Switch g :: l') World_init).
  { unfold w', w. by rewrite run_app, run_cons. }
  assert (Hp' : pending w') by (rewrite Hw'; apply pending_run, pending_init).
  destruct (switch_joiner w' g q rq Hparked) as [Hno Hyes].
  split; [intros te evs; by eapply switch_joiner_phase|].
  split.
  { intros Hnn. split; [|by apply Hno].
    destruct (proj2 Hp' g q rq Hparked) as [_ [?|?]]; done. }
  split.
  { intros Hin. destruct (Hyes Hin) as (? & _ & ?). done. }
  split; [|intros Hpriv].
  2:{ apply (parked_response g rq (At_join q rq)); [| | |done].
      - intros w1 Hg1. destruct (switch_joiner w1 g q rq Hg1) as [Hno1 Hyes1].
        destruct (decide (g ∈ notified w1)) as [Hin|Hin]; [right|left; by apply Hno1].
        exists None. destruct (Hyes1 Hin) as ((_ & _ & _ & _ & ->) & _).
        apply list_lookup_insert_eq. by eapply lookup_lt_Some.
      - destruct Hturn as (_ & _ & _ & _ & Hgs).
        apply (private_turn g rq (Parked (At_join q rq)) w); [done|done|].
        rewrite Hans. by rewrite length_alter.
      - destruct Hturn as (_ & _ & _ & _ & ->).
        apply list_lookup_insert_eq. by eapply lookup_lt_Some. }
  intros a' Hnn Hin'.
  destruct (exec_notifies a' w' g q rq Hparked Hnn Hin') as [Hq' Hc'].
  split; [done|]. split; [done|]. intros Hd.
  assert (Hrun : exec a' w' = run (l ++ Switch g :: l' ++ [a']) World_init).
  { rewrite Hw'. rewrite !run_app, !run_cons, run_app. done. }
  assert (HI : Inv (exec a' w')).
  { rewrite Hrun. apply Inv_run; [apply Inv_init|done]. }
  unfold count in Hc'.
  destruct (queues (exec a' w') !! q) as [[its n]|] eqn:HQ'; simplify_eq/=.
  pose proof (account _ _ _ _ HI q _ Hq' HQ') as Hacc. simpl in Hacc.
  assert (its = []) as -> by (apply length_zero_iff_nil; lia).
  split; [done|lia].
Qed.

(** ** C2 *)

(** The single-consumer FIFO property of the current queue: one consumer
    drains it; the payloads handed to [perform_task], followed by those
    still queued, are the payloads put, in order; and a payload inside
    [perform_task] still counts as unfinished. *)
Definition single_consumer_fifo (w : World) : Prop :=
  ∀ q, _task_queue (self w) = Some q →
    ∃ Q, queues w !! q = Some Q ∧
         total (attached q) (greenlets w) = 1 ∧
         puts q (trace w) = taken q (trace w) ++ items Q ∧
         unfinished_tasks Q = length (items Q) + total inflight (greenlets w).

(** C2 as it is stated (for the runs in which no call of [perform_task]
    raised): the property holds at every point of every run, whenever
    [prep_task_queue] is invoked. *)
Definition single_consumer_fifo_always : Prop :=
  ∀ l, failures (trace (run l World_init)) = 0 →
       single_consumer_fifo (run l World_init).

(** C2, amended. In every run in which [prep_task_queue] is re-invoked only
    when the previous queue is idle (no payload of it unfinished, its
    consumer parked in [get]), and as long as no call of [perform_task] has
    raised, exactly one consumer drains the current queue, [perform_task]
    is called once per payload in arrival order, and a payload is counted
    as done only after its call returned. *)
Theorem single_consumer_fifo_when_prep_on_idle_queue (l : list Action) :
  disciplined l World_init = true →
  failures (trace (run l World_init)) = 0 →
  single_consumer_fifo (run l World_init).
Proof.
  intros Hd Hf q Hcur.
  assert (HI : Inv (run l World_init)) by (apply Inv_run; [apply Inv_init|done]).
  pose proof (cur_valid _ _ _ _ HI q Hcur) as Hlen.
  destruct (lookup_lt_is_Some_2 _ _ Hlen) as [Q HQ].
  exists Q. split; [done|]. split; [|split].
  - by apply (exactly _ _ _ _ HI q).
  - by apply (fifo _ _ _ _ HI q).
  - by apply (account _ _ _ _ HI q).
Qed.

(** *** A failing payload *)

(** When [perform_task] raises, [task_done] is still called: the count of
    the current queue goes down by one; and the exception ends the
    consumer. *)
Lemma task_done_even_when_perform_task_raises
  (w : World) (g q n : nat) (payload : value) (its : list value)
  (u u' : UnitOfWork) (e : exn) :
  greenlets w !! g = Some (Parked (At_perform_task payload)) →
  _task_queue (self w) = Some q →
  queues w !! q = Some (mkQueue its (S n)) →
  _uow (self w) = Some u →
  perform_task u payload = (u', Some e) →
  queues (switch g w) = <[q := mkQueue its n]> (queues w) ∧
  greenlets (switch g w) = <[g := Dead (Some e)]> (greenlets w).
Proof.
  intros Hg Hcur HQ Hu Hperf. unfold switch. rewrite Hg.
  unfold resume. unfold_consumer. rewrite Hu; simpl. rewrite Hperf; simpl.
  rewrite Hcur; simpl. rewrite HQ; simpl. by destruct (decide (n = 0)).
Qed.

End Barrier.

(** *** Runs of a worker with the [echo] strategy *)

Definition config_request : Env :=
  post "/shard/config" (config_payload (VStr "p") (VStr "shard/0") (VStr "echo")).

Definition with_credential (path : string) : Env :=
  post path (credential (VStr "p") (VStr "shard/0")).

(** The worker is configured, its queue prepared, and the consumer (greenlet
    1) parked in [get]. *)
Definition ready_to_consume : list Action :=
  [Serve config_request; Switch 0; Call_prep_task_queue; Switch 1].

(** A phase is open when the [queue_wait] request (greenlet 2) arrives. *)
Definition waiting_for_phase : World (strat := echo) :=
  run (ready_to_consume ++ [Enter_wrap_task_event; Serve (with_credential "/queue/wait")])
      World_init.

Lemma queue_wait_acknowledges_after_phase_end_witness :
  waiting_or_set 2 0 1
    (run [Call_put_task_queue (VStr "a"); Exit_wrap_task_event; Switch 2]
         (switch 2 waiting_for_phase)).
Proof.
  refine (proj1 (proj2 (proj2
    (queue_wait_acknowledges_after_phase_end (strat := echo) waiting_for_phase
       2 1 "/queue/wait"
       (<["prefix" := VStr "p"]> (<["shard_id" := VStr "shard/0"]> ∅))
       (VStr "p") (VStr "shard/0") _ _ _ _ _) 0 _)
       [Call_put_task_queue (VStr "a"); Exit_wrap_task_event; Switch 2]));
    vm_compute; reflexivity.
Defined.

(** In that world the request 1 is served by the handler alone. *)
Lemma waiting_for_phase_private : private 2 1 waiting_for_phase.
Proof.
  split; [vm_compute; lia|].
  intros g' gl Hne Hg'. destruct g' as [|[|[|g']]]; try done;
    vm_compute in Hg'; by simplify_eq.
Qed.

(** A payload is queued when the [queue_join] request (greenlet 2) arrives. *)
Definition joining_a_busy_queue : list Action :=
  ready_to_consume ++
  [Call_put_task_queue (VStr "a"); Serve (with_credential "/queue/join")].

Lemma queue_join_done_after_count_reached_zero_witness :
  joined 2 0 1
    (run [Switch 1; Switch 1; Call_put_task_queue (VStr "b")]
         (switch 2 (run (strat := echo) joining_a_busy_queue World_init))).
Proof.
  destruct (queue_join_done_after_count_reached_zero (strat := echo)
              joining_a_busy_queue 2 0 1 "/queue/join"
              (<["prefix" := VStr "p"]> (<["shard_id" := VStr "shard/0"]> ∅))
              (VStr "p") (VStr "shard/0"))
    as (Q & HQ & _ & _ & Hbusy); [vm_compute; reflexivity..|].
  assert (Hne : unfinished_tasks Q ≠ 0).
  { vm_compute in HQ. injection HQ as <-. discriminate. }
  destruct (Hbusy Hne) as (_ & _ & Hlater).
  exact (proj1 (Hlater [Switch 1; Switch 1; Call_put_task_queue (VStr "b")])).
Defined.

(** In that run too the request 1 is served by the handler alone. *)
Lemma joining_a_busy_queue_private :
  private 2 1 (run (strat := echo) joining_a_busy_queue World_init).
Proof.
  split; [vm_compute; lia|].
  intros g' gl Hne Hg'. destruct g' as [|[|[|g']]]; try done;
    vm_compute in Hg'; by simplify_eq.
Qed.

(** The handler parks; the consumer performs ["a"], which brings the count
    to zero and notifies the handler; then ["b"] is enqueued, before the
    handler has had its turn. *)
Definition put_after_the_drain : list Action :=
  joining_a_busy_queue ++
  [Switch 2; Switch 1; Switch 1; Call_put_task_queue (VStr "b")].

(** C6 does not hold as stated: after the run [put_after_the_drain] the
    switch to the handler writes ["done"] while ["b"] is in the queue. *)
Lemma put_after_the_drain_breaks_done_only_when_drained :
  ¬ done_only_when_drained (strat := echo).
Proof.
  intros Hclaim.
  edestruct (Hclaim put_after_the_drain 2 0 1) as [Hitems _];
    [vm_compute; reflexivity..|].
  vm_compute in Hitems. discriminate Hitems.
Qed.

Lemma single_consumer_fifo_when_prep_on_idle_queue_witness :
  single_consumer_fifo (strat := echo)
    (run (ready_to_consume ++
          [Call_put_task_queue (VStr "a"); Call_put_task_queue (VStr "b");
           Switch 1; Switch 1; Switch 1; Call_prep_task_queue; Switch 3])
         World_init).
Proof.
  apply (single_consumer_fifo_when_prep_on_idle_queue (strat := echo)); vm_compute; reflexivity.
Defined.

(** [prep_task_queue] is called again while the payload ["a"] of the first
    queue is still unprocessed, and ["b"] is put into the new queue.  The
    first consumer then performs ["a"], marks the {e new} queue done, and
    takes ["b"] from it: two consumers are on the new queue, whose count is
    zero while ["b"] is inside [perform_task]. *)
Definition prep_while_in_flight : list Action :=
  ready_to_consume ++
  [Call_put_task_queue (VStr "a"); Call_prep_task_queue;
   Call_put_task_queue (VStr "b"); Switch 1; Switch 1].

(** C2 does not hold as stated: after the run [prep_while_in_flight], in
    which no call of [perform_task] raised, two consumers are attached to
    the current queue. *)
Lemma prep_while_in_flight_breaks_single_consumer :
  ¬ single_consumer_fifo_always (strat := echo).
Proof.
  intros Hclaim.
  edestruct (Hclaim prep_while_in_flight) as (Q & HQ & Hatt & _);
    [vm_compute; reflexivity | vm_compute; reflexivity |].
  vm_compute in Hatt. discriminate Hatt.
Qed.

(** ** C7 *)

(** The payloads ["bad"] and ["good"] are queued and a [queue_join] handler
    (greenlet 2) is parked in [join()]; the consumer takes ["bad"]. *)
Definition failing_payload : list Action :=
  ready_to_consume ++
  [Call_put_task_queue (VStr "bad"); Call_put_task_queue (VStr "good");
   Serve (with_credential "/queue/join"); Switch 2; Switch 1; Switch 1].

(** A world in which no greenlet can move stays as it is, whatever is
    scheduled. *)
Lemma run_stuck {strat : Strategy} (w : World) :
  (∀ g, exec (Switch g) w = w) → ∀ gs : list nat, run (Switch <$> gs) w = w.
Proof.
  intros Hstuck gs. induction gs as [|g gs IH]; [done|].
  rewrite fmap_cons, run_cons, Hstuck. exact IH.
Qed.

Definition after_failing_payload : World (strat := echo) :=
  run failing_payload World_init.

Lemma after_failing_payload_stuck (g : nat) :
  exec (Switch g) after_failing_payload = after_failing_payload.
Proof. destruct g as [|[|[|g]]]; vm_compute; reflexivity. Qed.

(** C7, on the code. [perform_task] raises on ["bad"]: [task_done] is called
    for it (the count goes from 2 to 1), but the exception ends the
    consumer, ["good"] stays in the queue, and whatever is scheduled from
    then on the handler of [queue_join] stays parked without writing
    ["done"]. *)
Theorem queue_join_hangs_after_failing_payload :
  let w := after_failing_payload in
  trace w = [E_put 0 (VStr "bad"); E_put 0 (VStr "good"); E_get 1 0 (VStr "bad");
             E_return 1 (VStr "bad") (Some (TaskError "bad")); E_task_done 1 0] ∧
  queues w = [mkQueue [VStr "good"] 1] ∧
  greenlets w = [Dead None; Dead (Some (TaskError "bad")); Parked (At_join 0 1)] ∧
  body <$> responses w !! 1 = Some [Str "join queue...\r\n"] ∧
  ∀ gs : list nat, run (Switch <$> gs) w = w.
Proof.
  intros w.
  do 4 (split; [vm_compute; reflexivity|]).
  apply run_stuck, after_failing_payload_stuck.
Qed.

End WorkerBarrier.

(** ** The shard registry of the coordinator *)

Module FrameworkRegistry.
Import Framework.

(** The number a string of decimal digits stands for. *)
Definition digit (c : ascii) : N := (N_of_ascii c - 48)%N.

Fixpoint decimal (s : string) : N :=
  match s with
  | EmptyString => 0
  | String c s' => digit c * 10 ^ N.of_nat (String.length s') + decimal s'
  end%N.

Lemma digit_pretty_N_char (d : N) : (d < 10)%N → digit (pretty_N_char d) = d.
Proof.
  intros Hd.
  destruct d as [|p]; [done|].
  do 4 (destruct p as [p|p|]; try done; try lia).
Qed.

Lemma decimal_pretty_N_go (x : N) (s : string) :
  decimal (pretty_N_go x s) = (x * 10 ^ N.of_nat (String.length s) + decimal s)%N.
Proof.
  revert s. induction (N.lt_wf_0 x) as [x _ IH]; intros s.
  destruct (decide (x = 0)%N) as [->|Hx].
  - by rewrite pretty_N_go_0.
  - rewrite pretty_N_go_step by lia.
    rewrite IH by (apply N.div_lt; lia). simpl.
    rewrite digit_pretty_N_char by (apply N.mod_lt; lia).
    rewrite Nat2N.inj_succ, N.pow_succ_r'.
    rewrite (N.div_mod x 10) at 3 by lia. lia.
Qed.

Lemma decimal_str (i : nat) : decimal (str i) = N.of_nat i.
Proof.
  unfold str, pretty, pretty_nat, pretty, pretty_N.
  case_decide as Hi.
  - by rewrite Hi.
  - rewrite decimal_pretty_N_go. simpl. lia.
Qed.

Lemma zeros_S (k : nat) : zeros (S k) = String "0" (zeros k).
Proof. unfold zeros. destruct k; done. Qed.

Lemma length_zeros (k : nat) : String.length (zeros k) = k.
Proof. induction k as [|k IH]; [done|]. rewrite zeros_S. simpl. by rewrite IH. Qed.

Lemma decimal_zeros_app (k : nat) (s : string) : decimal (zeros k +:+ s) = decimal s.
Proof. induction k as [|k IH]; [done|]. rewrite zeros_S. simpl. by rewrite IH. Qed.

Lemma length_pretty_N_go_ge (x : N) (s : string) :
  (String.length s ≤ String.length (pretty_N_go x s))%nat.
Proof.
  revert s. induction (N.lt_wf_0 x) as [x _ IH]; intros s.
  destruct (decide (x = 0)%N) as [->|Hx].
  - by rewrite pretty_N_go_0.
  - rewrite pretty_N_go_step by lia.
    etrans; [|apply IH, N.div_lt; lia]. simpl. lia.
Qed.

Lemma length_pretty_N_go_mono (x y : N) (s t : string) :
  (x ≤ y)%N → (String.length s ≤ String.length t)%nat →
  (String.length (pretty_N_go x s) ≤ String.length (pretty_N_go y t))%nat.
Proof.
  revert x s t. induction (N.lt_wf_0 y) as [y _ IH]; intros x s t Hxy Hst.
  destruct (decide (x = 0)%N) as [->|Hx].
  - rewrite pretty_N_go_0. etrans; [done|]. apply length_pretty_N_go_ge.
  - rewrite (pretty_N_go_step x), (pretty_N_go_step y) by lia.
    apply IH.
    + apply N.div_lt; lia.
    + apply N.Div0.div_le_mono; lia.
    + simpl. lia.
Qed.

(** The decimal width grows with the number. *)
Lemma length_str_mono (i n : nat) :
  (i ≤ n)%nat → (String.length (str i) ≤ String.length (str n))%nat.
Proof.
  intros Hin. unfold str, pretty, pretty_nat, pretty, pretty_N.
  repeat case_decide; try lia.
  - rewrite pretty_N_go_step by lia. etrans; [|apply length_pretty_N_go_ge]. done.
  - apply length_pretty_N_go_mono; lia.
Qed.

Lemma length_append (s t : string) :
  String.length (s +:+ t) = (String.length s + String.length t)%nat.
Proof. induction s as [|c s IH]; simpl; [done|]. by rewrite IH. Qed.

(** The identity of shard [i] among [n]: the index with leading zeros, as
    wide as [n]. *)
Lemma _gen_shard_id_padded (i n : nat) :
  (i ≤ n)%nat →
  ∃ k, _gen_shard_id i n = "shard/" +:+ zeros k +:+ str i ∧
       String.length (zeros k +:+ str i) = String.length (str n).
Proof.
  intros Hin. eexists; split; [reflexivity|].
  rewrite length_append, length_zeros.
  pose proof (length_str_mono i n Hin). lia.
Qed.

Lemma _gen_shard_id_inj (i j n m : nat) :
  _gen_shard_id i n = _gen_shard_id j m → i = j.
Proof.
  unfold _gen_shard_id. intros Heq. simpl in Heq.
  simplify_eq.
  apply (f_equal decimal) in Heq.
  rewrite !decimal_zeros_app, !decimal_str in Heq. lia.
Qed.

(** What [set_worker_list] pairs the identity of shard [i] with. *)
Definition entry (exe_info : option (list WorkerInfo)) (i : nat) (uri : string)
  : string * option WorkerInfo :=
  (uri, if not_ exe_info then None else default [] exe_info !! i).

(** The loop of [set_worker_list] from index [s] on, [k] rounds. *)
Lemma set_worker_list_loop (worker_list : list string)
  (exe_info : option (list WorkerInfo)) (k : nat) :
  ∀ (s : nat) (me : Framework) (d : gmap string (string * option WorkerInfo)),
  let n := length worker_list in
  (s + k = n)%nat →
  (not_ exe_info = false → (n ≤ length (default [] exe_info))%nat) →
  _shard_assoc me = Some d →
  (∀ i, (s ≤ i)%nat → d !! _gen_shard_id i n = None) →
  ∃ d',
    for_each (seq s k) tt (λ _ i,
      let shard_id := _gen_shard_id i n in
      if not_ exe_info then
        let* uri := index worker_list i in
        shard_assoc_setitem shard_id (uri, None)
      else
        let* uri := index worker_list i in
        let* info := index (default [] exe_info) i in
        shard_assoc_setitem shard_id (uri, Some info)) me
    = (Returned tt, set_shard_assoc (Some d') me) ∧
    size d' = (size d + k)%nat ∧
    (∀ i uri, (s ≤ i)%nat → worker_list !! i = Some uri →
       d' !! _gen_shard_id i n = Some (entry exe_info i uri)) ∧
    (∀ i, (i < s)%nat → d' !! _gen_shard_id i n = d !! _gen_shard_id i n).
Proof.
  induction k as [|k IH]; intros s me d n Hsk Hinfo Hd Hfresh.
  - exists d. simpl. unfold ret. repeat split.
    + destruct me; simpl in *; by subst.
    + lia.
    + intros i uri Hi Hu. apply lookup_lt_Some in Hu. fold n in Hu. lia.
  - destruct (lookup_lt_is_Some_2 worker_list s) as [uri Huri]; [fold n; lia|].
    set (e := entry exe_info s uri).
    set (me1 := set_shard_assoc (Some (<[_gen_shard_id s n := e]> d)) me).
    destruct (IH (S s) me1 (<[_gen_shard_id s n := e]> d)) as (d' & Hrun & Hsize & Hin & Hout).
    + fold n. lia.
    + done.
    + done.
    + intros i Hi. rewrite lookup_insert_ne; [apply Hfresh; lia|].
      intros Heq. apply _gen_shard_id_inj in Heq. lia.
    + exists d'. split; [|split; [|split]].
      * cbn [seq for_each]. fold n in Hrun. unfold bind at 1.
        assert (Hbody :
          (if not_ exe_info
           then let* uri0 := index worker_list s in
                shard_assoc_setitem (_gen_shard_id s n) (uri0, None)
           else let* uri0 := index worker_list s in
                let* info := index (default [] exe_info) s in
                shard_assoc_setitem (_gen_shard_id s n) (uri0, Some info)) me
          = (Returned tt, me1)).
        { unfold me1, e, entry, index, shard_assoc_setitem, bind, gets, modify, ret.
          rewrite Huri. destruct (not_ exe_info) eqn:Hnot.
          - simpl. by rewrite Hd.
          - destruct (lookup_lt_is_Some_2 (default [] exe_info) s) as [info Hi].
            { specialize (Hinfo eq_refl). lia. }
            rewrite Hi. simpl. by rewrite Hd. }
        cbv zeta in Hrun |- *. rewrite Hbody. exact Hrun.
      * rewrite Hsize. rewrite map_size_insert_None by (apply Hfresh; lia). lia.
      * intros i uri' Hi Hu.
        destruct (decide (i = s)) as [->|Hne].
        -- rewrite Hout by lia. rewrite lookup_insert_eq.
           rewrite Huri in Hu. by simplify_eq.
        -- apply Hin; [lia|done].
      * intros i Hi. rewrite Hout by lia.
        rewrite lookup_insert_ne; [done|].
        intros Heq. apply _gen_shard_id_inj in Heq. lia.
Qed.

(** ** C9 *)

(** C9. For a list of n worker addresses (and a descriptor list that is
    absent, empty, or at least as long), [set_worker_list] builds a registry
    of exactly n entries in which the i-th address, with its descriptor or
    [None], is found under ["shard/"] followed by i with leading zeros up to
    the decimal width of n; distinct indices have distinct identities; three
    addresses give shard/0..shard/2 and ten give shard/00..shard/09.  Being
    a function of the lists, the registry is the same for the same input. *)
Theorem set_worker_list_assigns_padded_identities
  (me : Framework) (worker_list : list string) (exe_info : option (list WorkerInfo)) :
  (not_ exe_info = false → (length worker_list ≤ length (default [] exe_info))%nat) →
  let n := length worker_list in
  ∃ d,
    set_worker_list worker_list exe_info me = (Returned tt, set_shard_assoc (Some d) me) ∧
    size d = n ∧
    (∀ i uri, worker_list !! i = Some uri →
       d !! _gen_shard_id i n
         = Some (uri, if not_ exe_info then None else default [] exe_info !! i) ∧
       ∃ k, _gen_shard_id i n = "shard/" +:+ zeros k +:+ str i ∧
            String.length (zeros k +:+ str i) = String.length (str n)) ∧
    (∀ i j, _gen_shard_id i n = _gen_shard_id j n → i = j) ∧
    (λ i, _gen_shard_id i 3) <$> seq 0 3 = ["shard/0"; "shard/1"; "shard/2"] ∧
    (λ i, _gen_shard_id i 10) <$> seq 0 10 =
      ["shard/00"; "shard/01"; "shard/02"; "shard/03"; "shard/04";
       "shard/05"; "shard/06"; "shard/07"; "shard/08"; "shard/09"].
Proof.
  intros Hinfo n.
  destruct (set_worker_list_loop worker_list exe_info n 0
              (set_shard_assoc (Some ∅) me) ∅)
    as (d & Hrun & Hsize & Hin & _); try done.
  exists d. split; [|split; [|split; [|split; [|split]]]].
  - unfold set_worker_list. unfold bind at 1. exact Hrun.
  - rewrite Hsize, map_size_empty. lia.
  - intros i uri Hu. split.
    + apply (Hin i uri); [lia|done].
    + apply _gen_shard_id_padded. apply lookup_lt_Some in Hu. fold n in Hu. lia.
  - intros i j. apply _gen_shard_id_inj.
  - reflexivity.
  - reflexivity.
Qed.

Lemma set_worker_list_assigns_padded_identities_witness :
  ∃ d, set_worker_list ["10.0.0.1:9311"; "10.0.0.2:9311"; "10.0.0.3:9311"] None
         (__init__ "0f" "echo" "/tmp/exelixi")
       = (Returned tt, set_shard_assoc (Some d) (__init__ "0f" "echo" "/tmp/exelixi")) ∧
       size d = 3%nat.
Proof.
  destruct (set_worker_list_assigns_padded_identities
              (__init__ "0f" "echo" "/tmp/exelixi")
              ["10.0.0.1:9311"; "10.0.0.2:9311"; "10.0.0.3:9311"] None)
    as (d & Hrun & Hsize & _).
  - simpl. discriminate.
  - exists d. exact (conj Hrun Hsize).
Defined.

End FrameworkRegistry.

(** ** The two-phase barrier of the coordinator *)

Module FrameworkBarrier.
Import Framework.

Definition path_of (m : Message) : string :=
  match m with
  | Sent _ path | Acked _ path _ => path
  end.

(** A transport for examples: every shard answers at once with one line. *)
Definition answering (_ _ _ _ : string) (_ : value) (n : nat)
  : result (list string) * nat :=
  (Returned ["Bokay\r\n"], S n).

Lemma prefix_before_foreign {A} (l1 l2 pre post : list A) (x : A) :
  x ∉ l1 → l1 ++ l2 = pre ++ x :: post → ∃ pre', pre = l1 ++ pre'.
Proof.
  revert pre. induction l1 as [|a l1 IH]; intros pre Hx Heq.
  - by exists pre.
  - destruct pre as [|b pre]; simpl in Heq; simplify_eq.
    + exfalso. apply Hx. by left.
    + destruct (IH pre) as [pre' ->]; [|done|by exists pre'].
      intros Hin. apply Hx. by right.
Qed.

Section Barrier.
Context {Net : Type}.
Context (post_distrib_rest :
           string → string → string → string → value → Net → result (list string) * Net).

(** One call: the request goes out, and the answer is in when the call
    returns. *)
Lemma call_post_distrib_rest_wire (pfx sid uri path : string) (msg : value) (r : Run) :
  let rr := call_post_distrib_rest post_distrib_rest pfx sid uri path msg r in
  fw rr.2 = fw r ∧
  ∃ tr, wire rr.2 = wire r ++ tr ∧
        Forall (λ m, path_of m = path) tr ∧
        ∀ lines, rr.1 = Returned lines →
                 Sent sid path ∈ tr ∧ Acked sid path lines ∈ tr.
Proof.
  unfold call_post_distrib_rest, on_wire, bind, modify, ret; simpl.
  destruct (post_distrib_rest pfx sid uri path msg (net r)) as [[lines|e] n']; simpl.
  - split; [done|]. exists [Sent sid path; Acked sid path lines].
    split; [by rewrite <- app_assoc|]. split.
    + by repeat constructor.
    + intros ? [= <-]. split; [by left | right; by left].
  - split; [done|]. exists [Sent sid path]. split; [done|]. split.
    + by repeat constructor.
    + by intros.
Qed.

(** The loop of [send_ring_rest] over the registry's items. *)
Lemma send_ring_rest_loop (pfx path : string) (msg : value)
  (l : list (string * (string * option WorkerInfo))) :
  ∀ (acc : list string) (r : Run),
  let rr := for_each l acc (λ json_str item,
              let '(shard_id, (shard_uri, exe_info)) := item in
              let* lines := call_post_distrib_rest post_distrib_rest pfx shard_id
                              shard_uri path msg in
              let* line0 := index lines 0 in
              ret (json_str ++ [line0])) r in
  fw rr.2 = fw r ∧
  ∃ tr, wire rr.2 = wire r ++ tr ∧
        Forall (λ m, path_of m = path) tr ∧
        ∀ json_str, rr.1 = Returned json_str →
          ∀ sid e, (sid, e) ∈ l →
            Sent sid path ∈ tr ∧ ∃ lines, Acked sid path lines ∈ tr.
Proof.
  match goal with
  | |- context [for_each l _ ?f] => set (body := f)
  end.
  assert (Hbody : ∀ acc sid uri info r,
    body acc (sid, (uri, info)) r =
    match call_post_distrib_rest post_distrib_rest pfx sid uri path msg r with
    | (Returned [], r1) => (Raised IndexError, r1)
    | (Returned (line0 :: _), r1) => (Returned (acc ++ [line0]), r1)
    | (Raised e, r1) => (Raised e, r1)
    end).
  { intros. unfold body, bind, index, ret, raise.
    by destruct (call_post_distrib_rest _ _ _ _ _ _ _) as [[[|??]|?] ?]. }
  clearbody body.
  induction l as [|[sid [uri info]] l IH]; intros acc r; cbv zeta.
  - simpl. split; [done|]. exists []. split; [by rewrite app_nil_r|].
    split; [done|]. intros ? _ ? ? Hin. by apply elem_of_nil in Hin.
  - cbn [for_each]. unfold bind. rewrite Hbody.
    destruct (call_post_distrib_rest_wire pfx sid uri path msg r)
      as (Hfw & tr1 & Hw1 & Hp1 & Hok1).
    destruct (call_post_distrib_rest post_distrib_rest pfx sid uri path msg r)
      as [[[|line0 lines]|e] r1]; simpl in *.
    + split; [done|]. exists tr1. split; [done|]. split; [done|]. by intros.
    + destruct (IH (acc ++ [line0]) r1) as (Hfw2 & tr2 & Hw2 & Hp2 & Hok2).
      split; [congruence|]. exists (tr1 ++ tr2).
      split; [by rewrite Hw2, Hw1, app_assoc|].
      split; [by apply Forall_app|].
      intros json_str Hret sid' e' Hin.
      apply elem_of_cons in Hin as [Heq|Hin].
      * simplify_eq. destruct (Hok1 _ eq_refl) as [Hs Ha].
        split; [apply elem_of_app; by left|].
        exists (line0 :: lines). apply elem_of_app; by left.
      * destruct (Hok2 _ Hret sid' e' Hin) as [Hs [ln Ha]].
        split; [apply elem_of_app; by right|].
        exists ln. apply elem_of_app; by right.
    + split; [done|]. exists tr1. split; [done|]. split; [done|]. by intros.
Qed.

Lemma send_ring_rest_wire (path : string) (msg : value) (r : Run)
  (d : gmap string (string * option WorkerInfo)) :
  _shard_assoc (fw r) = Some d →
  let rr := send_ring_rest post_distrib_rest path msg r in
  fw rr.2 = fw r ∧
  ∃ tr, wire rr.2 = wire r ++ tr ∧
        Forall (λ m, path_of m = path) tr ∧
        ∀ json_str, rr.1 = Returned json_str →
          ∀ sid e, d !! sid = Some e →
            Sent sid path ∈ tr ∧ ∃ lines, Acked sid path lines ∈ tr.
Proof.
  intros Hd. unfold send_ring_rest, bind, gets; simpl. rewrite Hd.
  destruct (send_ring_rest_loop (prefix (fw r)) path msg (map_to_list d) [] r)
    as (Hfw & tr & Hw & Hp & Hok).
  split; [done|]. exists tr. split; [done|]. split; [done|].
  intros json_str Hret sid e He.
  apply (Hok json_str Hret sid e). by apply elem_of_map_to_list.
Qed.

(** ** C8 *)

(** C8. In what [phase_barrier] puts on the wire, every ["queue/join"]
    request comes after a ["queue/wait"] request to every shard of the
    registry and after that shard's answer to it; and when [phase_barrier]
    returns, every shard has been sent both. *)
Theorem phase_barrier_waits_before_joins
  (r : Run) (d : gmap string (string * option WorkerInfo)) :
  _shard_assoc (fw r) = Some d →
  let rr := phase_barrier post_distrib_rest r in
  ∃ tr, wire rr.2 = wire r ++ tr ∧
    (∀ pre sid post, tr = pre ++ Sent sid "queue/join" :: post →
       ∀ sid' e, d !! sid' = Some e →
         Sent sid' "queue/wait" ∈ pre ∧ ∃ lines, Acked sid' "queue/wait" lines ∈ pre) ∧
    (rr.1 = Returned tt →
       ∀ sid' e, d !! sid' = Some e →
         Sent sid' "queue/wait" ∈ tr ∧ Sent sid' "queue/join" ∈ tr).
Proof.
  intros Hd. cbv zeta. unfold phase_barrier, bind, ret.
  destruct (send_ring_rest_wire "queue/wait" (VDict ∅) r d Hd)
    as (Hfw & tw & Hw & Hp & Hok).
  destruct (send_ring_rest post_distrib_rest "queue/wait" (VDict ∅) r)
    as [[waited|e] r1]; simpl in *.
  - assert (Hd1 : _shard_assoc (fw r1) = Some d) by by rewrite Hfw.
    destruct (send_ring_rest_wire "queue/join" (VDict ∅) r1 d Hd1)
      as (Hfw2 & tj & Hw2 & Hp2 & Hok2).
    exists (tw ++ tj). split; [|split].
    + destruct (send_ring_rest post_distrib_rest "queue/join" (VDict ∅) r1)
        as [[?|?] r2]; simpl in *; by rewrite Hw2, Hw, <- app_assoc.
    + intros pre sid post Hsplit sid' e He.
      destruct (prefix_before_foreign tw tj pre post (Sent sid "queue/join"))
        as [pre' ->]; [|done|].
      * intros Hin. rewrite Forall_forall in Hp. by apply Hp in Hin.
      * destruct (Hok waited eq_refl sid' e He) as [Hs [ln Ha]].
        split; [apply elem_of_app; by left|].
        exists ln. apply elem_of_app; by left.
    + intros Hret sid' e He.
      destruct (Hok waited eq_refl sid' e He) as [Hs _].
      split; [apply elem_of_app; by left|].
      destruct (send_ring_rest post_distrib_rest "queue/join" (VDict ∅) r1)
        as [[joined|?] r2]; simpl in *; [|done].
      destruct (Hok2 joined eq_refl sid' e He) as [Hj _].
      apply elem_of_app; by right.
  - exists tw. split; [done|]. split; [|done].
    intros pre sid post Hsplit. exfalso.
    rewrite Forall_forall in Hp.
    assert (Hin : Sent sid "queue/join" ∈ tw).
    { rewrite Hsplit. apply elem_of_app. right. by left. }
    by apply Hp in Hin.
Qed.

End Barrier.

(** A coordinator with two shards. *)
Definition two_shards : Run (Net := nat) :=
  mkRun (set_shard_assoc
           (Some (<["shard/0" := ("10.0.0.1:9311", None)]>
                    (<["shard/1" := ("10.0.0.2:9311", None)]> ∅)))
           (__init__ "0f" "echo" "/tmp/exelixi"))
        0 [].

Lemma phase_barrier_waits_before_joins_witness :
  ∃ tr, wire (phase_barrier answering two_shards).2 = wire two_shards ++ tr ∧
        Sent "shard/1" "queue/wait" ∈ tr ∧ Sent "shard/1" "queue/join" ∈ tr.
Proof.
  destruct (phase_barrier_waits_before_joins answering two_shards
              (<["shard/0" := ("10.0.0.1:9311", None)]>
                 (<["shard/1" := ("10.0.0.2:9311", None)]> ∅)) eq_refl)
    as (tr & Hw & _ & Hall).
  exists tr. split; [exact Hw|].
  apply (Hall eq_refl "shard/1" ("10.0.0.2:9311", None)). reflexivity.
Defined.

End FrameworkBarrier.

(** ** The request surface of the worker *)

Module WorkerEndpoints.
Import Worker.

(** The paths [_response_handler] routes itself. *)
Definition routes : list string :=
  ["/shard/config"; "/shard/stop"; "/queue/wait"; "/queue/join"; "/check/persist";
   "/check/recover"; "/ring/init"; "/ring/add"; "/ring/del"; "/"].

(** The placeholder endpoints. *)
Definition placeholders : list string :=
  ["/check/persist"; "/check/recover"; "/ring/add"; "/ring/del"].

Section Endpoints.
Context {strat : Strategy}.

(** The strategy object, if any, does not claim the path. *)
Definition declined (w : World) (path : string) : Prop :=
  match _uow (self w) with
  | Some u => handle_endpoints u path = false
  | None => True
  end.

Ltac route env w Hd :=
  unfold _response_handler, bokay, spawn, start_response, body_put,
    bind, gets, modify, ret; simpl;
  unfold declined in Hd;
  destruct (_uow (self w)); simpl; rewrite ?Hd; simpl.

(** X1. A path that neither the strategy nor the worker routes is answered
    with 404 Not Found; no greenlet is started and nothing else of the
    worker changes. *)
Theorem unrouted_path_is_not_found (w : World) (env : Env) :
  declined w (PATH_INFO env) →
  PATH_INFO env ∉ routes →
  _response_handler env w =
    (Returned (length (responses w)),
     upd_responses (λ rs, rs ++ [mkResponse (Some "404 Not Found")
                                   [Str "Not Found\r\n"; StopIteration]]) w).
Proof.
  intros Hd Hr. unfold routes in Hr.
  repeat (apply not_elem_of_cons in Hr as [? Hr]).
  route env w Hd;
    rewrite !bool_decide_eq_false_2 by done; simpl;
    unfold upd_responses; simpl; rewrite !alter_app_r_alt by done;
    rewrite !Nat.sub_diag; simpl; by rewrite <- ?app_assoc.
Qed.

(** X2. The placeholder endpoints answer 200 Bokay to anybody: no credential
    is asked for, the request body is not even read, and nothing of the
    worker changes. *)
Theorem placeholder_endpoints_acknowledge (w : World) (env : Env) :
  declined w (PATH_INFO env) →
  PATH_INFO env ∈ placeholders →
  _response_handler env w =
    (Returned (length (responses w)),
     upd_responses (λ rs, rs ++ [mkResponse (Some "200 OK")
                                   [Str "Bokay\r\n"; StopIteration]]) w).
Proof.
  intros Hd Hp. unfold placeholders in Hp.
  repeat (apply elem_of_cons in Hp as [Hp|Hp]); [..|by apply elem_of_nil in Hp];
    route env w Hd; rewrite Hp; simpl;
    unfold upd_responses; simpl; rewrite !alter_app_r_alt by done;
    rewrite !Nat.sub_diag; simpl; by rewrite <- ?app_assoc.
Qed.

(** The stored credential and the one of the payload are equal. *)
Definition matches (w : World) (a b : value) : bool :=
  py_eq (prefix (self w)) a && py_eq (shard_id (self w)) b.

(** X3. A request to /shard/stop is answered 200 Goodbye at once, whatever
    its credential; the greenlet started for it stops the server exactly
    when the credential matches, and writes nothing either way. *)
Theorem shard_stop_answers_before_it_checks
  (w : World) (d : gmap string value) (a b : value) :
  server_stopped (self w) = false →
  declined w "/shard/stop" →
  d !! "prefix" = Some a →
  d !! "shard_id" = Some b →
  let w1 := exec (Serve (mkEnv "/shard/stop" (Some (VDict d)))) w in
  let w2 := switch (length (greenlets w)) w1 in
  responses w1 =
    responses w ++ [mkResponse (Some "200 OK") [Str "Goodbye\r\n"; StopIteration]] ∧
  greenlets w1 = greenlets w ++ [Ready (G_shard_stop (VDict d))] ∧
  self w1 = self w ∧
  responses w2 = responses w1 ∧
  server_stopped (self w2) = matches w a b ∧
  greenlets w2 = greenlets w ++ [Dead None].
Proof.
  intros Hs Hd Ha Hb w1 w2.
  assert (Hw1 : w1 = upd_responses
                  (λ rs, rs ++ [mkResponse (Some "200 OK")
                                  [Str "Goodbye\r\n"; StopIteration]])
                  (upd_greenlets (λ gs, gs ++ [Ready (G_shard_stop (VDict d))]) w)).
  { unfold w1; simpl. rewrite Hs.
    unfold _response_handler, get_response_context, spawn, start_response, body_put,
      bind, gets, modify, ret; simpl.
    unfold declined in Hd; simpl in Hd.
    destruct w as [me qs evts gs rs lg tr]; simpl in *.
    destruct (_uow me); simpl; rewrite ?Hd; simpl;
      unfold upd_responses, upd_greenlets; simpl; rewrite !alter_app_r_alt by done;
      rewrite !Nat.sub_diag; simpl; by rewrite <- ?app_assoc. }
  split; [by rewrite Hw1|]. split; [by rewrite Hw1|]. split; [by rewrite Hw1|].
  unfold w2, switch. rewrite Hw1; simpl.
  rewrite lookup_app_r, Nat.sub_diag by done. simpl.
  unfold shard_stop, matches, bind, gets, getitem, log, modify, ret; simpl.
  rewrite Ha, Hb; simpl.
  destruct (py_eq (prefix (self w)) a); simpl;
    [destruct (py_eq (shard_id (self w)) b); simpl|];
    (split; [done|]; split; [done|]);
    (rewrite insert_app_r_alt, Nat.sub_diag by done; done).
Qed.

(** X4. [ring_init] with a matching credential stores the payload's ring,
    answers 200 Bokay and leaves the rest of the worker alone; when the
    payload has no ["ring"] it raises [KeyError] and neither answers nor
    changes anything. *)
Theorem ring_init_stores_the_ring
  (w : World) (d : gmap string value) (a b : value) (rq : nat) (path : string) :
  d !! "prefix" = Some a →
  d !! "shard_id" = Some b →
  matches w a b = true →
  let r := ring_init rq (mkEnv path (Some (VDict d))) w in
  match d !! "ring" with
  | Some ring' =>
      r.1 = Returned tt ∧
      self r.2 = set_ring ring' (self w) ∧
      WorkerLifecycle.answered rq "200 OK" [Str "Bokay\r\n"; StopIteration] w r.2 ∧
      queues r.2 = queues w ∧ events r.2 = events w ∧ greenlets r.2 = greenlets w
  | None => r = (Raised (KeyError "ring"), w)
  end.
Proof.
  intros Ha Hb Hm r. apply andb_true_iff in Hm as [Ea Eb].
  assert (Hr : r = (let* r := getitem (VDict d) "ring" in
                    modify (upd_self (set_ring r));;
                    start_response rq "200 OK";;
                    body_put rq (Str "Bokay\r\n");;
                    body_put rq StopIteration;;
                    log "info" "setting hash ring %s" [r]) w).
  { unfold r, ring_init, get_response_context; simpl.
    unfold bind at 1; simpl. unfold bind at 1.
    by rewrite (WorkerLifecycle.auth_request_match w d a b rq Ha Hb Ea Eb). }
  rewrite Hr. clear Hr r.
  unfold getitem, bind, modify, start_response, body_put, log, ret, raise; simpl.
  destruct (d !! "ring") as [ring'|]; simpl; [|done].
  do 2 (split; [done|]). split; [|done].
  unfold WorkerLifecycle.answered; simpl. rewrite !list_alter_alter_eq.
  apply list_alter_ext; [|done]. intros; simpl. by rewrite <- app_assoc.
Qed.

(** X5. A request body that is not valid JSON makes every handler that
    decodes it raise [ValueError] before it does anything: no answer is
    written and the worker is as it was; for /shard/stop, which decodes the
    body itself, no greenlet is started and the response stays empty. *)
Theorem malformed_body_raises (w : World) (rq : nat) (path : string) :
  server_stopped (self w) = false →
  declined w "/shard/stop" →
  let env := mkEnv path None in
  shard_config rq env w = (Raised ValueError, w) ∧
  ring_init rq env w = (Raised ValueError, w) ∧
  queue_wait rq env w = (Raised ValueError, w) ∧
  queue_join rq env w = (Raised ValueError, w) ∧
  greenlets (exec (Serve (mkEnv "/shard/stop" None)) w) = greenlets w ∧
  responses (exec (Serve (mkEnv "/shard/stop" None)) w)
    = responses w ++ [mkResponse None []].
Proof.
  intros Hs Hd env. do 4 (split; [done|]).
  simpl. rewrite Hs.
  unfold _response_handler, get_response_context, bind, gets, modify, raise; simpl.
  unfold declined in Hd. destruct (_uow (self w)); simpl; by rewrite ?Hd.
Qed.


(** X7. Configuration and authorization round trip: after a successful
    [shard_config] with the credential (a, b), [auth_request] accepts a
    payload with strings (a', b') exactly when a' = a and b' = b. *)
Theorem configured_credential_is_the_accepted_one
  (w : World) (rq rq' : nat) (path : string) (d d' : gmap string value)
  (a b a' b' : string) (n : value) (ff : Factory) :
  is_config (self w) = false →
  d !! "prefix" = Some (VStr a) →
  d !! "shard_id" = Some (VStr b) →
  d !! "uow_name" = Some n →
  instantiate_class n = Some ff →
  d' !! "prefix" = Some (VStr a') →
  d' !! "shard_id" = Some (VStr b') →
  let w1 := (shard_config rq (mkEnv path (Some (VDict d))) w).2 in
  (auth_request (VDict d') rq' w1).1 = Returned (bool_decide (a' = a ∧ b' = b)).
Proof.
  intros Hc Ha Hb Hn Hff Ha' Hb' w1.
  destruct (WorkerLifecycle.shard_config_success w rq d (VStr a) (VStr b) n ff path
              Hc Ha Hb Hn Hff) as [_ Hself].
  fold w1 in Hself.
  assert (Hp : prefix (self w1) = VStr a) by by rewrite Hself.
  assert (Hs : shard_id (self w1) = VStr b) by by rewrite Hself.
  unfold auth_request, bind, gets, getitem, ret; simpl.
  rewrite Ha', Hb', Hp, Hs; simpl.
  destruct (decide (a = a')) as [<-|Hna].
  - rewrite bool_decide_eq_true_2 by done.
    destruct (decide (b = b')) as [<-|Hnb].
    + rewrite !bool_decide_eq_true_2 by done. done.
    + rewrite bool_decide_eq_false_2 by done.
      rewrite (bool_decide_eq_false_2 (a = a ∧ b' = b)) by (intros [_ ?]; congruence).
      done.
  - rewrite bool_decide_eq_false_2 by done.
    rewrite (bool_decide_eq_false_2 (a' = a ∧ b' = b)) by (intros [? _]; congruence).
    done.
Qed.

(** The first of the keys of a configuration payload that is missing. *)
Definition first_missing (d : gmap string value) : option string :=
  if decide (d !! "prefix" = None) then Some "prefix"
  else if decide (d !! "shard_id" = None) then Some "shard_id"
  else if decide (d !! "uow_name" = None) then Some "uow_name"
  else None.

(** X8. A configuration payload with a key missing: [shard_config] of an
    unconfigured worker raises [KeyError] for the first missing key, without
    an answer and without a strategy object, but the worker is marked
    configured, so that every later configuration is turned down. *)
Theorem shard_config_with_missing_key
  (w : World) (rq rq' : nat) (path : string) (d : gmap string value) (k : string)
  (env' : Env) :
  is_config (self w) = false →
  first_missing d = Some k →
  let r := shard_config rq (mkEnv path (Some (VDict d))) w in
  r.1 = Raised (KeyError k) ∧
  is_config (self r.2) = true ∧
  _uow (self r.2) = _uow (self w) ∧
  responses r.2 = responses w ∧
  self (shard_config rq' env' r.2).2 = self r.2.
Proof.
  intros Hc Hk r.
  assert (Hr : r.1 = Raised (KeyError k) ∧ is_config (self r.2) = true ∧
               _uow (self r.2) = _uow (self w) ∧ responses r.2 = responses w).
  { unfold r, shard_config, get_response_context, bind, gets, getitem, modify, raise,
      ret, log; simpl. rewrite Hc; simpl.
    unfold first_missing in Hk.
    destruct (decide (d !! "prefix" = None)) as [E1|E1];
      [simplify_eq; by rewrite E1|].
    destruct (d !! "prefix"); [|done]; simpl.
    destruct (decide (d !! "shard_id" = None)) as [E2|E2];
      [simplify_eq; by rewrite E2|].
    destruct (d !! "shard_id"); [|done]; simpl.
    destruct (decide (d !! "uow_name" = None)) as [E3|E3];
      [simplify_eq; by rewrite E3|done]. }
  destruct Hr as (H1 & H2 & H3 & H4). repeat split; try done.
  by destruct (WorkerLifecycle.shard_config_configured r.2 rq' env' H2) as [(? & _) _].
Qed.

End Endpoints.

(** [{"prefix": "p", "shard_id": "shard/0", "ring": {}}] *)
Definition ring_payload : gmap string value :=
  <["prefix" := VStr "p"]> (<["shard_id" := VStr "shard/0"]> (<["ring" := VDict ∅]> ∅)).

Lemma unrouted_path_is_not_found_witness :
  (_response_handler (strat := echo) (mkEnv "/shard/restart" None)
     WorkerLifecycle.configured_worker).1 = Returned 1.
Proof.
  rewrite (unrouted_path_is_not_found (strat := echo) WorkerLifecycle.configured_worker
             (mkEnv "/shard/restart" None)).
  - reflexivity.
  - reflexivity.
  - apply (bool_decide_unpack _). vm_compute. exact I.
Defined.

Lemma placeholder_endpoints_acknowledge_witness :
  (_response_handler (strat := echo) (mkEnv "/ring/add" None)
     WorkerLifecycle.configured_worker).1 = Returned 1.
Proof.
  rewrite (placeholder_endpoints_acknowledge (strat := echo)
             WorkerLifecycle.configured_worker (mkEnv "/ring/add" None)).
  - reflexivity.
  - reflexivity.
  - apply (bool_decide_unpack _). vm_compute. exact I.
Defined.

Lemma shard_stop_answers_before_it_checks_witness :
  server_stopped
    (self (switch (strat := echo) 0
             (exec (Serve (post "/shard/stop" (credential (VStr "p") (VStr "shard/0"))))
                   WorkerLifecycle.configured_worker))) = true.
Proof.
  destruct (shard_stop_answers_before_it_checks (strat := echo)
              WorkerLifecycle.configured_worker
              (<["prefix" := VStr "p"]> (<["shard_id" := VStr "shard/0"]> ∅))
              (VStr "p") (VStr "shard/0"))
    as (_ & _ & _ & _ & Hstop & _); [reflexivity..|].
  exact Hstop.
Defined.

Lemma ring_init_stores_the_ring_witness :
  ring (self (ring_init (strat := echo) 0 (mkEnv "/ring/init" (Some (VDict ring_payload)))
                WorkerLifecycle.configured_worker).2) = VDict ∅.
Proof.
  pose proof (ring_init_stores_the_ring (strat := echo) WorkerLifecycle.configured_worker
                ring_payload (VStr "p") (VStr "shard/0") 0 "/ring/init") as H.
  cbv zeta in H. change (ring_payload !! "ring") with (Some (VDict ∅)) in H.
  destruct H as (_ & Hself & _); [reflexivity..|].
  rewrite Hself. reflexivity.
Defined.

Lemma malformed_body_raises_witness :
  queue_wait (strat := echo) 0 (mkEnv "/queue/wait" None) WorkerLifecycle.configured_worker
  = (Raised ValueError, WorkerLifecycle.configured_worker).
Proof.
  refine (proj1 (proj2 (proj2
    (malformed_body_raises (strat := echo) WorkerLifecycle.configured_worker 0
       "/queue/wait" _ _)))); reflexivity.
Defined.


Lemma configured_credential_is_the_accepted_one_witness :
  (auth_request (strat := echo) (credential (VStr "p") (VStr "shard/1")) 0
     WorkerLifecycle.configured_worker).1 = Returned false.
Proof.
  refine (configured_credential_is_the_accepted_one (strat := echo)
            (upd_responses (λ _, [mkResponse None []]) World_init) 0 0 "/shard/config"
            (<["prefix" := VStr "p"]> (<["shard_id" := VStr "shard/0"]>
               (<["uow_name" := VStr "echo"]> ∅)))
            (<["prefix" := VStr "p"]> (<["shard_id" := VStr "shard/1"]> ∅))
            "p" "shard/0" "p" "shard/1" (VStr "echo") tt _ _ _ _ _ _ _); reflexivity.
Defined.

Lemma shard_config_with_missing_key_witness :
  is_config (self (shard_config (strat := echo) 0
                     (post "/shard/config" (credential (VStr "p") (VStr "shard/0")))
                     World_init).2) = true.
Proof.
  refine (proj1 (proj2
    (shard_config_with_missing_key (strat := echo) World_init 0 0 "/shard/config"
       (<["prefix" := VStr "p"]> (<["shard_id" := VStr "shard/0"]> ∅)) "uow_name"
       (mkEnv "/shard/config" None) _ _))); reflexivity.
Defined.

End WorkerEndpoints.

(** ** Phases, and the progress of the consumer *)

Module WorkerRuns.
Import Worker WorkerBarrier.

Section Runs.
Context {strat : Strategy}.

Ltac crunch_all :=
  cbv beta iota zeta delta
    [start resume shard_config shard_stop ring_init queue_wait queue_join
     auth_request get_response_context queue_wait_ack queue_join_done
     Event_wait JoinableQueue_join JoinableQueue_join_resume
     _consume_task_queue_resume _consume_task_queue JoinableQueue_get
     call_perform_task perform_task_returns task_done JoinableQueue_notify try_finally
     start_response body_put log observe spawn getitem
     bind gets modify ret raise];
  simpl;
  repeat (case_match; simpl; simplify_eq; try done).

Lemma switch_task_event (g : nat) (w : World) :
  _task_event (self (switch g w)) = _task_event (self w).
Proof.
  unfold switch. destruct (greenlets w !! g) as [[t|s|r]|]; simpl; try done.
  - destruct t; crunch_all.
  - destruct s; crunch_all.
Qed.

(** *** The end of a phase *)

(** X9. When the phase ends ([wrap_task_event] is left), the event of the
    phase is set and the field cleared; from then on, whatever else happens,
    a handler that was parked in that event's [wait()] acknowledges with 200
    Bokay at its next switch. *)
Theorem phase_end_releases_the_waiters
  (w : World) (g e rq : nat) (l : list Action) :
  _task_event (self w) = Some e →
  is_Some (events w !! e) →
  greenlets w !! g = Some (Parked (At_wait e rq)) →
  let w1 := exec Exit_wrap_task_event w in
  let w2 := run l w1 in
  _task_event (self w1) = None ∧
  events w2 !! e = Some true ∧
  waiting_or_set g e rq w2 ∧
  (greenlets w2 !! g = Some (Parked (At_wait e rq)) →
   greenlets (switch g w2) !! g = Some (Dead None) ∧
   WorkerLifecycle.answered rq "200 OK" [Str "Bokay\r\n"; StopIteration]
     w2 (switch g w2)).
Proof.
  intros He [x Hx] Hg w1 w2.
  assert (Hw1 : w1 = upd_self (set_task_event None) (upd_events <[e := true]> w)).
  { unfold w1; simpl.
    unfold wrap_task_event_exit, bind, gets, modify; simpl. by rewrite He. }
  assert (Hset1 : events w1 !! e = Some true).
  { rewrite Hw1; simpl. apply list_lookup_insert_eq. by eapply lookup_lt_Some. }
  assert (Hset2 : events w2 !! e = Some true).
  { unfold w2. clearbody w1. clear -Hset1. revert w1 Hset1.
    induction l as [|a l IH]; intros w1 Hset1; [done|].
    rewrite run_cons. by apply IH, exec_events_mono. }
  split; [by rewrite Hw1|]. split; [done|]. split.
  - apply waiting_or_set_run. left. by rewrite Hw1.
  - intros Hp. destruct (switch_waiter w2 g e rq Hp) as [Hs _].
    by destruct (Hs Hset2) as (? & _ & ?).
Qed.

(** The event [e] is unset and no longer the one in [self._task_event]. *)
Definition orphaned (e : nat) (w : World) : Prop :=
  events w !! e = Some false ∧ _task_event (self w) ≠ Some e.

Lemma orphaned_exec (a : Action) (w : World) (e : nat) :
  orphaned e w → orphaned e (exec a w).
Proof.
  intros [He Hf]. assert (Hlen : e < length (events w)) by by eapply lookup_lt_Some.
  destruct a as [env|g| |payload| |].
  - destruct (serve_frame env w) as ((_ & Ht & _ & Hev & _) & _).
    split; by rewrite ?Hev, ?Ht.
  - change (exec (Switch g) w) with (switch g w).
    split; by rewrite ?switch_events, ?switch_task_event.
  - done.
  - simpl. unfold put_task_queue, observe, bind, gets, modify, raise; simpl.
    by destruct (_task_queue (self w)).
  - simpl. split.
    + by apply lookup_app_l_Some.
    + intros [= Heq]. lia.
  - simpl. unfold wrap_task_event_exit, bind, gets, modify, raise; simpl.
    destruct (_task_event (self w)) as [e'|] eqn:Ef; simpl;
      [|split; [done|by rewrite Ef]].
    split; simpl; [|done]. rewrite list_lookup_insert_ne; [done|]. congruence.
Qed.

Lemma orphaned_run (l : list Action) (w : World) (e : nat) :
  orphaned e w → orphaned e (run l w).
Proof.
  revert w. induction l as [|a l IH]; intros w Hw; [done|].
  rewrite run_cons. by apply IH, orphaned_exec.
Qed.

Lemma orphaned_waiter_run (l : list Action) (w : World) (g e rq : nat) :
  orphaned e w →
  greenlets w !! g = Some (Parked (At_wait e rq)) →
  greenlets (run l w) !! g = Some (Parked (At_wait e rq)).
Proof.
  revert w. induction l as [|a l IH]; intros w Hw Hg; [done|].
  rewrite run_cons. apply IH; [by apply orphaned_exec|].
  assert (Hother : a ≠ Switch g →
            greenlets (exec a w) !! g = Some (Parked (At_wait e rq))).
  { intros Ha. by apply exec_greenlet_stays. }
  destruct a as [env|g'| |payload| |]; try (by apply Hother).
  destruct (decide (g' = g)) as [->|Hne]; [|apply Hother; congruence].
  change (exec (Switch g) w) with (switch g w).
  destruct (switch_waiter w g e rq Hg) as [_ Hunset].
  rewrite Hunset; [done|]. destruct Hw as [-> _]. done.
Qed.

(** X10. A phase begun while another one is open takes the place of the
    open phase's event in [self._task_event]: that event is never set, in
    any continuation of the run, and a handler parked in its [wait()] never
    acknowledges. *)
Theorem nested_phase_orphans_the_open_event
  (w : World) (e g rq : nat) (l : list Action) :
  _task_event (self w) = Some e →
  events w !! e = Some false →
  greenlets w !! g = Some (Parked (At_wait e rq)) →
  let w' := run l (exec Enter_wrap_task_event w) in
  events w' !! e = Some false ∧
  greenlets w' !! g = Some (Parked (At_wait e rq)) ∧
  switch g w' = w'.
Proof.
  intros Hf He Hg w'.
  assert (Ho : orphaned e (exec Enter_wrap_task_event w)).
  { split; simpl.
    - by apply lookup_app_l_Some.
    - intros [= Heq]. apply lookup_lt_Some in He. lia. }
  assert (Hg' : greenlets w' !! g = Some (Parked (At_wait e rq))).
  { by apply orphaned_waiter_run. }
  destruct (orphaned_run l _ e Ho) as [He' _]. fold w' in He'.
  split; [done|]. split; [done|].
  destruct (switch_waiter w' g e rq Hg') as [_ Hunset].
  apply Hunset. by rewrite He'.
Qed.

(** *** Without a queue *)

Definition no_prep (a : Action) : bool :=
  match a with
  | Call_prep_task_queue => false
  | _ => true
  end.

Lemma no_prep_disciplined (l : list Action) (w : World) :
  forallb no_prep l = true → disciplined l w = true.
Proof.
  revert w. induction l as [|a l IH]; intros w Hl; [done|].
  simpl in *. apply andb_true_iff in Hl as [Ha Hl].
  rewrite IH by done. by destruct a.
Qed.

Lemma no_queue_exec (a : Action) (w : World) :
  Inv w → no_prep a = true →
  _task_queue (self w) = None →
  _task_queue (self (exec a w)) = None ∧
  queues (exec a w) = queues w ∧ trace (exec a w) = trace w.
Proof.
  intros HI Ha Hc. destruct a as [env|g| |payload| |]; try done.
  - destruct (serve_frame env w) as ((-> & _ & -> & _ & ->) & _). done.
  - change (exec (Switch g) w) with (switch g w).
    destruct (greenlets w !! g) as [gl|] eqn:Hg;
      [|by unfold switch; rewrite Hg].
    assert (Hz : consumer gl = 0).
    { pose proof (no_queue _ _ _ _ HI Hc).
      pose proof (total_lookup_le consumer _ _ _ Hg). lia. }
    destruct (switch_handler w g gl Hg Hz) as (gl' & _ & (-> & _ & -> & _ & ->) & _).
    done.
  - simpl. unfold put_task_queue, bind, gets, raise; simpl. by rewrite Hc.
  - simpl. unfold wrap_task_event_exit, bind, gets, modify, raise; simpl.
    by destruct (_task_event (self w)).
Qed.

(** X11. As long as [prep_task_queue] has not been called there is no queue:
    whatever requests are served and greenlets run, [put_task_queue] raises
    [AttributeError] and the payload is dropped, nothing being queued or
    consumed. *)
Theorem put_task_queue_needs_a_prepared_queue (l : list Action) (payload : value) :
  forallb no_prep l = true →
  let w := run l World_init in
  put_task_queue payload w = (Raised AttributeError, w) ∧
  queues w = [] ∧ trace w = [].
Proof.
  intros Hl w.
  assert (H : Inv w ∧ _task_queue (self w) = None ∧ queues w = [] ∧ trace w = []).
  { unfold w. clear w.
    assert (Hgen : ∀ w0, Inv w0 → _task_queue (self w0) = None →
              Inv (run l w0) ∧ _task_queue (self (run l w0)) = None ∧
              queues (run l w0) = queues w0 ∧ trace (run l w0) = trace w0).
    { induction l as [|a l IH]; intros w0 HI Hc; [done|].
      simpl in Hl. apply andb_true_iff in Hl as [Ha Hl].
      rewrite run_cons.
      destruct (no_queue_exec a w0 HI Ha Hc) as (Hc' & Hq & Ht).
      destruct (IH Hl (exec a w0)) as (HI' & Hc'' & Hq' & Ht'); [|done|].
      - apply Inv_exec; [done|]. by destruct a.
      - split; [done|]. split; [done|]. split; congruence. }
    by apply Hgen; [apply Inv_init|]. }
  destruct H as (_ & Hc & Hq & Ht). split; [|done].
  unfold put_task_queue, bind, gets, raise; simpl. by rewrite Hc.
Qed.

(** *** Replaced queues *)

(** X12. In a run that re-invokes [prep_task_queue] only on an idle queue, a
    consumer parked in [get] on a queue that has been replaced never wakes:
    that queue is empty, and a switch to the consumer changes nothing. *)
Theorem replaced_queue_consumer_stays_parked (l : list Action) (g q : nat) :
  disciplined l World_init = true →
  let w := run l World_init in
  greenlets w !! g = Some (Parked (At_get q)) →
  _task_queue (self w) ≠ Some q →
  queues w !! q = Some (mkQueue [] 0) ∧ switch g w = w.
Proof.
  intros Hd w Hg Hc.
  assert (HI : Inv w) by (apply Inv_run; [apply Inv_init|done]).
  pose proof (get_valid _ _ _ _ HI g q Hg) as Hlen.
  destruct (lookup_lt_is_Some_2 _ _ Hlen) as [[its n] HQ].
  destruct (old_drained _ _ _ _ HI q _ HQ Hc) as [Hi Hn]. simpl in *. subst.
  split; [done|]. apply (switch_stale_consumer w g q Hg). by rewrite HQ.
Qed.

(** *** The consumer drains the queue *)

(** Where the consumer is after it has marked a payload done and turned to
    the rest [its] of the queue [q]. *)
Definition next (q : nat) (its : list value) : Greenlet :=
  match its with
  | [] => Parked (At_get q)
  | payload :: _ => Parked (At_perform_task payload)
  end.

Ltac unfold_consumer :=
  unfold _consume_task_queue_resume, _consume_task_queue, JoinableQueue_get,
    call_perform_task, perform_task_returns, task_done, JoinableQueue_notify,
    try_finally, observe, bind, gets, modify, ret, raise, landed,
    upd_greenlets, upd_trace, upd_queues, upd_self, upd_notified, set_uow; simpl.

(** [perform_task] returns normally: the payload is marked done, which
    notifies the greenlets parked in [join()] when the count has reached
    zero, and the next payload, if any, is taken. *)
Lemma switch_performing (w : World) (g q n : nat) (payload : value)
  (its : list value) (u : UnitOfWork) :
  _task_queue (self w) = Some q →
  queues w !! q = Some (mkQueue its (S n)) →
  greenlets w !! g = Some (Parked (At_perform_task payload)) →
  _uow (self w) = Some u →
  (perform_task u payload).2 = None →
  switch g w =
    mkWorld (set_uow (Some (perform_task u payload).1) (self w))
            (<[q := mkQueue (tail its) n]> (queues w)) (events w)
            (<[g := next q its]> (greenlets w)) (responses w) (logging w)
            (trace w ++ E_return g payload None :: E_task_done g q ::
               match its with [] => [] | p' :: _ => [E_get g q p'] end)
            (if decide (n = 0) then notified w ∪ joiners q (greenlets w)
             else notified w).
Proof.
  destruct w as [me qs evts gs rs lg tr ns]; destruct me as [c st pf sid rg te tq uow].
  simpl. intros -> HQ Hg -> Hok.
  assert (Hlen : q < length qs) by by eapply lookup_lt_Some.
  unfold switch; simpl. rewrite Hg. unfold resume. unfold_consumer.
  rewrite Hok; simpl. rewrite HQ; simpl.
  destruct (decide (n = 0)); simpl; rewrite list_lookup_insert_eq by done;
    (destruct its as [|p' rest]; simpl;
     [by rewrite <- !app_assoc|by rewrite list_insert_insert_eq, <- !app_assoc]).
Qed.

(** The first [get] of a payload. *)
Lemma switch_taking (w : World) (g q n : nat) (gl : Greenlet) (payload : value)
  (rest : list value) (u : UnitOfWork) :
  _task_queue (self w) = Some q →
  queues w !! q = Some (mkQueue (payload :: rest) n) →
  greenlets w !! g = Some gl →
  gl = Ready G_consume_task_queue ∨ gl = Parked (At_get q) →
  _uow (self w) = Some u →
  switch g w =
    mkWorld (self w) (<[q := mkQueue rest n]> (queues w)) (events w)
            (<[g := Parked (At_perform_task payload)]> (greenlets w))
            (responses w) (logging w) (trace w ++ [E_get g q payload]) (notified w).
Proof.
  destruct w as [me qs evts gs rs lg tr ns]; destruct me as [c st pf sid rg te tq uow].
  simpl. intros -> HQ Hg Hgl ->.
  unfold switch; simpl. rewrite Hg.
  destruct Hgl as [-> | ->]; unfold start, resume; unfold_consumer; by rewrite HQ.
Qed.

(** With nothing queued the consumer goes to, or stays in, its [get]. *)
Lemma switch_idle (w : World) (g q n : nat) (gl : Greenlet) :
  _task_queue (self w) = Some q →
  queues w !! q = Some (mkQueue [] n) →
  greenlets w !! g = Some gl →
  gl = Ready G_consume_task_queue ∨ gl = Parked (At_get q) →
  switch g w =
    mkWorld (self w) (queues w) (events w)
            (<[g := Parked (At_get q)]> (greenlets w))
            (responses w) (logging w) (trace w) (notified w).
Proof.
  destruct w as [me qs evts gs rs lg tr ns]; destruct me as [c st pf sid rg te tq uow].
  simpl. intros -> HQ Hg Hgl.
  unfold switch; simpl. rewrite Hg.
  destruct Hgl as [-> | ->]; unfold start, resume; unfold_consumer; by rewrite HQ.
Qed.

(** The state of the worker after a drain: what [w] is except for the
    strategy object, the queue [q], the consumer [g], the history and the
    notifications; when the drain has brought the count to zero, the
    greenlets parked in [join()] on [q] have been notified. *)
Definition drained (w w' : World) (g q m : nat) (its : list value) : Prop :=
  _task_queue (self w') = Some q ∧
  is_Some (_uow (self w')) ∧
  queues w' = <[q := mkQueue [] m]> (queues w) ∧
  greenlets w' = <[g := Parked (At_get q)]> (greenlets w) ∧
  events w' = events w ∧
  responses w' = responses w ∧
  taken q (trace w') = taken q (trace w) ++ its ∧
  failures (trace w') = failures (trace w) ∧
  (∀ g', g' ∈ notified w → g' ∈ notified w') ∧
  (count q w ≠ Some m → m = 0 →
   ∀ g' rq, greenlets w !! g' = Some (Parked (At_join q rq)) → g' ∈ notified w').

Lemma drain_performing (g q m : nat) (its : list value) :
  (∀ u payload, (perform_task u payload).2 = None) →
  ∀ (w : World) (payload : value) (u : UnitOfWork),
  _task_queue (self w) = Some q →
  queues w !! q = Some (mkQueue its (S (length its + m))) →
  greenlets w !! g = Some (Parked (At_perform_task payload)) →
  _uow (self w) = Some u →
  drained w (run (replicate (S (length its)) (Switch g)) w) g q m its.
Proof.
  intros perform_task_returns_normally.
  induction its as [|p' rest IH]; intros w payload u Hc HQ Hg Hu.
  - simpl. change (exec (Switch g) w) with (switch g w).
    rewrite (switch_performing w g q m payload [] u) by done.
    unfold drained; simpl.
    rewrite taken_app, failures_app; simpl.
    rewrite !app_nil_r. do 6 (split; [done|]). split; [done|]. split; [lia|].
    split.
    + intros g' Hin. case_decide; [|done]. apply elem_of_union. by left.
    + intros _ -> g' rq Hg'. rewrite decide_True by done.
      apply elem_of_union. right. apply elem_of_joiners. by exists rq.
  - change (replicate (S (length (p' :: rest))) (Switch g))
      with (Switch g :: replicate (S (length rest)) (Switch g)).
    rewrite run_cons.
    change (exec (Switch g) w) with (switch g w).
    pose proof (switch_performing w g q (S (length rest + m)) payload (p' :: rest) u
                  Hc HQ Hg Hu (perform_task_returns_normally _ _)) as Hsw.
    assert (Hlq : q < length (queues w)) by by eapply lookup_lt_Some.
    assert (Hlg : g < length (greenlets w)) by by eapply lookup_lt_Some.
    destruct (IH (switch g w) p' (perform_task u payload).1)
      as (H1 & H2 & H3 & H4 & H5 & H5' & H6 & H7 & H8 & H9).
    + by rewrite Hsw.
    + rewrite Hsw; simpl. by rewrite list_lookup_insert_eq.
    + rewrite Hsw; simpl. by rewrite list_lookup_insert_eq.
    + by rewrite Hsw.
    + unfold drained. split; [done|]. split; [done|].
      split; [|split; [|split; [|split; [|split; [|split; [|split]]]]]].
      * rewrite H3, Hsw; simpl. by rewrite list_insert_insert_eq.
      * rewrite H4, Hsw; simpl. by rewrite list_insert_insert_eq.
      * by rewrite H5, Hsw.
      * by rewrite H5', Hsw.
      * rewrite H6, Hsw; simpl. rewrite !taken_app; simpl.
        rewrite decide_True by done. simpl. by rewrite <- app_assoc.
      * rewrite H7, Hsw; simpl. rewrite !failures_app; simpl. lia.
      * intros g' Hin. apply H8. by rewrite Hsw.
      * intros _ Hm g' rq Hg'. apply (H9) with (rq := rq); [|done|].
        -- unfold count. rewrite Hsw; simpl. rewrite list_lookup_insert_eq by done.
           simpl. intros [= ?]. lia.
        -- rewrite Hsw; simpl. rewrite list_lookup_insert_ne; [done|].
           intros ->. rewrite Hg in Hg'. done.
Qed.

(** The consumer attached to the current queue is the only one that can be
    inside [perform_task]. *)
Lemma sole_inflight (q : nat) (qs : list JoinableQueue) (gs : list Greenlet)
  (tr : list Observation) (g : nat) (gl : Greenlet) :
  Inv_core (Some q) qs gs tr → gs !! g = Some gl → attached q gl = 1 →
  total inflight gs = inflight gl.
Proof.
  intros HI Hg Hatt.
  pose proof (single _ _ _ _ HI q eq_refl) as Hs.
  pose proof (total_insert (attached q) gs g gl (Dead None) Hg) as Ha.
  pose proof (total_insert inflight gs g gl (Dead None) Hg) as Hi.
  assert (total inflight (<[g := Dead None]> gs)
          ≤ total (attached q) (<[g := Dead None]> gs)).
  { apply total_le. intros gl'. unfold attached. lia. }
  rewrite Hatt in Ha.
  change (attached q (Dead None)) with 0 in Ha.
  change (inflight (Dead None)) with 0 in Hi. lia.
Qed.

Lemma drain_attached (w : World) (g q : nat) (Q : JoinableQueue) (gl : Greenlet)
  (u : UnitOfWork) :
  (∀ u payload, (perform_task u payload).2 = None) →
  _task_queue (self w) = Some q →
  queues w !! q = Some Q →
  greenlets w !! g = Some gl →
  attached q gl = 1 →
  _uow (self w) = Some u →
  unfinished_tasks Q = length (items Q) + inflight gl →
  drained w (run (replicate (S (length (items Q))) (Switch g)) w) g q 0 (items Q).
Proof.
  intros Hok Hc HQ Hg Hatt Hu Hn. destruct Q as [its n].
  cbn [items unfinished_tasks] in *.
  assert (Hlq : q < length (queues w)) by by eapply lookup_lt_Some.
  assert (Hlg : g < length (greenlets w)) by by eapply lookup_lt_Some.
  assert (Hstart : (∃ payload, gl = Parked (At_perform_task payload)) ∨
                   gl = Ready G_consume_task_queue ∨ gl = Parked (At_get q)).
  { destruct gl as [[]|[q'| | |]|]; unfold attached in Hatt; simpl in *;
      try done; eauto.
    case_decide; [subst; eauto|done]. }
  destruct Hstart as [[payload ->]|Hgl].
  - cbn [inflight] in Hn. subst n.
    apply (drain_performing g q 0 its Hok w payload u); try done.
    rewrite HQ. do 2 f_equal. lia.
  - assert (Hz : inflight gl = 0) by by destruct Hgl as [-> | ->].
    rewrite Hz, Nat.add_0_r in Hn. subst n.
    destruct its as [|payload rest].
    + simpl. change (exec (Switch g) w) with (switch g w).
      rewrite (switch_idle w g q 0 gl) by done.
      unfold drained; simpl. rewrite app_nil_r, list_insert_id by done.
      rewrite Hu. do 8 (split; [by eauto|]). split; [done|].
      intros Hcount. exfalso. apply Hcount. unfold count. by rewrite HQ.
    + change (replicate (S (length (payload :: rest))) (Switch g))
        with (Switch g :: replicate (S (length rest)) (Switch g)).
      rewrite run_cons. change (exec (Switch g) w) with (switch g w).
      pose proof (switch_taking w g q (length (payload :: rest)) gl payload rest u
                    Hc HQ Hg Hgl Hu) as Hsw.
      destruct (drain_performing g q 0 rest Hok (switch g w) payload u)
        as (H1 & H2 & H3 & H4 & H5 & H5' & H6 & H7 & H8 & H9).
      * by rewrite Hsw.
      * rewrite Hsw; simpl. rewrite list_lookup_insert_eq by done.
        do 2 f_equal. lia.
      * rewrite Hsw; simpl. by rewrite list_lookup_insert_eq.
      * by rewrite Hsw.
      * unfold drained. split; [done|]. split; [done|].
        split; [|split; [|split; [|split; [|split; [|split; [|split]]]]]].
        -- rewrite H3, Hsw; simpl. by rewrite list_insert_insert_eq.
        -- rewrite H4, Hsw; simpl. by rewrite list_insert_insert_eq.
        -- by rewrite H5, Hsw.
        -- by rewrite H5', Hsw.
        -- rewrite H6, Hsw; simpl. rewrite !taken_app; simpl.
           rewrite decide_True by done. simpl. by rewrite <- app_assoc.
        -- rewrite H7, Hsw; simpl. rewrite !failures_app; simpl. lia.
        -- intros g' Hin. apply H8. by rewrite Hsw.
        -- intros _ _ g' rq Hg'. apply (H9) with (rq := rq); [|done|].
           ++ unfold count. rewrite Hsw; simpl. rewrite list_lookup_insert_eq by done.
              done.
           ++ rewrite Hsw; simpl. rewrite list_lookup_insert_ne; [done|].
              intros ->. rewrite Hg in Hg'. by destruct Hgl as [-> | ->].
Qed.

(** X13. With a strategy whose [perform_task] never raises, the consumer
    drains the queue: in a run that re-invokes [prep_task_queue] only on an
    idle queue, switching to the consumer of the current queue once more
    than there are payloads queued hands every queued payload to
    [perform_task], in arrival order, marks them all done and leaves the
    consumer parked in [get] on the empty queue. *)
Theorem consumer_drains_the_queue
  (l : list Action) (g q : nat) (Q : JoinableQueue) (gl : Greenlet) :
  (∀ u payload, (perform_task u payload).2 = None) →
  disciplined l World_init = true →
  let w := run l World_init in
  _task_queue (self w) = Some q →
  queues w !! q = Some Q →
  greenlets w !! g = Some gl →
  attached q gl = 1 →
  is_Some (_uow (self w)) →
  let w' := run (replicate (S (length (items Q))) (Switch g)) w in
  queues w' !! q = Some (mkQueue [] 0) ∧
  greenlets w' !! g = Some (Parked (At_get q)) ∧
  taken q (trace w') = taken q (trace w) ++ items Q ∧
  failures (trace w') = failures (trace w).
Proof.
  intros Hok Hd w Hc HQ Hg Hatt [u Hu] w'.
  assert (HI : Inv w) by (apply Inv_run; [apply Inv_init|done]).
  unfold Inv in HI. rewrite Hc in HI.
  destruct (drain_attached w g q Q gl u Hok Hc HQ Hg Hatt Hu)
    as (_ & _ & Hqs & Hgs & _ & _ & Ht & Hf & _).
  { rewrite <- (sole_inflight q _ _ _ g gl HI Hg Hatt).
    by apply (account _ _ _ _ HI q Q). }
  fold w' in Hqs, Hgs, Ht, Hf.
  split; [|split; [|done]].
  - rewrite Hqs. apply list_lookup_insert_eq. by eapply lookup_lt_Some.
  - rewrite Hgs. apply list_lookup_insert_eq. by eapply lookup_lt_Some.
Qed.

(** X14. The barrier completes. Under the same conditions, a [queue_join]
    handler parked in [join()] on the current queue is released by the
    drain: switched to after the consumer has had its turns, it writes
    ["done"], ends its body and finishes. *)
Theorem queue_join_returns_after_the_drain
  (l : list Action) (g g' q rq : nat) (Q : JoinableQueue) (gl : Greenlet) :
  (∀ u payload, (perform_task u payload).2 = None) →
  disciplined l World_init = true →
  let w := run l World_init in
  _task_queue (self w) = Some q →
  queues w !! q = Some Q →
  greenlets w !! g = Some gl →
  attached q gl = 1 →
  is_Some (_uow (self w)) →
  greenlets w !! g' = Some (Parked (At_join q rq)) →
  let w' := switch g' (run (replicate (S (length (items Q))) (Switch g)) w) in
  greenlets w' !! g' = Some (Dead None) ∧
  responses w' =
    alter (λ r, mkResponse (status r) (body r ++ [Str "done\r\n"; StopIteration]))
          rq (responses w).
Proof.
  intros Hok Hd w Hc HQ Hg Hatt [u Hu] Hj w'.
  assert (HI : Inv w) by (apply Inv_run; [apply Inv_init|done]).
  unfold Inv in HI. rewrite Hc in HI.
  assert (Hp : pending w) by apply pending_run, pending_init.
  destruct (drain_attached w g q Q gl u Hok Hc HQ Hg Hatt Hu)
    as (_ & _ & Hqs & Hgs & _ & Hrs & _ & _ & Hmono & Hnotif).
  { rewrite <- (sole_inflight q _ _ _ g gl HI Hg Hatt).
    by apply (account _ _ _ _ HI q Q). }
  assert (Hne : g ≠ g').
  { intros ->. rewrite Hg in Hj. by simplify_eq. }
  assert (Hlg : g' < length (greenlets w)) by by eapply lookup_lt_Some.
  unfold w'. set (wd := run (replicate (S (length (items Q))) (Switch g)) w) in *.
  assert (Hj' : greenlets wd !! g' = Some (Parked (At_join q rq))).
  { rewrite Hgs. by rewrite list_lookup_insert_ne. }
  assert (Hin : g' ∈ notified wd).
  { destruct (proj2 Hp g' q rq Hj) as [_ [Hin|Hcount]]; [by apply Hmono|].
    by apply (Hnotif Hcount eq_refl g' rq). }
  destruct (switch_joiner wd g' q rq Hj') as [_ Hyes].
  destruct (Hyes Hin) as ((_ & _ & _ & _ & Hgs') & _ & Hrs').
  split.
  - rewrite Hgs'. apply list_lookup_insert_eq. by eapply lookup_lt_Some.
  - by rewrite Hrs', Hrs.
Qed.

End Runs.

(** The [UnitOfWork] base class: [perform_task] and [handle_endpoints] are
    [pass]. *)
Definition plain : Strategy := {|
  UnitOfWork := unit;
  Factory := unit;
  instantiate_class := λ _, Some tt;
  instantiate_uow := λ _ _ _, tt;
  perform_task := λ u _, (u, None);
  handle_endpoints := λ _ _, false
|}.

(** A [queue_wait] handler (greenlet 2) is parked in the [wait()] of the
    open phase. *)
Definition parked_in_wait : World (strat := echo) := switch 2 waiting_for_phase.

(** Requests are served and a phase is opened, but the queue has never been
    prepared. *)
Definition unprepared : list Action :=
  [Serve config_request; Switch 0; Enter_wrap_task_event].

(** The queue is prepared a second time while the first one is idle. *)
Definition prepared_twice : list Action := ready_to_consume ++ [Call_prep_task_queue].

(** Two payloads are queued for the parked consumer (greenlet 1). *)
Definition two_queued : list Action :=
  ready_to_consume ++ [Call_put_task_queue (VStr "a"); Call_put_task_queue (VStr "b")].

(** One payload is queued and a [queue_join] handler (greenlet 2) is parked
    in [join()]. *)
Definition joined_one_queued : list Action :=
  ready_to_consume ++
  [Call_put_task_queue (VStr "a"); Serve (with_credential "/queue/join"); Switch 2].

Lemma phase_end_releases_the_waiters_witness :
  events (run [Call_put_task_queue (VStr "a"); Switch 1]
              (exec Exit_wrap_task_event parked_in_wait)) !! 0 = Some true.
Proof.
  refine (proj1 (proj2
    (phase_end_releases_the_waiters (strat := echo) parked_in_wait 2 0 1
       [Call_put_task_queue (VStr "a"); Switch 1] _ _ _))).
  - vm_compute; reflexivity.
  - exists false. vm_compute; reflexivity.
  - vm_compute; reflexivity.
Defined.

Lemma nested_phase_orphans_the_open_event_witness :
  switch 2 (run [Exit_wrap_task_event] (exec Enter_wrap_task_event parked_in_wait))
  = run [Exit_wrap_task_event] (exec Enter_wrap_task_event parked_in_wait).
Proof.
  refine (proj2 (proj2
    (nested_phase_orphans_the_open_event (strat := echo) parked_in_wait 0 2 1
       [Exit_wrap_task_event] _ _ _))); vm_compute; reflexivity.
Defined.

Lemma put_task_queue_needs_a_prepared_queue_witness :
  put_task_queue (strat := echo) (VStr "a") (run unprepared World_init)
  = (Raised AttributeError, run unprepared World_init).
Proof.
  refine (proj1
    (put_task_queue_needs_a_prepared_queue (strat := echo) unprepared (VStr "a") _)).
  vm_compute; reflexivity.
Defined.

Lemma replaced_queue_consumer_stays_parked_witness :
  switch (strat := echo) 1 (run prepared_twice World_init) = run prepared_twice World_init.
Proof.
  refine (proj2
    (replaced_queue_consumer_stays_parked (strat := echo) prepared_twice 1 0 _ _ _)).
  - vm_compute; reflexivity.
  - vm_compute; reflexivity.
  - vm_compute. discriminate.
Defined.

Lemma consumer_drains_the_queue_witness :
  queues (run (strat := plain) (replicate 3 (Switch 1)) (run two_queued World_init)) !! 0
  = Some (mkQueue [] 0).
Proof.
  refine (proj1
    (consumer_drains_the_queue (strat := plain) two_queued 1 0
       (mkQueue [VStr "a"; VStr "b"] 2) (Parked (At_get 0)) _ _ _ _ _ _ _)).
  - intros u payload. reflexivity.
  - vm_compute; reflexivity.
  - vm_compute; reflexivity.
  - vm_compute; reflexivity.
  - vm_compute; reflexivity.
  - reflexivity.
  - exists tt. vm_compute; reflexivity.
Defined.

Lemma queue_join_returns_after_the_drain_witness :
  greenlets (switch (strat := plain) 2
               (run (replicate 2 (Switch 1)) (run joined_one_queued World_init))) !! 2
  = Some (Dead None).
Proof.
  refine (proj1
    (queue_join_returns_after_the_drain (strat := plain) joined_one_queued 1 2 0 1
       (mkQueue [VStr "a"] 1) (Parked (At_get 0)) _ _ _ _ _ _ _ _)).
  - intros u payload. reflexivity.
  - vm_compute; reflexivity.
  - vm_compute; reflexivity.
  - vm_compute; reflexivity.
  - vm_compute; reflexivity.
  - reflexivity.
  - exists tt. vm_compute; reflexivity.
  - vm_compute; reflexivity.
Defined.

End WorkerRuns.

(** ** The registry and the broadcasts of the coordinator *)

Module FrameworkRuns.
Import Framework FrameworkRegistry FrameworkBarrier.

(** The shards a stretch of the wire was sent to, and the answers in it. *)
Definition sent (tr : list Message) : list string :=
  omap (λ m, match m with Sent sid _ => Some sid | Acked _ _ _ => None end) tr.

Definition acked (tr : list Message) : list (string * list string) :=
  omap (λ m, match m with Acked sid _ lines => Some (sid, lines) | Sent _ _ => None end) tr.

Lemma sent_app (t1 t2 : list Message) : sent (t1 ++ t2) = sent t1 ++ sent t2.
Proof. apply omap_app. Qed.

Lemma acked_app (t1 t2 : list Message) : acked (t1 ++ t2) = acked t1 ++ acked t2.
Proof. apply omap_app. Qed.

(** The fields [set_worker_list] leaves alone. *)
Definition same_identity (me me' : Framework) : Prop :=
  uuid me' = uuid me ∧ prefix me' = prefix me ∧ uow_name me' = uow_name me ∧
  _ring me' = _ring me.

Lemma set_shard_assoc_same_identity (me me' : Framework)
  (d : option (gmap string (string * option WorkerInfo))) :
  same_identity me me' → set_shard_assoc d me' = set_shard_assoc d me.
Proof. intros (? & ? & ? & ?). unfold set_shard_assoc. congruence. Qed.

(** The loop of [set_worker_list], whatever it meets, touches the registry
    only. *)
Lemma set_worker_list_rounds_identity (worker_list : list string)
  (exe_info : option (list WorkerInfo)) (n : nat) (l : list nat) :
  ∀ me : Framework,
  same_identity me
    (for_each l tt (λ _ i,
      let shard_id := _gen_shard_id i n in
      if not_ exe_info then
        let* uri := index worker_list i in
        shard_assoc_setitem shard_id (uri, None)
      else
        let* uri := index worker_list i in
        let* info := index (default [] exe_info) i in
        shard_assoc_setitem shard_id (uri, Some info)) me).2.
Proof.
  match goal with
  | |- context [for_each l _ ?f] => set (body := f)
  end.
  assert (Hbody : ∀ i me, same_identity me (body tt i me).2).
  { intros i me.
    unfold same_identity, body, index, shard_assoc_setitem, bind, gets, modify, ret, raise.
    repeat case_match; simplify_eq; simpl; done. }
  clearbody body.
  induction l as [|i l IH]; intros me.
  - done.
  - cbn [for_each]. unfold bind.
    pose proof (Hbody i me) as H1.
    destruct (body tt i me) as [[[]|e] me1]; simpl in *; [|done].
    destruct (IH me1) as (? & ? & ? & ?). destruct H1 as (? & ? & ? & ?).
    repeat split; congruence.
Qed.

Lemma set_worker_list_same_identity (worker_list : list string)
  (exe_info : option (list WorkerInfo)) (me : Framework) :
  same_identity me (set_worker_list worker_list exe_info me).2.
Proof.
  unfold set_worker_list. unfold bind at 1, modify at 1.
  pose proof (set_worker_list_rounds_identity worker_list exe_info (length worker_list)
                (seq 0 (length worker_list)) (set_shard_assoc (Some ∅) me)) as H.
  cbv zeta in H.
  destruct H as (? & ? & ? & ?). done.
Qed.

(** [for x in l1 + l2] is the loop over [l1] followed by the loop over [l2]. *)
Lemma for_each_app {S A B} (l1 l2 : list A) (acc : B) (body : B → A → M S B) (s : S) :
  for_each (l1 ++ l2) acc body s =
  (let* acc' := for_each l1 acc body in for_each l2 acc' body) s.
Proof.
  revert acc s. induction l1 as [|x l1 IH]; intros acc s.
  - done.
  - cbn [app for_each]. unfold bind.
    destruct (body acc x s) as [[acc'|e] s1]; [|done].
    rewrite IH. done.
Qed.

(** The rounds of [set_worker_list] for which both lists have an item. *)
Lemma set_worker_list_rounds (worker_list : list string)
  (exe_info : option (list WorkerInfo)) (k : nat) :
  ∀ (s : nat) (me : Framework) (d : gmap string (string * option WorkerInfo)),
  let n := length worker_list in
  (s + k ≤ n)%nat →
  (not_ exe_info = false → (s + k ≤ length (default [] exe_info))%nat) →
  _shard_assoc me = Some d →
  (∀ i, (s ≤ i)%nat → d !! _gen_shard_id i n = None) →
  ∃ d',
    for_each (seq s k) tt (λ _ i,
      let shard_id := _gen_shard_id i n in
      if not_ exe_info then
        let* uri := index worker_list i in
        shard_assoc_setitem shard_id (uri, None)
      else
        let* uri := index worker_list i in
        let* info := index (default [] exe_info) i in
        shard_assoc_setitem shard_id (uri, Some info)) me
    = (Returned tt, set_shard_assoc (Some d') me) ∧
    size d' = (size d + k)%nat.
Proof.
  induction k as [|k IH]; intros s me d n Hsk Hinfo Hd Hfresh.
  - exists d. simpl. unfold ret. split; [|lia].
    destruct me; simpl in *; by subst.
  - destruct (lookup_lt_is_Some_2 worker_list s) as [uri Huri]; [fold n; lia|].
    set (e := entry exe_info s uri).
    set (me1 := set_shard_assoc (Some (<[_gen_shard_id s n := e]> d)) me).
    destruct (IH (S s) me1 (<[_gen_shard_id s n := e]> d)) as (d' & Hrun & Hsize).
    + fold n. lia.
    + intros Hn. specialize (Hinfo Hn). lia.
    + done.
    + intros i Hi. rewrite lookup_insert_ne; [apply Hfresh; lia|].
      intros Heq. apply _gen_shard_id_inj in Heq. lia.
    + exists d'. split.
      * cbn [seq for_each]. fold n in Hrun. unfold bind at 1.
        assert (Hbody :
          (if not_ exe_info
           then let* uri0 := index worker_list s in
                shard_assoc_setitem (_gen_shard_id s n) (uri0, None)
           else let* uri0 := index worker_list s in
                let* info := index (default [] exe_info) s in
                shard_assoc_setitem (_gen_shard_id s n) (uri0, Some info)) me
          = (Returned tt, me1)).
        { unfold me1, e, entry, index, shard_assoc_setitem, bind, gets, modify, ret.
          rewrite Huri. destruct (not_ exe_info) eqn:Hnot.
          - simpl. by rewrite Hd.
          - destruct (lookup_lt_is_Some_2 (default [] exe_info) s) as [info Hi].
            { specialize (Hinfo eq_refl). lia. }
            rewrite Hi. simpl. by rewrite Hd. }
        cbv zeta in Hrun |- *. rewrite Hbody. exact Hrun.
      * rewrite Hsize. rewrite map_size_insert_None by (apply Hfresh; lia). lia.
Qed.

#[local] Instance _gen_shard_id_among_inj (n : nat) : Inj (=) (=) (λ i, _gen_shard_id i n).
Proof. intros i j. apply _gen_shard_id_inj. Qed.

(** A registry with [n] entries that holds the identities of [0..n-1] holds
    nothing else. *)
Lemma registry_keys {A} (d : gmap string A) (n : nat) (sid : string) :
  size d = n →
  (∀ i, (i < n)%nat → is_Some (d !! _gen_shard_id i n)) →
  is_Some (d !! sid) →
  ∃ i, (i < n)%nat ∧ sid = _gen_shard_id i n.
Proof.
  intros Hsize Hin Hsid.
  set (K := (λ i, _gen_shard_id i n) <$> seq 0 n).
  assert (Hsub : list_to_set K ⊆ dom d).
  { intros k Hk. apply elem_of_list_to_set, list_elem_of_fmap in Hk as (i & -> & Hi).
    apply elem_of_seq in Hi. apply elem_of_dom, Hin. lia. }
  assert (HK : size (list_to_set (C := gset string) K) = n).
  { rewrite size_list_to_set.
    - unfold K. by rewrite length_fmap, length_seq.
    - apply NoDup_fmap_2; [apply _|apply NoDup_seq]. }
  apply set_subseteq_size_eq in Hsub; [|rewrite size_dom; lia].
  apply elem_of_dom in Hsid. rewrite <- Hsub in Hsid.
  apply elem_of_list_to_set, list_elem_of_fmap in Hsid as (i & -> & Hi).
  apply elem_of_seq in Hi. exists i. split; [lia|done].
Qed.

(** X15. What [set_worker_list] has registered reads back: [get_worker_count]
    is the length of the worker list, and [get_worker_list] yields as many
    pairs, namely the identity of shard [i] with the [i]-th address, for
    every [i], and nothing else. *)
Theorem registry_reads_back
  (me : Framework) (worker_list : list string) (exe_info : option (list WorkerInfo)) :
  (not_ exe_info = false → (length worker_list ≤ length (default [] exe_info))%nat) →
  let n := length worker_list in
  let me' := (set_worker_list worker_list exe_info me).2 in
  get_worker_count me' = (Returned n, me') ∧
  ∃ pairs,
    get_worker_list me' = (Returned pairs, me') ∧
    length pairs = n ∧
    ∀ sid uri, (sid, uri) ∈ pairs ↔
               ∃ i, worker_list !! i = Some uri ∧ sid = _gen_shard_id i n.
Proof.
  intros Hinfo n me'.
  destruct (set_worker_list_loop worker_list exe_info n 0
              (set_shard_assoc (Some ∅) me) ∅)
    as (d & Hrun & Hsize & Hin & _); try done.
  fold n in Hin.
  rewrite map_size_empty in Hsize. simpl in Hsize.
  assert (Hset : set_worker_list worker_list exe_info me
                 = (Returned tt, set_shard_assoc (Some d) me)).
  { unfold set_worker_list. unfold bind at 1. exact Hrun. }
  assert (Hme : _shard_assoc me' = Some d) by (unfold me'; by rewrite Hset).
  split; [unfold get_worker_count, bind, gets, ret; simpl; by rewrite Hme, Hsize|].
  eexists. split; [unfold get_worker_list, bind, gets, ret; simpl; by rewrite Hme|].
  split; [by rewrite length_fmap, length_map_to_list|].
  intros sid uri. rewrite list_elem_of_fmap. split.
  - intros ([sid' [uri' info]] & [= -> ->] & He). simpl.
    apply elem_of_map_to_list in He.
    destruct (registry_keys d n sid' Hsize) as (i & Hi & ->); [|by eexists|].
    + intros i Hi.
      destruct (lookup_lt_is_Some_2 worker_list i Hi) as [u Hu].
      rewrite (Hin i u); [by eexists|lia|done].
    + destruct (lookup_lt_is_Some_2 worker_list i Hi) as [u Hu].
      rewrite (Hin i u) in He by (done || lia).
      exists i. split; [|done]. unfold entry in He. by simplify_eq.
  - intros (i & Hu & ->).
    exists (_gen_shard_id i n, entry exe_info i uri). split; [done|].
    apply elem_of_map_to_list. apply Hin; [lia|done].
Qed.

Lemma set_worker_list_resets (worker_list : list string)
  (exe_info : option (list WorkerInfo)) (me : Framework) :
  set_worker_list worker_list exe_info me
  = set_worker_list worker_list exe_info (set_shard_assoc (Some ∅) me).
Proof. reflexivity. Qed.

(** X16. [set_worker_list] starts from an empty registry: what an earlier
    call had registered, whether it returned or raised, has no influence on
    the outcome of the next one. *)
Theorem set_worker_list_replaces_the_registry
  (me : Framework) (worker_list worker_list' : list string)
  (exe_info exe_info' : option (list WorkerInfo)) :
  set_worker_list worker_list' exe_info'
    (set_worker_list worker_list exe_info me).2
  = set_worker_list worker_list' exe_info' me.
Proof.
  etrans; [apply set_worker_list_resets|].
  symmetry. etrans; [apply set_worker_list_resets|]. symmetry.
  f_equal. apply set_shard_assoc_same_identity, set_worker_list_same_identity.
Qed.

(** X17. A descriptor list that is not empty and shorter than the worker list:
    [set_worker_list] raises [IndexError] at the first shard without a
    descriptor, and leaves a registry of the shards before it only. *)
Theorem set_worker_list_short_exe_info
  (me : Framework) (worker_list : list string) (infos : list WorkerInfo) :
  infos ≠ [] →
  (length infos < length worker_list)%nat →
  ∃ d, set_worker_list worker_list (Some infos) me
       = (Raised IndexError, set_shard_assoc (Some d) me) ∧
       size d = length infos.
Proof.
  intros Hne Hlt.
  assert (Hnot : not_ (Some infos) = false) by by destruct infos.
  set (m := length infos).
  destruct (set_worker_list_rounds worker_list (Some infos) m 0
              (set_shard_assoc (Some ∅) me) ∅)
    as (d & Hrun & Hsize); try done.
  { simpl. fold m. lia. }
  exists d. rewrite map_size_empty in Hsize. split; [|done].
  unfold set_worker_list. unfold bind at 1, modify at 1.
  match goal with
  | |- context [for_each _ _ ?f] => set (body := f) in *
  end.
  change (for_each (seq 0 m) tt body (set_shard_assoc (Some ∅) me)
          = (Returned tt, set_shard_assoc (Some d) me)) in Hrun.
  assert (Hseq : seq 0 (length worker_list)
                 = seq 0 m ++ seq m (S (length worker_list - S m))).
  { rewrite <- seq_app. f_equal. lia. }
  rewrite Hseq, for_each_app. unfold bind at 1. rewrite Hrun.
  cbn [seq for_each]. unfold bind at 1. unfold body at 1. rewrite Hnot.
  destruct (lookup_lt_is_Some_2 worker_list m) as [uri Huri]; [done|].
  unfold index, bind, ret, raise. simpl. rewrite Huri.
  rewrite (lookup_ge_None_2 infos m) by done. done.
Qed.

Section Runs.
Context {Net : Type}.
Context (post_distrib_rest :
           string → string → string → string → value → Net → result (list string) * Net).

(** One call, by what it leaves on the wire. *)
Lemma call_post_distrib_rest_sent (pfx sid uri path : string) (msg : value) (r : Run) :
  let rr := call_post_distrib_rest post_distrib_rest pfx sid uri path msg r in
  ∃ tr, wire rr.2 = wire r ++ tr ∧ sent tr = [sid] ∧
        ∀ lines, rr.1 = Returned lines → acked tr = [(sid, lines)].
Proof.
  unfold call_post_distrib_rest, on_wire, bind, modify, ret; simpl.
  destruct (post_distrib_rest pfx sid uri path msg (net r)) as [[lines|e] n']; simpl.
  - exists [Sent sid path; Acked sid path lines].
    split; [by rewrite <- app_assoc|]. split; [done|]. by intros ? [= <-].
  - exists [Sent sid path]. split; [done|]. split; [done|]. by intros.
Qed.

Lemma send_ring_rest_loop_sent (pfx path : string) (msg : value)
  (l : list (string * (string * option WorkerInfo))) :
  ∀ (acc : list string) (r : Run),
  let rr := for_each l acc (λ json_str item,
              let '(shard_id, (shard_uri, exe_info)) := item in
              let* lines := call_post_distrib_rest post_distrib_rest pfx shard_id
                              shard_uri path msg in
              let* line0 := index lines 0 in
              ret (json_str ++ [line0])) r in
  ∃ tr, wire rr.2 = wire r ++ tr ∧
        sent tr `prefix_of` l.*1 ∧
        ∀ json_str, rr.1 = Returned json_str →
          sent tr = l.*1 ∧ (acked tr).*1 = l.*1 ∧
          ∃ new, json_str = acc ++ new ∧
                 Forall2 (λ line a, head a.2 = Some line) new (acked tr).
Proof.
  match goal with
  | |- context [for_each l _ ?f] => set (body := f)
  end.
  assert (Hbody : ∀ acc sid uri info r,
    body acc (sid, (uri, info)) r =
    match call_post_distrib_rest post_distrib_rest pfx sid uri path msg r with
    | (Returned [], r1) => (Raised IndexError, r1)
    | (Returned (line0 :: _), r1) => (Returned (acc ++ [line0]), r1)
    | (Raised e, r1) => (Raised e, r1)
    end).
  { intros. unfold body, bind, index, ret, raise.
    by destruct (call_post_distrib_rest _ _ _ _ _ _ _) as [[[|??]|?] ?]. }
  clearbody body.
  induction l as [|[sid [uri info]] l IH]; intros acc r; cbv zeta.
  - simpl. exists []. split; [by rewrite app_nil_r|]. split; [done|].
    intros ? [= <-]. split; [done|]. split; [done|].
    exists []. split; [by rewrite app_nil_r|]. constructor.
  - cbn [for_each]. unfold bind. rewrite Hbody.
    destruct (call_post_distrib_rest_sent pfx sid uri path msg r)
      as (tr1 & Hw1 & Hs1 & Ha1).
    destruct (call_post_distrib_rest post_distrib_rest pfx sid uri path msg r)
      as [[[|line0 lines]|e] r1]; simpl in *.
    + exists tr1. split; [done|]. split; [|done].
      rewrite Hs1. by apply (prefix_cons _ [] _), prefix_nil.
    + destruct (IH (acc ++ [line0]) r1) as (tr2 & Hw2 & Hp2 & Hok2).
      exists (tr1 ++ tr2).
      split; [by rewrite Hw2, Hw1, app_assoc|].
      rewrite sent_app, acked_app, Hs1, (Ha1 _ eq_refl). simpl.
      split; [by apply prefix_cons|].
      intros json_str Hret.
      destruct (Hok2 json_str Hret) as (Hs2 & Ha2 & new & -> & Hnew).
      split; [f_equal; exact Hs2|]. split; [f_equal; exact Ha2|].
      exists (line0 :: new). split; [by rewrite <- app_assoc|].
      by constructor.
    + exists tr1. split; [done|]. split; [|done].
      rewrite Hs1. by apply (prefix_cons _ [] _), prefix_nil.
Qed.

(** X18. [send_ring_rest] goes through the registry once, in the order of its
    items: no shard is sent the request twice, the shards contacted are an
    initial stretch of the registry, and when the call returns they are all
    of it, each has answered, and the result holds one line per shard, the
    first line of that shard's answer, in the same order. *)
Theorem send_ring_rest_contacts_each_shard_once (path : string) (msg : value) (r : Run)
  (d : gmap string (string * option WorkerInfo)) :
  _shard_assoc (fw r) = Some d →
  let rr := send_ring_rest post_distrib_rest path msg r in
  ∃ tr, wire rr.2 = wire r ++ tr ∧
        NoDup (sent tr) ∧
        sent tr `prefix_of` (map_to_list d).*1 ∧
        ∀ json_str, rr.1 = Returned json_str →
          sent tr = (map_to_list d).*1 ∧
          (acked tr).*1 = (map_to_list d).*1 ∧
          Forall2 (λ line a, head a.2 = Some line) json_str (acked tr).
Proof.
  intros Hd. unfold send_ring_rest, bind, gets; simpl. rewrite Hd.
  destruct (send_ring_rest_loop_sent (prefix (fw r)) path msg (map_to_list d) [] r)
    as (tr & Hw & Hp & Hok).
  exists tr. split; [done|]. split; [|split; [done|]].
  - destruct Hp as [k Hk].
    pose proof (NoDup_fst_map_to_list d) as Hnd. rewrite Hk in Hnd.
    by apply NoDup_app in Hnd as [? _].
  - intros json_str Hret.
    destruct (Hok json_str Hret) as (Hs & Ha & new & -> & Hnew). done.
Qed.

Lemma send_ring_rest_unset (path : string) (msg : value) (r : Run) :
  _shard_assoc (fw r) = None →
  send_ring_rest post_distrib_rest path msg r = (Raised AttributeError, r).
Proof. intros Hd. unfold send_ring_rest, bind, gets, raise; simpl. by rewrite Hd. Qed.

(** X19. Before [set_worker_list] there is no registry: [send_ring_rest],
    [phase_barrier] and [orchestrate_uow] raise at once, and nothing goes
    out on the wire. *)
Theorem broadcast_without_registry_raises (path : string) (msg : value)
  (orchestrate : M Run unit) (r : Run) :
  _shard_assoc (fw r) = None →
  send_ring_rest post_distrib_rest path msg r = (Raised AttributeError, r) ∧
  phase_barrier post_distrib_rest r = (Raised AttributeError, r) ∧
  orchestrate_uow post_distrib_rest orchestrate r = (Raised AttributeError, r).
Proof.
  intros Hd.
  split; [by apply send_ring_rest_unset|]. split.
  - unfold phase_barrier. unfold bind at 1. by rewrite send_ring_rest_unset.
  - unfold orchestrate_uow. unfold bind at 1, gets at 1. cbn [fst snd].
    unfold bind at 1. by rewrite send_ring_rest_unset.
Qed.

(** X20. A run of [orchestrate_uow] that returns, with a strategy that only
    adds to the wire and leaves the registry alone: the wire is extended by
    four stretches in this order: ["shard/config"] to every shard of the
    registry, each answered; ["ring/init"] to every shard, each answered;
    what the strategy sent; ["shard/stop"] to every shard.  The strategy
    starts once every shard has answered both broadcasts, with [_ring]
    mapping each shard to its address. *)
Theorem orchestrate_uow_order (orchestrate : M Run unit) (r : Run)
  (d : gmap string (string * option WorkerInfo)) :
  _shard_assoc (fw r) = Some d →
  (∀ r0, _shard_assoc (fw (orchestrate r0).2) = _shard_assoc (fw r0) ∧
         ∃ t, wire (orchestrate r0).2 = wire r0 ++ t) →
  let rr := orchestrate_uow post_distrib_rest orchestrate r in
  rr.1 = Returned tt →
  ∃ tc ti to ts r2,
    wire rr.2 = wire r ++ tc ++ ti ++ to ++ ts ∧
    wire r2 = wire r ++ tc ++ ti ∧
    _ring (fw r2) = Some (fst <$> d) ∧
    wire (orchestrate r2).2 = wire r2 ++ to ∧
    Forall (λ m, path_of m = "shard/config") tc ∧
    Forall (λ m, path_of m = "ring/init") ti ∧
    Forall (λ m, path_of m = "shard/stop") ts ∧
    ∀ sid e, d !! sid = Some e →
      (Sent sid "shard/config" ∈ tc ∧ ∃ lines, Acked sid "shard/config" lines ∈ tc) ∧
      (Sent sid "ring/init" ∈ ti ∧ ∃ lines, Acked sid "ring/init" lines ∈ ti) ∧
      (Sent sid "shard/stop" ∈ ts ∧ ∃ lines, Acked sid "shard/stop" lines ∈ ts).
Proof.
  intros Hd Horch rr.
  assert (Hrr : rr = orchestrate_uow post_distrib_rest orchestrate r) by done.
  clearbody rr. unfold orchestrate_uow in Hrr.
  unfold bind at 1, gets at 1 in Hrr. cbn [fst snd] in Hrr. unfold bind at 1 in Hrr.
  destruct (send_ring_rest_wire post_distrib_rest "shard/config"
              (VDict {["uow_name" := VStr (uow_name (fw r))]}) r d Hd)
    as (Hfw1 & tc & Hw1 & Hp1 & Hok1).
  destruct (send_ring_rest post_distrib_rest "shard/config" _ r)
    as [[j1|e1] r1]; simpl in Hfw1, Hw1, Hok1; [|by subst rr].
  unfold bind at 1, gets at 1 in Hrr. cbn [fst snd] in Hrr.
  rewrite Hfw1, Hd in Hrr.
  unfold bind at 1, modify at 1 in Hrr. cbn [fst snd] in Hrr.
  set (r1' := mkRun (set_ring (Some (fst <$> d)) (fw r1)) (net r1) (wire r1)) in Hrr.
  assert (Hd1 : _shard_assoc (fw r1') = Some d) by (simpl; by rewrite Hfw1).
  unfold bind at 1 in Hrr.
  destruct (send_ring_rest_wire post_distrib_rest "ring/init"
              (VDict {["ring" := VDict (VStr <$> (fst <$> d))]}) r1' d Hd1)
    as (Hfw2 & ti & Hw2 & Hp2 & Hok2).
  destruct (send_ring_rest post_distrib_rest "ring/init" _ r1')
    as [[j2|e2] r2]; simpl in Hfw2, Hw2, Hok2; [|by subst rr].
  unfold bind at 1 in Hrr.
  destruct (Horch r2) as (Hd3 & to & Hw3).
  destruct (orchestrate r2) as [[[]|e3] r3] eqn:Ho; simpl in Hd3, Hw3; [|by subst rr].
  assert (Hd3' : _shard_assoc (fw r3) = Some d).
  { rewrite Hd3, Hfw2. exact Hd1. }
  unfold bind at 1 in Hrr.
  destruct (send_ring_rest_wire post_distrib_rest "shard/stop" (VDict ∅) r3 d Hd3')
    as (Hfw4 & ts & Hw4 & Hp4 & Hok4).
  destruct (send_ring_rest post_distrib_rest "shard/stop" _ r3)
    as [[j4|e4] r4]; simpl in Hfw4, Hw4, Hok4; [|by subst rr].
  unfold ret in Hrr. subst rr. cbn [fst snd].
  intros _. exists tc, ti, to, ts, r2.
  split; [|split; [|split; [|split; [|split; [|split; [|split]]]]]]; try done.
  - rewrite Hw4, Hw3, Hw2. simpl. rewrite Hw1. by rewrite <- !app_assoc.
  - rewrite Hw2. simpl. rewrite Hw1. by rewrite <- !app_assoc.
  - by rewrite Hfw2.
  - by rewrite Ho.
  - intros sid e He.
    split; [exact (Hok1 j1 eq_refl sid e He)|].
    split; [exact (Hok2 j2 eq_refl sid e He)|].
    exact (Hok4 j4 eq_refl sid e He).
Qed.

(** X21. [orchestrate_uow] has no handler around the strategy: when
    [orchestrate] raises, having sent no ["shard/stop"] itself, the
    exception leaves [orchestrate_uow] and no shard is told to stop. *)
Theorem failed_orchestrate_stops_no_shard (orchestrate : M Run unit) (r : Run) (e : exn) :
  (∀ r0, (orchestrate r0).1 = Raised e ∧
         ∃ t, wire (orchestrate r0).2 = wire r0 ++ t ∧
              Forall (λ m, path_of m ≠ "shard/stop") t) →
  let rr := orchestrate_uow post_distrib_rest orchestrate r in
  (∃ e', rr.1 = Raised e') ∧
  ∃ tr, wire rr.2 = wire r ++ tr ∧ Forall (λ m, path_of m ≠ "shard/stop") tr.
Proof.
  intros Horch rr.
  assert (Hrr : rr = orchestrate_uow post_distrib_rest orchestrate r) by done.
  clearbody rr. unfold orchestrate_uow in Hrr.
  assert (Hne : ∀ p t, p ≠ "shard/stop" → Forall (λ m, path_of m = p) t →
                       Forall (λ m, path_of m ≠ "shard/stop") t).
  { intros p t Hp Hall. eapply Forall_impl; [exact Hall|]. by intros m <-. }
  unfold bind at 1, gets at 1 in Hrr. cbn [fst snd] in Hrr. unfold bind at 1 in Hrr.
  destruct (_shard_assoc (fw r)) as [d|] eqn:Hd.
  2:{ rewrite send_ring_rest_unset in Hrr by done. subst rr. simpl.
      split; [by eexists|]. exists []. by rewrite app_nil_r. }
  destruct (send_ring_rest_wire post_distrib_rest "shard/config"
              (VDict {["uow_name" := VStr (uow_name (fw r))]}) r d Hd)
    as (Hfw1 & tc & Hw1 & Hp1 & _).
  apply (Hne "shard/config") in Hp1; [|done].
  destruct (send_ring_rest post_distrib_rest "shard/config" _ r)
    as [[j1|e1] r1]; simpl in Hfw1, Hw1.
  2:{ subst rr. simpl. split; [by eexists|]. by exists tc. }
  unfold bind at 1, gets at 1 in Hrr. cbn [fst snd] in Hrr.
  rewrite Hfw1, Hd in Hrr.
  unfold bind at 1, modify at 1 in Hrr. cbn [fst snd] in Hrr.
  set (r1' := mkRun (set_ring (Some (fst <$> d)) (fw r1)) (net r1) (wire r1)) in Hrr.
  assert (Hd1 : _shard_assoc (fw r1') = Some d) by (simpl; by rewrite Hfw1).
  unfold bind at 1 in Hrr.
  destruct (send_ring_rest_wire post_distrib_rest "ring/init"
              (VDict {["ring" := VDict (VStr <$> (fst <$> d))]}) r1' d Hd1)
    as (Hfw2 & ti & Hw2 & Hp2 & _).
  apply (Hne "ring/init") in Hp2; [|done].
  destruct (send_ring_rest post_distrib_rest "ring/init" _ r1')
    as [[j2|e2] r2]; simpl in Hfw2, Hw2.
  2:{ subst rr. simpl. split; [by eexists|]. exists (tc ++ ti).
      split; [by rewrite Hw2, Hw1, <- app_assoc | by apply Forall_app]. }
  unfold bind at 1 in Hrr.
  destruct (Horch r2) as (Hr & to & Hw3 & Hp3).
  destruct (orchestrate r2) as [[[]|e3] r3]; simpl in Hr, Hw3; [done|].
  subst rr. simpl.
  split; [by eexists|]. exists (tc ++ ti ++ to).
  split.
  - rewrite Hw3, Hw2. simpl. rewrite Hw1. by rewrite <- !app_assoc.
  - apply Forall_app; split; [done|]. by apply Forall_app.
Qed.


End Runs.

(** A coordinator that has registered nothing yet. *)
Definition unregistered : Run (Net := nat) :=
  mkRun (__init__ "0f" "echo" "/tmp/exelixi") 0 [].

(** The descriptor of one executor. *)
Definition one_info : WorkerInfo :=
  mkWorkerInfo "host0" "slave0" "task0" "exe0" None None.

Lemma registry_reads_back_witness :
  get_worker_count
    (set_worker_list ["10.0.0.1:9311"; "10.0.0.2:9311"; "10.0.0.3:9311"] None
       (__init__ "0f" "echo" "/tmp/exelixi")).2
  = (Returned 3,
     (set_worker_list ["10.0.0.1:9311"; "10.0.0.2:9311"; "10.0.0.3:9311"] None
        (__init__ "0f" "echo" "/tmp/exelixi")).2).
Proof.
  refine (proj1 (registry_reads_back (__init__ "0f" "echo" "/tmp/exelixi")
                   ["10.0.0.1:9311"; "10.0.0.2:9311"; "10.0.0.3:9311"] None _)).
  simpl. discriminate.
Defined.

Lemma set_worker_list_short_exe_info_witness :
  ∃ d, set_worker_list ["10.0.0.1:9311"; "10.0.0.2:9311"] (Some [one_info])
         (__init__ "0f" "echo" "/tmp/exelixi")
       = (Raised IndexError, set_shard_assoc (Some d) (__init__ "0f" "echo" "/tmp/exelixi")) ∧
       size d = 1.
Proof.
  apply (set_worker_list_short_exe_info (__init__ "0f" "echo" "/tmp/exelixi")
           ["10.0.0.1:9311"; "10.0.0.2:9311"] [one_info]).
  - discriminate.
  - simpl. lia.
Defined.

Lemma send_ring_rest_contacts_each_shard_once_witness :
  ∃ tr, wire (send_ring_rest answering "queue/wait" (VDict ∅) two_shards).2
        = wire two_shards ++ tr ∧
        NoDup (sent tr) ∧ length (sent tr) = 2.
Proof.
  destruct (send_ring_rest_contacts_each_shard_once answering "queue/wait" (VDict ∅)
              two_shards
              (<["shard/0" := ("10.0.0.1:9311", None)]>
                 (<["shard/1" := ("10.0.0.2:9311", None)]> ∅)) eq_refl)
    as (tr & Hw & Hnd & _ & Hok).
  exists tr. split; [exact Hw|]. split; [exact Hnd|].
  destruct (Hok ["Bokay\r\n"; "Bokay\r\n"]) as (Hs & _).
  - vm_compute; reflexivity.
  - rewrite Hs. vm_compute; reflexivity.
Defined.

Lemma broadcast_without_registry_raises_witness :
  phase_barrier answering unregistered = (Raised AttributeError, unregistered).
Proof.
  refine (proj1 (proj2
    (broadcast_without_registry_raises answering "queue/wait" (VDict ∅) (ret tt)
       unregistered _))).
  reflexivity.
Defined.

Lemma orchestrate_uow_order_witness :
  ∃ tc ti to ts,
    wire (orchestrate_uow answering (ret tt) two_shards).2
    = wire two_shards ++ tc ++ ti ++ to ++ ts ∧
    Sent "shard/1" "shard/config" ∈ tc ∧
    Sent "shard/1" "ring/init" ∈ ti ∧
    Sent "shard/1" "shard/stop" ∈ ts.
Proof.
  destruct (orchestrate_uow_order answering (ret tt) two_shards
              (<["shard/0" := ("10.0.0.1:9311", None)]>
                 (<["shard/1" := ("10.0.0.2:9311", None)]> ∅)))
    as (tc & ti & to & ts & r2 & Hw & _ & _ & _ & _ & _ & _ & Hall).
  - reflexivity.
  - intros r0. split; [reflexivity|]. exists []. simpl. symmetry. apply app_nil_r.
  - vm_compute; reflexivity.
  - exists tc, ti, to, ts. split; [exact Hw|].
    destruct (Hall "shard/1" ("10.0.0.2:9311", None)) as ((Hc & _) & (Hi & _) & (Hs & _)).
    + reflexivity.
    + exact (conj Hc (conj Hi Hs)).
Defined.

Lemma failed_orchestrate_stops_no_shard_witness :
  ∃ tr, wire (orchestrate_uow answering (raise (TaskError "lost")) two_shards).2
        = wire two_shards ++ tr ∧
        Forall (λ m, path_of m ≠ "shard/stop") tr.
Proof.
  refine (proj2 (failed_orchestrate_stops_no_shard answering (raise (TaskError "lost"))
                   two_shards (TaskError "lost") _)).
  intros r0. split; [reflexivity|]. exists []. split; [|constructor].
  simpl. symmetry. apply app_nil_r.
Defined.

End FrameworkRuns.

(** ** The handlers of the executor *)

Module ExecutorHandlers.
Import Executor.

(** The stored credential and the one of the payload are equal. *)
Definition matches (p : Proc) (a b : value) : bool :=
  py_eq (prefix (self p)) a && py_eq (shard_id (self p)) b.

(** The answer [pop_init] and [pop_next] give before they start. *)
Definition acknowledged (p : Proc) : Response :=
  mkResponse (Some "200 OK") (body (response p) ++ [Str "Bokay\r\n"; StopIteration]).

(** [stop] with a complete credential: the server is stopped when the
    credential is the stored one, nothing is written, and the rest of the
    executor stays. *)
Lemma stop_matches (p : Proc) (d : gmap string value) (a b : value) :
  d !! "prefix" = Some a →
  d !! "shard_id" = Some b →
  let r := stop (VDict d) p in
  r.1 = Returned tt ∧
  response r.2 = response p ∧
  server_stopped (self r.2) = server_stopped (self p) || matches p a b.
Proof.
  intros Ha Hb. cbv zeta.
  unfold stop, matches, bind, gets, getitem, print, modify, ret; simpl.
  rewrite Ha, Hb; simpl.
  destruct (py_eq (prefix (self p)) a); simpl;
    [destruct (py_eq (shard_id (self p)) b); simpl|];
    rewrite ?Ha, ?Hb; simpl; by rewrite ?orb_true_r, ?orb_false_r.
Qed.

(** X22. Configuration and shutdown round trip: an executor configured by
    [shard_config] with the credential (a, b) is stopped by [stop] with the
    strings (a', b') exactly when a' = a and b' = b; [stop] returns and
    writes no response either way. *)
Theorem executor_stops_for_its_credential
  (p : Proc) (d d' : gmap string value) (a b a' b' : string) :
  is_config (self p) = false →
  server_stopped (self p) = false →
  d !! "prefix" = Some (VStr a) →
  d !! "shard_id" = Some (VStr b) →
  d' !! "prefix" = Some (VStr a') →
  d' !! "shard_id" = Some (VStr b') →
  let p1 := (shard_config (VDict d) p).2 in
  let r := stop (VDict d') p1 in
  r.1 = Returned tt ∧
  response r.2 = response p1 ∧
  server_stopped (self r.2) = bool_decide (a' = a ∧ b' = b).
Proof.
  intros Hc Hs Ha Hb Ha' Hb' p1 r.
  destruct (stop_matches p1 d' (VStr a') (VStr b') Ha' Hb') as (H1 & H2 & H3).
  fold r in H1, H2, H3. split; [done|]. split; [done|]. rewrite H3.
  assert (Hp1 : server_stopped (self p1) = false ∧ prefix (self p1) = VStr a ∧
                shard_id (self p1) = VStr b).
  { unfold p1, shard_config, bind, gets, getitem, start_response, body_put, print,
      modify, ret; simpl. rewrite Hc; simpl. rewrite Ha; simpl. by rewrite Hb. }
  destruct Hp1 as (-> & Hp & Hi). unfold matches. rewrite Hp, Hi. simpl.
  destruct (decide (a = a')) as [<-|Hna]; [destruct (decide (b = b')) as [<-|Hnb]|].
  - by rewrite !bool_decide_eq_true_2.
  - rewrite bool_decide_eq_true_2, (bool_decide_eq_false_2 (b = b')) by done.
    rewrite (bool_decide_eq_false_2 (a = a ∧ b' = b)) by (intros [_ ?]; congruence).
    done.
  - rewrite (bool_decide_eq_false_2 (a = a')) by done.
    rewrite (bool_decide_eq_false_2 (a' = a ∧ b' = b)) by (intros [? _]; congruence).
    done.
Qed.

Section Handlers.
Context {ga : GA}.

Lemma if_credential_matches (p : Proc) (d : gmap string value) (a b : value)
  (yes no : M Proc unit) :
  d !! "prefix" = Some a →
  d !! "shard_id" = Some b →
  if_credential (VDict d) yes no p = if matches p a b then yes p else no p.
Proof.
  intros Ha Hb. unfold if_credential, matches, bind, gets, getitem, ret; simpl.
  rewrite Ha; simpl.
  destruct (py_eq (prefix (self p)) a); simpl; [|done].
  rewrite Hb; simpl. by destruct (py_eq (shard_id (self p)) b).
Qed.

(** X23. The population handlers turn to [self.bad_auth] when the credential is
    not the stored one, and the class has no such method: [pop_init],
    [pop_hist] and [pop_next] raise [AttributeError], write no response (no
    denial either) and leave the executor as it was. *)
Theorem wrong_credential_raises_in_pop_handlers
  (p : Proc) (d : gmap string value) (a b : value) :
  d !! "prefix" = Some a →
  d !! "shard_id" = Some b →
  matches p a b = false →
  pop_init (VDict d) p = (Raised AttributeError, p) ∧
  pop_hist (VDict d) p = (Raised AttributeError, p) ∧
  pop_next (VDict d) p = (Raised AttributeError, p).
Proof.
  intros Ha Hb Hm. unfold pop_init, pop_hist, pop_next.
  rewrite !(if_credential_matches p d a b) by done. by rewrite Hm.
Qed.

(** X24. [pop_init] answers before it works: with the stored credential the
    response is 200 Bokay, complete, whatever becomes of the population (a
    missing ["ff_name"], an exception of [Population] or of [populate]); and
    when the handler returns, the executor holds the fitness function's name
    and the population built for it and populated at generation 0. *)
Theorem pop_init_answers_before_it_works
  (p : Proc) (d : gmap string value) (a b : value) :
  d !! "prefix" = Some a →
  d !! "shard_id" = Some b →
  matches p a b = true →
  let r := pop_init (VDict d) p in
  response r.2 = acknowledged p ∧
  (d !! "ff_name" = None → r.1 = Raised (KeyError "ff_name") ∧ self r.2 = self p) ∧
  (r.1 = Returned tt →
   ∃ f pop0 pop1,
     d !! "ff_name" = Some f ∧
     Population f (prefix (self p)) (hash_ring (self p)) = Returned pop0 ∧
     populate pop0 0 = Returned pop1 ∧
     ff_name (self r.2) = f ∧ pop (self r.2) = pop1).
Proof.
  intros Ha Hb Hm r.
  assert (Hr : r = (start_response "200 OK";;
     body_put (Str "Bokay\r\n");;
     body_put StopIteration;;
     let* f := getitem (VDict d) "ff_name" in
     modify (upd_self (λ me, mkExecutor (is_config me) (server_stopped me) (prefix me)
                               (shard_id me) (hash_ring me) f (pop me)));;
     print "%s: initializing population based on %s" [VStr "APP_NAME"; f];;
     let* me := gets self in
     let* p := call (Population (ff_name me) (prefix me) (hash_ring me)) in
     set_pop p;;
     let* p' := call (populate p 0) in
     set_pop p') p).
  { unfold r, pop_init. rewrite (if_credential_matches p d a b) by done. by rewrite Hm. }
  rewrite Hr. clear Hr r.
  unfold start_response, body_put, getitem, print, set_pop, call, acknowledged,
    bind, gets, modify, ret, raise; simpl.
  destruct (d !! "ff_name") as [f|]; simpl.
  - destruct (Population f (prefix (self p)) (hash_ring (self p))) as [pop0|e0] eqn:E0;
      simpl; [destruct (populate pop0 0) as [pop1|e1] eqn:E1; simpl|];
      (split; [by rewrite <- app_assoc|]); (split; [done|]); try done.
    intros _. by exists f, pop0, pop1.
  - split; [by rewrite <- app_assoc|]. split; [|done]. intros _. split; [done|].
    by destruct (self p).
Qed.

(** X25. Before [pop_init] there is no population.  With the stored credential,
    [pop_hist] raises [AttributeError] after the status line, so the body
    never gets its end marker; [pop_next] raises it after a complete 200
    Bokay: the caller is told the generation was accepted. *)
Theorem pop_handlers_before_pop_init
  (p : Proc) (d : gmap string value) (a b : value) :
  d !! "prefix" = Some a →
  d !! "shard_id" = Some b →
  matches p a b = true →
  pop (self p) = VNone →
  (pop_hist (VDict d) p).1 = Raised AttributeError ∧
  response (pop_hist (VDict d) p).2 = mkResponse (Some "200 OK") (body (response p)) ∧
  self (pop_hist (VDict d) p).2 = self p ∧
  (is_Some (d !! "current_gen") → is_Some (d !! "fitness_cutoff") →
   (pop_next (VDict d) p).1 = Raised AttributeError ∧
   response (pop_next (VDict d) p).2 = acknowledged p ∧
   self (pop_next (VDict d) p).2 = self p).
Proof.
  intros Ha Hb Hm Hp. unfold pop_hist, pop_next.
  rewrite !(if_credential_matches p d a b) by done. rewrite Hm.
  unfold start_response, body_put, getitem, on_pop, call, acknowledged,
    bind, gets, modify, ret, raise; simpl.
  rewrite Hp. do 3 (split; [done|]).
  intros [c ->] [f ->]; simpl. rewrite Hp. split; [done|]. split; [|done].
  by rewrite <- app_assoc.
Qed.

End Handlers.

(** A population that is the list of its generations. *)
Definition generations : GA := {|
  Population := λ _ _ _, Returned (VList []);
  populate := λ p n, Returned (VList [VInt n]);
  get_part_hist := λ p, Returned p;
  next_generation := λ p current_gen _, Returned (VList [p; current_gen]);
  dumps := λ _, "{}"
|}.

Lemma executor_stops_for_its_credential_witness :
  server_stopped (self (stop (credential (VStr "p") (VStr "shard/0"))
                             WorkerLifecycle.configured_executor).2) = true.
Proof.
  refine (proj2 (proj2
    (executor_stops_for_its_credential
       (mkProc __init__ (mkResponse None []) [])
       (<["prefix" := VStr "p"]> (<["shard_id" := VStr "shard/0"]>
          (<["uow_name" := VStr "echo"]> ∅)))
       (<["prefix" := VStr "p"]> (<["shard_id" := VStr "shard/0"]> ∅))
       "p" "shard/0" "p" "shard/0" _ _ _ _ _ _))); reflexivity.
Defined.

Lemma wrong_credential_raises_in_pop_handlers_witness :
  pop_hist (ga := generations) (credential (VStr "p") (VStr "shard/1"))
           WorkerLifecycle.configured_executor
  = (Raised AttributeError, WorkerLifecycle.configured_executor).
Proof.
  refine (proj1 (proj2
    (wrong_credential_raises_in_pop_handlers (ga := generations)
       WorkerLifecycle.configured_executor
       (<["prefix" := VStr "p"]> (<["shard_id" := VStr "shard/1"]> ∅))
       (VStr "p") (VStr "shard/1") _ _ _))); reflexivity.
Defined.

Lemma pop_init_answers_before_it_works_witness :
  response (pop_init (ga := generations) (credential (VStr "p") (VStr "shard/0"))
                     WorkerLifecycle.configured_executor).2
  = acknowledged WorkerLifecycle.configured_executor ∧
  (pop_init (ga := generations) (credential (VStr "p") (VStr "shard/0"))
            WorkerLifecycle.configured_executor).1 = Raised (KeyError "ff_name").
Proof.
  destruct (pop_init_answers_before_it_works (ga := generations)
              WorkerLifecycle.configured_executor
              (<["prefix" := VStr "p"]> (<["shard_id" := VStr "shard/0"]> ∅))
              (VStr "p") (VStr "shard/0"))
    as (Hans & Hkey & _); [reflexivity..|].
  split; [exact Hans|]. apply Hkey. reflexivity.
Defined.

Lemma pop_handlers_before_pop_init_witness :
  (pop_hist (ga := generations) (credential (VStr "p") (VStr "shard/0"))
            WorkerLifecycle.configured_executor).1 = Raised AttributeError.
Proof.
  refine (proj1
    (pop_handlers_before_pop_init (ga := generations)
       WorkerLifecycle.configured_executor
       (<["prefix" := VStr "p"]> (<["shard_id" := VStr "shard/0"]> ∅))
       (VStr "p") (VStr "shard/0") _ _ _ _)); reflexivity.
Defined.

End ExecutorHandlers.
